(** * Realtime chat server: message store, user manager and socket manager

    A shallow embedding of [src/lib/messageStore.ts], of the [UserManager]
    and [SocketManager] classes and of the constants of [src/types/chat.ts],
    followed by the properties of the specification that concern them.

    JavaScript strings are sequences of UTF-16 code units; they are modelled
    as [list N].  The arrays are lists, the insertion-ordered [Map] of the
    user manager is an association list, the [Map] of the rate limiter
    (whose order is never observed) is a [gmap].  Methods run in a small
    state-and-exception monad: a [throw] keeps the state reached so far, as
    a JavaScript exception keeps the mutations made before it.  The clock
    ([new Date()], [Date.now()]) and the identifier generator ([uuidv4()])
    are inputs of the methods that read them. *)

From Stdlib Require Import ZArith NArith List Ascii String Lia Bool.
From stdpp Require Import base tactics option list gmap.

#[local] Open Scope Z_scope.

(* ===================================================================== *)
(** * Part 1: the program                                                 *)
(* ===================================================================== *)

(** ** Constants of [types/chat.ts] *)

Module ErrorCodes.
Inductive t : Set :=
| NICKNAME_TAKEN
| INVALID_NICKNAME
| ROOM_FULL
| INVALID_MESSAGE
| RATE_LIMIT_EXCEEDED
| SERVER_ERROR
| CONNECTION_ERROR.
End ErrorCodes.

Module ValidationConstraints.
Definition NICKNAME_MIN_LENGTH : Z := 1.
Definition NICKNAME_MAX_LENGTH : Z := 20.
Definition MESSAGE_MIN_LENGTH : Z := 1.
Definition MESSAGE_MAX_LENGTH : Z := 500.
Definition MAX_USERS : Z := 50.
Definition MAX_MESSAGES : Z := 100.
Definition RATE_LIMIT_PER_SECOND : Z := 3.
End ValidationConstraints.

(** ** The JavaScript primitives the classes use *)

Module Js.

(** A string literal of the source, as code units. *)
Definition str (s : string) : list N :=
  List.map N_of_ascii (list_ascii_of_string s).

(** [a.length] *)
Definition len {A} (l : list A) : Z := Z.of_nat (length l).

(** [a === b] on strings. *)
Fixpoint streq (a b : list N) : bool :=
  match a, b with
  | [], [] => true
  | x :: a', y :: b' => (x =? y)%N && streq a' b'
  | _, _ => false
  end.

(** The code units of WhiteSpace and LineTerminator: what [trim] strips
    and what [\s] matches. *)
Definition isWhiteSpace (c : N) : bool :=
  (((9 <=? c) && (c <=? 13)) || (c =? 32) || (c =? 0xA0) || (c =? 0x1680)
   || ((0x2000 <=? c) && (c <=? 0x200A)) || (c =? 0x2028) || (c =? 0x2029)
   || (c =? 0x202F) || (c =? 0x205F) || (c =? 0x3000) || (c =? 0xFEFF))%N.

Fixpoint trimStart (s : list N) : list N :=
  match s with
  | [] => []
  | c :: r => if isWhiteSpace c then trimStart r else s
  end.

Definition trimEnd (s : list N) : list N := rev (trimStart (rev s)).

(** [s.trim()] *)
Definition trim (s : list N) : list N := trimEnd (trimStart s).

Fixpoint startsWith (s p : list N) : bool :=
  match p, s with
  | [], _ => true
  | _ :: _, [] => false
  | x :: p', y :: s' => (x =? y)%N && startsWith s' p'
  end.

(** [s.includes(p)] *)
Fixpoint includes (s p : list N) : bool :=
  startsWith s p ||
  match s with
  | [] => false
  | _ :: r => includes r p
  end.

(** [s.replace(/c/g, r)] for a pattern of one code unit [c] and a
    replacement [r] without [$]. *)
Fixpoint replaceAll (c : N) (r : list N) (s : list N) : list N :=
  match s with
  | [] => []
  | x :: s' => (if (x =? c)%N then r else [x]) ++ replaceAll c r s'
  end.

(** [s.replace(/\s+/g, ' ')]: every maximal run of white space becomes
    one space; [inRun] tells that the previous unit was white space. *)
Fixpoint collapseSpaces (inRun : bool) (s : list N) : list N :=
  match s with
  | [] => []
  | c :: r =>
      if isWhiteSpace c
      then (if inRun then collapseSpaces true r
            else 32%N :: collapseSpaces true r)
      else c :: collapseSpaces false r
  end.

(** [a.slice(start)]: a negative [start] counts from the end. *)
Definition slice {A} (start : Z) (a : list A) : list A :=
  let k := if start <? 0 then Z.max (len a + start) 0
           else Z.min start (len a) in
  drop (Z.to_nat k) a.

(** The array left by [a.splice(0, deleteCount)]. *)
Definition splice0 {A} (deleteCount : Z) (a : list A) : list A :=
  drop (Z.to_nat (Z.min (Z.max deleteCount 0) (len a))) a.

(** [a.sort(cmp)]: the sort is stable; an element is inserted before the
    first one it does not exceed. *)
Fixpoint insertBy {A} (cmp : A -> A -> Z) (x : A) (l : list A) : list A :=
  match l with
  | [] => [x]
  | y :: r => if cmp x y <=? 0 then x :: l else y :: insertBy cmp x r
  end.

Definition sort {A} (cmp : A -> A -> Z) (l : list A) : list A :=
  foldr (insertBy cmp) [] l.

(** [String.prototype.toLowerCase] follows the Unicode case mappings,
    which are not part of the repository: the development is parametric
    in it.  White space has no case and no letter maps to white space, so
    a string is blank exactly when its lower case is. *)
Class CaseMapping := {
  toLowerCase : list N -> list N;
  toLowerCase_blank : forall s, trim (toLowerCase s) = [] <-> trim s = []
}.

(** ASCII case folding. *)
Definition asciiLower (c : N) : N :=
  if ((65 <=? c) && (c <=? 90))%N then (c + 32)%N else c.

(** An insertion-ordered [Map] with string keys. *)
Module Map.
Definition t (V : Type) : Type := list (list N * V).

Fixpoint get {V} (k : list N) (m : t V) : option V :=
  match m with
  | [] => None
  | (k', v) :: r => if streq k' k then Some v else get k r
  end.

(** [m.set(k, v)]: an existing key keeps its place. *)
Fixpoint set {V} (k : list N) (v : V) (m : t V) : t V :=
  match m with
  | [] => [(k, v)]
  | (k', v') :: r =>
      if streq k' k then (k, v) :: r else (k', v') :: set k v r
  end.

Fixpoint delete {V} (k : list N) (m : t V) : t V :=
  match m with
  | [] => []
  | (k', v') :: r => if streq k' k then r else (k', v') :: delete k r
  end.

Definition values {V} (m : t V) : list V := List.map snd m.
Definition size {V} (m : t V) : Z := len m.
End Map.

(** An object literal used as a table, [const o = {}]: its own properties
    by name (their order is never observed).  A property of such a table
    holds a number, or a string once a value that is no number went
    through [+ 1]. *)
Module Object.
Inductive Value : Type :=
| Num (n : Z)
| Text (s : list N).

Definition t : Type := gmap (list N) Value.

(** The functions [{}] inherits from [Object.prototype] under their own
    name. *)
Definition methods : list (list N) :=
  [str "__defineGetter__"; str "__defineSetter__"; str "hasOwnProperty";
   str "__lookupGetter__"; str "__lookupSetter__"; str "isPrototypeOf";
   str "propertyIsEnumerable"; str "toString"; str "valueOf";
   str "toLocaleString"].

(** The text of a built-in function of the name [name], as V8 prints
    it. *)
Definition nativeCode (name : list N) : list N :=
  str "function " ++ name ++ str "() { [native code] }".

(** The text of [({})[name]] when [{}] inherits a property of that name:
    [constructor] is the function [Object], and [__proto__] is
    [Object.prototype] itself. *)
Definition inherited (name : list N) : option (list N) :=
  if streq name (str "constructor") then Some (nativeCode (str "Object"))
  else if streq name (str "__proto__") then Some (str "[object Object]")
  else if existsb (streq name) methods then Some (nativeCode name)
  else None.

(** [o[name] = (o[name] || 0) + 1].  An own property is read before an
    inherited one; a number is counted up, the empty string counts as
    [0], and to the text of any other value [+] appends [1].  The
    assignment makes or changes an own property, but for an inherited
    [__proto__], whose setter ignores a string. *)
Definition increment (name : list N) (o : t) : t :=
  match o !! name with
  | Some (Num n) => <[name := Num (n + 1)]> o
  | Some (Text []) => <[name := Num 1]> o
  | Some (Text s) => <[name := Text (s ++ str "1")]> o
  | None =>
      match inherited name with
      | None => <[name := Num 1]> o
      | Some text =>
          if streq name (str "__proto__") then o
          else <[name := Text (text ++ str "1")]> o
      end
  end.
End Object.

End Js.

(** ** Methods as state transformers that may throw *)

Module Eff.
Definition M (S A : Type) : Type := S -> (ErrorCodes.t + A) * S.

Definition ret {S A} (a : A) : M S A := fun s => (inr a, s).
Definition bind {S A B} (m : M S A) (k : A -> M S B) : M S B :=
  fun s => match m s with
           | (inl e, s') => (inl e, s')
           | (inr a, s') => k a s'
           end.
Definition throw {S A} (e : ErrorCodes.t) : M S A := fun s => (inl e, s).
Definition get {S} : M S S := fun s => (inr s, s).
Definition put {S} (s : S) : M S unit := fun _ => (inr tt, s).

(** [try { m } catch (error) { h error }] *)
Definition tryCatch {S A} (m : M S A) (h : ErrorCodes.t -> M S A) : M S A :=
  fun s => match m s with
           | (inl e, s') => h e s'
           | r => r
           end.

(** A method of a member object, run on the field that holds it. *)
Definition zoom {S T A} (proj : S -> T) (upd : T -> S -> S) (m : M T A)
  : M S A :=
  fun s => let (r, t') := m (proj s) in (r, upd t' s).

(** The state a call leaves and the value it returns or throws. *)
Definition result {S A} (r : (ErrorCodes.t + A) * S) : ErrorCodes.t + A := fst r.
Definition state {S A} (r : (ErrorCodes.t + A) * S) : S := snd r.
End Eff.

Import Eff.

Notation "x <- m ;; k" := (bind m (fun x => k))
  (at level 100, m at next level, right associativity).
Notation "m ;;; k" := (bind m (fun _ => k))
  (at level 100, k at level 200, right associativity).

(** ** The records of [types/chat.ts] *)

Module User.
Record t : Type := mk {
  id : list N;
  nickname : list N;
  joinedAt : Z
}.
End User.

Module Message.
Record t : Type := mk {
  id : list N;
  userId : list N;
  nickname : list N;
  message : list N;
  timestamp : Z
}.
End Message.

(** The result of [getStatistics]. *)
Module Statistics.
Record t : Type := mk {
  totalMessages : Z;
  oldestMessage : option Z;
  newestMessage : option Z;
  averageMessageLength : Z;
  userMessageCounts : Js.Object.t
}.
End Statistics.

(** ** [lib/messageStore.ts] *)

Module MessageStore.
Import Js.

(** The private field [messages], in time order. *)
Definition t : Type := list Message.t.

Definition MAX_MESSAGES : Z := ValidationConstraints.MAX_MESSAGES.

(** The class [[\x00-\x08\x0B\x0C\x0E-\x1F\x7F]]. *)
Definition isInvalidChar (c : N) : bool :=
  ((c <=? 8) || (c =? 0x0B) || (c =? 0x0C)
   || ((0x0E <=? c) && (c <=? 0x1F)) || (c =? 0x7F))%N.

Definition validateMessage (message : list N) : M t unit :=
  if len message =? 0 then throw ErrorCodes.INVALID_MESSAGE else
  let trimmed := trim message in
  if (len trimmed <? ValidationConstraints.MESSAGE_MIN_LENGTH)
     || (len trimmed >? ValidationConstraints.MESSAGE_MAX_LENGTH)
  then throw ErrorCodes.INVALID_MESSAGE else
  let hasInvalidChars := existsb isInvalidChar message in
  if hasInvalidChars then throw ErrorCodes.INVALID_MESSAGE else
  ret tt.

Definition sanitizeMessage (message : list N) : list N :=
  replaceAll 47 (str "&#x2F;")
    (replaceAll 39 (str "&#x27;")
      (replaceAll 34 (str "&quot;")
        (replaceAll 62 (str "&gt;")
          (replaceAll 60 (str "&lt;")
            (replaceAll 38 (str "&amp;") message))))).

(** [uuid] is the value of [uuidv4()], [now] that of [new Date()]. *)
Definition addMessage (uuid : list N) (now : Z)
    (userId nickname message : list N) : M t Message.t :=
  validateMessage message ;;;
  let messageObj :=
    {| Message.id := uuid;
       Message.userId := userId;
       Message.nickname := trim nickname;
       Message.message := sanitizeMessage (trim message);
       Message.timestamp := now |} in
  (messages <- get ;; put (messages ++ [messageObj])) ;;;
  (messages <- get ;;
   if len messages >? MAX_MESSAGES
   then let removedCount := len messages - MAX_MESSAGES in
        put (splice0 removedCount messages)
   else ret tt) ;;;
  ret messageObj.

Definition getRecentMessages (limit : Z) : M t (list Message.t) :=
  messages <- get ;;
  let actualLimit := Z.min (Z.max 1 limit) (len messages) in
  ret (slice (- actualLimit) messages).

Definition getUserMessages (userId : list N) (limit : Z)
  : M t (list Message.t) :=
  messages <- get ;;
  ret (slice (- limit)
         (List.filter (fun msg => streq (Message.userId msg) userId) messages)).

Definition getMessageCount : M t Z :=
  messages <- get ;; ret (len messages).

Definition clearMessages : M t unit := put [].

Definition searchMessages `{CaseMapping} (searchTerm : list N) (limit : Z)
  : M t (list Message.t) :=
  if len searchTerm =? 0 then ret [] else
  let term := trim (toLowerCase searchTerm) in
  if len term =? 0 then ret [] else
  messages <- get ;;
  ret (slice (- limit)
         (List.filter
            (fun msg =>
               includes (toLowerCase (Message.message msg)) term
               || includes (toLowerCase (Message.nickname msg)) term)
            messages)).

Definition getMessagesByTimeRange (startTime endTime : Z)
  : M t (list Message.t) :=
  messages <- get ;;
  ret (List.filter
         (fun msg => (startTime <=? Message.timestamp msg)
                     && (Message.timestamp msg <=? endTime))
         messages).

(** One turn of the loop of [getStatistics]: the counter of the nickname
    in the table [userCounts], and the running total of the lengths. *)
Definition count (acc : Object.t * Z) (msg : Message.t) : Object.t * Z :=
  let (userCounts, totalLength) := acc in
  (Object.increment (Message.nickname msg) userCounts,
   totalLength + len (Message.message msg)).

(** [Math.round(totalLength / n)] for [n > 0]: halves round up. *)
Definition roundDiv (totalLength n : Z) : Z := (2 * totalLength + n) / (2 * n).

Definition getStatistics : M t Statistics.t :=
  messages <- get ;;
  if len messages =? 0
  then ret (Statistics.mk 0 None None 0 ∅)
  else
    let (userCounts, totalLength) := fold_left count messages (∅, 0) in
    ret (Statistics.mk (len messages)
           (Message.timestamp <$> head messages)
           (Message.timestamp <$> last messages)
           (roundDiv totalLength (len messages))
           userCounts).

(** The public methods, as calls a client of the store can make one after
    the other; [call] drops the value returned. *)
Inductive Call : Type :=
| AddMessage (uuid : list N) (now : Z) (userId nickname message : list N)
| GetRecentMessages (limit : Z)
| GetUserMessages (userId : list N) (limit : Z)
| GetMessageCount
| SearchMessages (searchTerm : list N) (limit : Z)
| GetMessagesByTimeRange (startTime endTime : Z)
| GetStatistics.

Definition isRead (c : Call) : bool :=
  match c with
  | AddMessage _ _ _ _ _ => false
  | _ => true
  end.

Definition call `{CaseMapping} (c : Call) : M t unit :=
  match c with
  | AddMessage uuid now userId nickname message =>
      addMessage uuid now userId nickname message ;;; ret tt
  | GetRecentMessages limit => getRecentMessages limit ;;; ret tt
  | GetUserMessages userId limit => getUserMessages userId limit ;;; ret tt
  | GetMessageCount => getMessageCount ;;; ret tt
  | SearchMessages searchTerm limit => searchMessages searchTerm limit ;;; ret tt
  | GetMessagesByTimeRange startTime endTime =>
      getMessagesByTimeRange startTime endTime ;;; ret tt
  | GetStatistics => getStatistics ;;; ret tt
  end.

(** The store after the calls [cs], made in order; a call that throws
    leaves the store as the exception found it. *)
Definition calls `{CaseMapping} (cs : list Call) (s : t) : t :=
  fold_left (fun s c => state (call c s)) cs s.

End MessageStore.

(** ** The [UserManager] class *)

Module UserManager.
Import Js.

(** The private field [users]: socket id to user, in insertion order. *)
Definition t : Type := Map.t User.t.

(** The class of [validPattern]. *)
Definition isNicknameChar (c : N) : bool :=
  (((97 <=? c) && (c <=? 122)) || ((65 <=? c) && (c <=? 90))
   || ((48 <=? c) && (c <=? 57))
   || ((0x3040 <=? c) && (c <=? 0x309F)) || ((0x30A0 <=? c) && (c <=? 0x30FF))
   || ((0x4E00 <=? c) && (c <=? 0x9FAF)) || ((0x3400 <=? c) && (c <=? 0x4DBF))
   || isWhiteSpace c || (c =? 45) || (c =? 95))%N.

(** [validPattern.test(s)]: one or more units, all of the class. *)
Definition validPattern (s : list N) : bool :=
  match s with
  | [] => false
  | _ :: _ => forallb isNicknameChar s
  end.

Definition validateNickname (nickname : list N) : M t unit :=
  if len nickname =? 0 then throw ErrorCodes.INVALID_NICKNAME else
  let trimmed := trim nickname in
  if (len trimmed <? ValidationConstraints.NICKNAME_MIN_LENGTH)
     || (len trimmed >? ValidationConstraints.NICKNAME_MAX_LENGTH)
  then throw ErrorCodes.INVALID_NICKNAME else
  if negb (validPattern trimmed)
  then throw ErrorCodes.INVALID_NICKNAME else
  if negb (streq trimmed (trim (collapseSpaces false nickname)))
  then throw ErrorCodes.INVALID_NICKNAME else
  ret tt.

Definition isNicknameExists `{CaseMapping} (nickname : list N) : M t bool :=
  users <- get ;;
  let trimmedNickname := toLowerCase (trim nickname) in
  ret (existsb
         (fun user => streq (toLowerCase (User.nickname user)) trimmedNickname)
         (Map.values users)).

(** [now] is the value of [new Date()]. *)
Definition addUser `{CaseMapping} (now : Z) (socketId nickname : list N)
  : M t User.t :=
  validateNickname nickname ;;;
  (taken <- isNicknameExists nickname ;;
   if taken then throw ErrorCodes.NICKNAME_TAKEN else ret tt) ;;;
  (users <- get ;;
   if Map.size users >=? ValidationConstraints.MAX_USERS
   then throw ErrorCodes.ROOM_FULL else ret tt) ;;;
  let user :=
    {| User.id := socketId;
       User.nickname := trim nickname;
       User.joinedAt := now |} in
  (users <- get ;; put (Map.set socketId user users)) ;;;
  ret user.

Definition removeUser (socketId : list N) : M t (option User.t) :=
  users <- get ;;
  match Map.get socketId users with
  | Some user => put (Map.delete socketId users) ;;; ret (Some user)
  | None => ret None
  end.

Definition getUser (socketId : list N) : M t (option User.t) :=
  users <- get ;; ret (Map.get socketId users).

Definition byJoinedAt (a b : User.t) : Z := User.joinedAt a - User.joinedAt b.

Definition getAllNicknames : M t (list (list N)) :=
  users <- get ;;
  ret (List.map User.nickname (sort byJoinedAt (Map.values users))).

Definition getAllUsers : M t (list User.t) :=
  users <- get ;; ret (Map.values users).

Definition getUserCount : M t Z :=
  users <- get ;; ret (Map.size users).

Definition clearAllUsers : M t unit := put [].

(** The public methods, as calls a client of the manager can make one
    after the other; [call] drops the value returned. *)
Inductive Call : Type :=
| AddUser (now : Z) (socketId nickname : list N)
| RemoveUser (socketId : list N)
| GetUser (socketId : list N)
| GetAllNicknames
| GetAllUsers
| GetUserCount
| IsNicknameExists (nickname : list N)
| ClearAllUsers.

Definition call `{CaseMapping} (c : Call) : M t unit :=
  match c with
  | AddUser now socketId nickname => addUser now socketId nickname ;;; ret tt
  | RemoveUser socketId => removeUser socketId ;;; ret tt
  | GetUser socketId => getUser socketId ;;; ret tt
  | GetAllNicknames => getAllNicknames ;;; ret tt
  | GetAllUsers => getAllUsers ;;; ret tt
  | GetUserCount => getUserCount ;;; ret tt
  | IsNicknameExists nickname => isNicknameExists nickname ;;; ret tt
  | ClearAllUsers => clearAllUsers
  end.

(** The users after the calls [cs], made in order on [s]; a call that
    throws leaves the users as the exception found them. *)
Definition calls `{CaseMapping} (cs : list Call) (s : t) : t :=
  fold_left (fun s c => state (call c s)) cs s.

End UserManager.

(** ** The [SocketManager] class *)

Module SocketManager.
Import Js.

(** The data of the events the server sends. *)
Inductive Payload : Type :=
| JoinSuccess (nickname : list N) (users : list (list N))
              (messages : list Message.t)
| UserJoined (nickname : list N) (timestamp : Z)
| UserLeft (nickname : list N) (timestamp : Z)
| UpdateUsers (users : list (list N))
| ReceiveMessage (message : Message.t)
| Error (code : ErrorCodes.t)
| ServerShutdown.

(** [socket.emit], [socket.broadcast.emit] (everyone but the socket) and
    [io.emit] (everyone). *)
Inductive Emit : Type :=
| SocketEmit (socketId : list N) (data : Payload)
| BroadcastEmit (socketId : list N) (data : Payload)
| IoEmit (data : Payload).

(** The fields of the class; [emitted] is what went to the transport,
    oldest first. *)
Record t : Type := mk {
  userManager : UserManager.t;
  messageStore : MessageStore.t;
  rateLimitMap : gmap (list N) (list Z);
  emitted : list Emit
}.

Definition RATE_LIMIT_WINDOW_MS : Z := 1000.

(** The state the constructor leaves. *)
Definition init : t := mk [] [] ∅ [].

Definition onUsers {A} (m : M UserManager.t A) : M t A :=
  zoom userManager
       (fun u s => mk u (messageStore s) (rateLimitMap s) (emitted s)) m.

Definition onMessages {A} (m : M MessageStore.t A) : M t A :=
  zoom messageStore
       (fun ms s => mk (userManager s) ms (rateLimitMap s) (emitted s)) m.

Definition setRateLimitMap (f : gmap (list N) (list Z) -> gmap (list N) (list Z))
  : M t unit :=
  s <- get ;;
  put (mk (userManager s) (messageStore s) (f (rateLimitMap s)) (emitted s)).

Definition emit (e : Emit) : M t unit :=
  s <- get ;;
  put (mk (userManager s) (messageStore s) (rateLimitMap s) (emitted s ++ [e])).

Definition handleConnection (socket : list N) : M t unit :=
  setRateLimitMap (insert socket []).

(** [now] is the value of [Date.now()]. *)
Definition checkRateLimit (now : Z) (socketId : list N) : M t bool :=
  s <- get ;;
  let timestamps := default [] (rateLimitMap s !! socketId) in
  let recentTimestamps :=
    List.filter (fun timestamp => now - timestamp <? RATE_LIMIT_WINDOW_MS)
                timestamps in
  if len recentTimestamps >=? ValidationConstraints.RATE_LIMIT_PER_SECOND
  then ret false
  else
    setRateLimitMap (insert socketId (recentTimestamps ++ [now])) ;;;
    ret true.

Definition handleJoinRoom `{CaseMapping} (now : Z) (socket nickname : list N)
  : M t unit :=
  tryCatch
    (user <- onUsers (UserManager.addUser now socket nickname) ;;
     (users <- onUsers UserManager.getAllNicknames ;;
      messages <- onMessages (MessageStore.getRecentMessages 50) ;;
      emit (SocketEmit socket (JoinSuccess (User.nickname user) users messages))) ;;;
     emit (BroadcastEmit socket
             (UserJoined (User.nickname user) (User.joinedAt user))) ;;;
     (users <- onUsers UserManager.getAllNicknames ;;
      emit (IoEmit (UpdateUsers users))))
    (fun error => emit (SocketEmit socket (Error error))).

(** [nowRate] is read by [checkRateLimit], [uuid] and [nowMessage] by
    [addMessage]. *)
Definition handleSendMessage (nowRate : Z) (uuid : list N) (nowMessage : Z)
    (socket message : list N) : M t unit :=
  tryCatch
    (found <- onUsers (UserManager.getUser socket) ;;
     match found with
     | None => throw ErrorCodes.CONNECTION_ERROR
     | Some user =>
         (allowed <- checkRateLimit nowRate socket ;;
          if allowed then ret tt
          else throw ErrorCodes.RATE_LIMIT_EXCEEDED) ;;;
         stored <- onMessages
                     (MessageStore.addMessage uuid nowMessage
                        (User.id user) (User.nickname user) message) ;;
         emit (IoEmit (ReceiveMessage stored))
     end)
    (fun error => emit (SocketEmit socket (Error error))).

Definition handleDisconnect (now : Z) (socket : list N) : M t unit :=
  removed <- onUsers (UserManager.removeUser socket) ;;
  match removed with
  | Some user =>
      emit (BroadcastEmit socket (UserLeft (User.nickname user) now)) ;;;
      (users <- onUsers UserManager.getAllNicknames ;;
       emit (IoEmit (UpdateUsers users)))
  | None => ret tt
  end ;;;
  setRateLimitMap (base.delete socket).

(** [io.close()] belongs to socket.io: it ends the connections that are
    open, and the end of a connection runs the [disconnect] listener that
    [handleConnection] registered for it, which is [handleDisconnect].
    [closing] lists the sockets whose listener runs before [io.close()]
    returns, in the order in which they run, each with the time its
    listener reads. *)
Fixpoint ioClose (closing : list (Z * list N)) : M t unit :=
  match closing with
  | [] => ret tt
  | (now, socket) :: rest => handleDisconnect now socket ;;; ioClose rest
  end.

Definition close (closing : list (Z * list N)) : M t unit :=
  emit (IoEmit ServerShutdown) ;;;
  ioClose closing ;;;
  onUsers UserManager.clearAllUsers ;;;
  onMessages MessageStore.clearMessages ;;;
  setRateLimitMap (fun _ => ∅).

(** What the transport delivers to the server, with the clock and
    identifier values read while it is handled. *)
Inductive Event : Type :=
| Connection (socket : list N)
| JoinRoom (now : Z) (socket nickname : list N)
| SendMessage (nowRate : Z) (uuid : list N) (nowMessage : Z)
              (socket message : list N)
| Disconnect (now : Z) (socket : list N).

Definition handle `{CaseMapping} (e : Event) : M t unit :=
  match e with
  | Connection socket => handleConnection socket
  | JoinRoom now socket nickname => handleJoinRoom now socket nickname
  | SendMessage nowRate uuid nowMessage socket message =>
      handleSendMessage nowRate uuid nowMessage socket message
  | Disconnect now socket => handleDisconnect now socket
  end.

(** The read-only methods of the two stores. *)
Inductive Read : Type :=
| Lookup (socketId : list N)
| Count
| ListNicknames
| Recent (limit : Z)
| Search (term : list N) (limit : Z)
| GetStatistics.

Definition read `{CaseMapping} (r : Read) : M t unit :=
  match r with
  | Lookup socketId => onUsers (UserManager.getUser socketId) ;;; ret tt
  | Count => onUsers UserManager.getUserCount ;;; ret tt
  | ListNicknames => onUsers UserManager.getAllNicknames ;;; ret tt
  | Recent limit => onMessages (MessageStore.getRecentMessages limit) ;;; ret tt
  | Search term limit =>
      onMessages (MessageStore.searchMessages term limit) ;;; ret tt
  | GetStatistics => onMessages MessageStore.getStatistics ;;; ret tt
  end.

(** A run of the server: events and reads, one after the other, each to
    completion. *)
Inductive Step : Type :=
| Handle (e : Event)
| Query (r : Read).

Definition step `{CaseMapping} (x : Step) : M t unit :=
  match x with
  | Handle e => handle e
  | Query r => read r
  end.

Definition run `{CaseMapping} (xs : list Step) (s : t) : t :=
  fold_left (fun s x => state (step x s)) xs s.

End SocketManager.

(** ** The notions the specification words its properties with *)

Module Spec.
Import Js.

(** The last [n] elements of [l], in the order of [l]. *)
Definition lastN {A} (n : nat) (l : list A) : list A :=
  drop (length l - n) l.

(** The six characters the store escapes, and what replaces each. *)
Definition escapeChar (c : N) : list N :=
  if (c =? 38)%N then str "&amp;"
  else if (c =? 60)%N then str "&lt;"
  else if (c =? 62)%N then str "&gt;"
  else if (c =? 34)%N then str "&quot;"
  else if (c =? 39)%N then str "&#x27;"
  else if (c =? 47)%N then str "&#x2F;"
  else [c].

(** The control characters a body may not hold: 0x00-0x08, 0x0B, 0x0C,
    0x0E-0x1F and 0x7F. *)
Definition forbiddenControl (c : N) : Prop :=
  (c <= 8 \/ c = 11 \/ c = 12 \/ (14 <= c /\ c <= 31) \/ c = 127)%N.

(** A body on which validation fails: the trimmed body is empty or longer
    than 500 units, or a forbidden control character is present. *)
Definition invalidBody (body : list N) : Prop :=
  len (trim body) < 1 \/ len (trim body) > 500
  \/ exists c, In c body /\ forbiddenControl c.

(** The same, as a test. *)
Definition rejects (message : list N) : bool :=
  existsb MessageStore.isInvalidChar message
  || (len (trim message) <? 1) || (len (trim message) >? 500).

(** The message object an accepted [addMessage] creates. *)
Definition messageOf (uuid : list N) (now : Z) (userId nickname message : list N)
  : Message.t :=
  Message.mk uuid userId (trim nickname)
             (List.flat_map escapeChar (trim message)) now.

(** The messages the calls [cs] create, in the order of the calls: one for
    each [addMessage] whose body is valid. *)
Fixpoint created (cs : list MessageStore.Call) : list Message.t :=
  match cs with
  | [] => []
  | MessageStore.AddMessage uuid now userId nickname message :: cs' =>
      if rejects message then created cs'
      else messageOf uuid now userId nickname message :: created cs'
  | _ :: cs' => created cs'
  end.

(** A stored message matches a search term when its body or its nickname,
    in lower case, contains the term, trimmed and in lower case. *)
Definition matches `{CaseMapping} (searchTerm : list N) (msg : Message.t) : bool :=
  let term := trim (toLowerCase searchTerm) in
  includes (toLowerCase (Message.message msg)) term
  || includes (toLowerCase (Message.nickname msg)) term.

(** The search result as the specification words it: the matching
    messages, the most recent first, at most [limit] of them. *)
Definition searchMostRecentFirst `{CaseMapping} (searchTerm : list N)
    (limit : Z) (messages : list Message.t) : list Message.t :=
  take (Z.to_nat limit) (rev (List.filter (matches searchTerm) messages)).

(** The nicknames of the users by time of joining, users that joined at
    the same time in the order of the map. *)
Definition nicknamesOf (users : UserManager.t) : list (list N) :=
  List.map User.nickname (sort UserManager.byJoinedAt (Map.values users)).

(** The window of a connection: the send times recorded for it. *)
Definition window (socketId : list N) (s : SocketManager.t) : list Z :=
  default [] (SocketManager.rateLimitMap s !! socketId).

(** The times of a window that are less than one second before [now]. *)
Definition purge (now : Z) (w : list Z) : list Z :=
  List.filter (fun timestamp => now - timestamp <? 1000) w.

(** The server told the connection that its join succeeded. *)
Definition joinSucceeded (socketId : list N) (e : SocketManager.Emit) : bool :=
  match e with
  | SocketManager.SocketEmit s (SocketManager.JoinSuccess _ _ _) => streq s socketId
  | _ => false
  end.

(** The connection completed a join at some point of the run that led to
    the state [s]. *)
Definition hasJoined (socketId : list N) (s : SocketManager.t) : bool :=
  existsb (joinSucceeded socketId) (SocketManager.emitted s).

(** The nickname passes the validation of the user manager. *)
Definition validNickname (nickname : list N) : Prop :=
  result (UserManager.validateNickname nickname []) = inr tt.

(** The nickname, trimmed, is that of an active user, without regard to
    case. *)
Definition taken `{CaseMapping} (nickname : list N) (users : UserManager.t)
  : bool :=
  existsb
    (fun user => streq (toLowerCase (User.nickname user))
                       (toLowerCase (trim nickname)))
    (Map.values users).

(** The user object an accepted [addUser] creates. *)
Definition userOf (now : Z) (socketId nickname : list N) : User.t :=
  User.mk socketId (trim nickname) now.

(** The join requests of a run, in the order of the run, with the time
    each was handled at. *)
Record JoinRequest : Type := mkJoin {
  joinTime : Z;
  joinSocket : list N;
  joinNickname : list N
}.

Fixpoint joinsOf (xs : list SocketManager.Step) : list JoinRequest :=
  match xs with
  | [] => []
  | SocketManager.Handle (SocketManager.JoinRoom now socket nickname) :: xs' =>
      mkJoin now socket nickname :: joinsOf xs'
  | _ :: xs' => joinsOf xs'
  end.

(** The clock does not go back. *)
Fixpoint nonDecreasing (ts : list Z) : Prop :=
  match ts with
  | a :: (b :: _) as r => a <= b /\ nonDecreasing r
  | _ => True
  end.

(** The nickname of a user without regard to case. *)
Definition lowerNickname `{CaseMapping} (u : User.t) : list N :=
  toLowerCase (User.nickname u).

(** Nicknames are unique without regard to case. *)
Definition uniqueNicknames `{CaseMapping} (users : UserManager.t) : Prop :=
  NoDup (List.map lowerNickname (Map.values users)).

(** What holds of the users in every state the manager can reach: unique
    nicknames, at most fifty users, one entry for a socket. *)
Definition invariant `{CaseMapping} (users : UserManager.t) : Prop :=
  uniqueNicknames users /\ Map.size users <= 50
  /\ NoDup (List.map fst users).

(** The connection asked to join before. *)
Definition askedBefore (socketId : list N) (earlier : list JoinRequest) : bool :=
  existsb (fun e => streq (joinSocket e) socketId) earlier.

(** The clock at the join requests [joins], which follow the requests
    [earlier]: it is never behind an earlier request, and it is ahead of
    all of them when the connection had asked before. *)
Fixpoint clockMovesOn (earlier joins : list JoinRequest) : Prop :=
  match joins with
  | [] => True
  | j :: later =>
      Forall (fun e => if askedBefore (joinSocket j) earlier
                       then joinTime e < joinTime j
                       else joinTime e <= joinTime j)
             earlier
      /\ clockMovesOn (earlier ++ [j]) later
  end.

(** The nickname passes the validation of the user manager, as a test. *)
Definition passes (nickname : list N) : bool :=
  match result (UserManager.validateNickname nickname []) with
  | inr _ => true
  | inl _ => false
  end.

(** The participants without the one of the connection. *)
Definition leave (socketId : list N) (active : list User.t) : list User.t :=
  List.filter (fun u => negb (streq (User.id u) socketId)) active.

(** A join is accepted when the nickname is valid, no active participant
    has it without regard to case, and fewer than fifty are active. *)
Definition accepted `{CaseMapping} (nickname : list N) (active : list User.t)
  : bool :=
  passes nickname
  && negb (existsb
             (fun u => streq (lowerNickname u) (toLowerCase (trim nickname)))
             active)
  && (len active <? 50).

(** The active participants in join order, one step of a run further: an
    accepted join puts the participant last, in place of the one the
    connection had, if it had one; a disconnect takes the participant of
    the connection out; nothing else changes them. *)
Definition joinStep `{CaseMapping} (active : list User.t)
    (x : SocketManager.Step) : list User.t :=
  match x with
  | SocketManager.Handle (SocketManager.JoinRoom now socket nickname) =>
      if accepted nickname active
      then leave socket active ++ [userOf now socket nickname]
      else active
  | SocketManager.Handle (SocketManager.Disconnect _ socket) =>
      leave socket active
  | _ => active
  end.

(** The active participants after the run [xs] of a new server, in join
    order. *)
Definition joinOrder `{CaseMapping} (xs : list SocketManager.Step)
  : list User.t :=
  fold_left joinStep xs [].

End Spec.

(** ** The checks of the client, [public/js/chat.js] *)

Module ChatApp.
Import Js.

(** What a check shows to the user; the texts are left out. *)
Inductive Notice : Set :=
| LoginErrorMissing
| LoginErrorTooLong
| LoginErrorTooShort
| LoginErrorCharacters
| LoginErrorHidden
| DialogMessageTooLong
| NoNotice.

(** [validateNickname]: the value returned and the notice shown.  The
    pattern is, unit for unit, that of the user manager. *)
Definition validateNickname (nickname : list N) : bool * Notice :=
  if len nickname =? 0 then (false, LoginErrorMissing) else
  if len nickname >? 20 then (false, LoginErrorTooLong) else
  if len nickname <? 1 then (false, LoginErrorTooShort) else
  if negb (UserManager.validPattern nickname) then (false, LoginErrorCharacters)
  else (true, LoginErrorHidden).

(** [validateMessage]: the value returned and the notice shown. *)
Definition validateMessage (message : list N) : bool * Notice :=
  if len message =? 0 then (false, NoNotice) else
  if len message >? 500 then (false, DialogMessageTooLong) else
  (true, NoNotice).

End ChatApp.

(** ** Further notions, for the properties of the code beyond the
    specification *)

Module Notions.
Import Js Spec.

(** The characters that open or close markup in HTML text or attributes. *)
Definition markup (c : N) : bool :=
  ((c =? 60) || (c =? 62) || (c =? 34) || (c =? 39) || (c =? 47))%N.

(** What holds of every message of the log: the body has between 1 and
    3000 code units, no markup character and no forbidden control
    character. *)
Definition storedBody (body : list N) : Prop :=
  1 <= len body <= 3000
  /\ forallb (fun c => negb (markup c)) body = true
  /\ forallb (fun c => negb (MessageStore.isInvalidChar c)) body = true.

(** The string does not begin with white space. *)
Definition headOk (s : list N) : bool :=
  match s with
  | [] => true
  | c :: _ => negb (isWhiteSpace c)
  end.

(** The only white space of the string is the space character, and no two
    of them are next to each other. *)
Fixpoint singleSpaces (s : list N) : bool :=
  match s with
  | [] => true
  | c :: r =>
      (if isWhiteSpace c then (c =? 32)%N && headOk r else true)
      && singleSpaces r
  end.

(** A string of white space only. *)
Definition blank (s : list N) : Prop := forallb isWhiteSpace s = true.

(** The form of a nickname the user manager keeps: 1 to 20 code units of
    the allowed class, no white space at either end, and inside only
    single spaces. *)
Definition normalNickname (s : list N) : Prop :=
  1 <= len s <= 20
  /\ forallb UserManager.isNicknameChar s = true
  /\ singleSpaces s = true
  /\ headOk s = true /\ headOk (rev s) = true.

(** An entry of the users: the user carries the socket id it is filed
    under, and its nickname is in normal form. *)
Definition wellFormedEntry (e : list N * User.t) : Prop :=
  User.id (snd e) = fst e /\ normalNickname (User.nickname (snd e)).

(** The calls a run of the server makes on its user manager: one
    [addUser] for a join request, one [removeUser] for a disconnect. *)
Fixpoint userCalls (xs : list SocketManager.Step) : list UserManager.Call :=
  match xs with
  | [] => []
  | SocketManager.Handle (SocketManager.JoinRoom now socket nickname) :: xs' =>
      UserManager.AddUser now socket nickname :: userCalls xs'
  | SocketManager.Handle (SocketManager.Disconnect _ socket) :: xs' =>
      UserManager.RemoveUser socket :: userCalls xs'
  | _ :: xs' => userCalls xs'
  end.

(** An error sent to more than the one socket. *)
Definition errorToMany (e : SocketManager.Emit) : bool :=
  match e with
  | SocketManager.BroadcastEmit _ (SocketManager.Error _) => true
  | SocketManager.IoEmit (SocketManager.Error _) => true
  | _ => false
  end.

(** The socket an event comes from. *)
Definition socketOf (e : SocketManager.Event) : list N :=
  match e with
  | SocketManager.Connection socket => socket
  | SocketManager.JoinRoom _ socket _ => socket
  | SocketManager.SendMessage _ _ _ socket _ => socket
  | SocketManager.Disconnect _ socket => socket
  end.

(** An event the server sends is an error for the socket [socket], or no
    error at all. *)
Definition errorOnlyTo (socket : list N) (e : SocketManager.Emit) : bool :=
  match e with
  | SocketManager.SocketEmit s (SocketManager.Error _) => streq s socket
  | SocketManager.BroadcastEmit _ (SocketManager.Error _) => false
  | SocketManager.IoEmit (SocketManager.Error _) => false
  | _ => true
  end.

(** How many messages of the log were sent under the nickname. *)
Definition sentAs (nickname : list N) (messages : MessageStore.t) : nat :=
  length (List.filter (fun m => streq (Message.nickname m) nickname) messages).

(** [k] times the digit [1]. *)
Definition ones (k : nat) : list N := repeat 49%N k.

(** An event that tells the others that a user left: the socket, the
    nickname and the time it carries. *)
Definition departure (e : SocketManager.Emit) : option (list N * list N * Z) :=
  match e with
  | SocketManager.BroadcastEmit socket (SocketManager.UserLeft nickname now) =>
      Some (socket, nickname, now)
  | _ => None
  end.

(** The events a disconnect sends: [user-left] to the others and
    [update-users] to all. *)
Definition sentOnLeave (e : SocketManager.Emit) : bool :=
  match e with
  | SocketManager.BroadcastEmit _ (SocketManager.UserLeft _ _) => true
  | SocketManager.IoEmit (SocketManager.UpdateUsers _) => true
  | _ => false
  end.

(** What the end of a connection has to tell, given the users: nothing
    for a socket without a user. *)
Definition leaving (users : UserManager.t) (c : Z * list N)
  : option (list N * list N * Z) :=
  match Map.get (snd c) users with
  | Some user => Some (snd c, User.nickname user, fst c)
  | None => None
  end.

(** The times at which [checkRateLimit] lets a socket send, when it is
    asked at the times [times], one after the other. *)
Fixpoint acquire (socketId : list N) (times : list Z) (s : SocketManager.t)
  : list Z :=
  match times with
  | [] => []
  | now :: rest =>
      let r := SocketManager.checkRateLimit now socketId s in
      match result r with
      | inr true => now :: acquire socketId rest (state r)
      | _ => acquire socketId rest (state r)
      end
  end.

(** Every time of the list is at least a second before the third time
    after it: no four of them lie within less than a second. *)
Fixpoint spaced (times : list Z) : Prop :=
  match times with
  | [] => True
  | a :: r =>
      match r with
      | _ :: _ :: b :: _ => 1000 <= b - a
      | _ => True
      end
      /\ spaced r
  end.

End Notions.

(* ===================================================================== *)
(** * Part 2: properties                                                  *)
(* ===================================================================== *)

Import Js Spec.

(** ** Strings and arrays *)

Lemma streq_eq (a b : list N) : streq a b = true <-> a = b.
Proof.
  revert b; induction a as [|x a IH]; intros [|y b]; simpl; try easy.
  rewrite andb_true_iff, N.eqb_eq, IH. split.
  - intros [-> ->]; reflexivity.
  - intros E; injection E; auto.
Qed.

Lemma streq_refl (a : list N) : streq a a = true.
Proof. apply streq_eq; reflexivity. Qed.

Lemma streq_neq (a b : list N) : streq a b = false <-> a <> b.
Proof.
  rewrite <- streq_eq. destruct (streq a b); split; congruence.
Qed.

Lemma trimStart_blank (s : list N) :
  trimStart s = [] <-> forallb isWhiteSpace s = true.
Proof.
  induction s as [|c s IH]; simpl; [tauto|].
  destruct (isWhiteSpace c); simpl; [exact IH|]. split; discriminate.
Qed.

Lemma trimStart_head (s : list N) (c : N) (r : list N) :
  trimStart s = c :: r -> isWhiteSpace c = false.
Proof.
  induction s as [|x s IH]; simpl; [discriminate|].
  destruct (isWhiteSpace x) eqn:E; [exact IH|].
  intros [= <- _]; exact E.
Qed.

Lemma trimStart_forallb (s : list N) :
  forallb isWhiteSpace (trimStart s) = true -> trimStart s = [].
Proof.
  destruct (trimStart s) as [|c r] eqn:E; [reflexivity|].
  apply trimStart_head in E. simpl. rewrite E. discriminate.
Qed.

Lemma forallb_rev {A} (p : A -> bool) (l : list A) :
  forallb p (rev l) = forallb p l.
Proof.
  induction l as [|x l IH]; simpl; [reflexivity|].
  rewrite forallb_app, IH. simpl. rewrite andb_true_r. apply andb_comm.
Qed.

(** A string trims to the empty string exactly when it is blank. *)
Lemma trim_blank (s : list N) :
  trim s = [] <-> forallb isWhiteSpace s = true.
Proof.
  unfold trim, trimEnd. split.
  - intros E. apply (f_equal (@rev N)) in E. rewrite rev_involutive in E.
    simpl in E. apply trimStart_blank in E. rewrite forallb_rev in E.
    apply trimStart_forallb in E. apply trimStart_blank; exact E.
  - intros E. apply trimStart_blank in E. rewrite E. reflexivity.
Qed.

Ltac decide_units :=
  repeat match goal with
    | |- context [(?a =? ?b)%N] =>
        first [ rewrite (proj2 (N.eqb_eq a b)) by lia
              | rewrite (proj2 (N.eqb_neq a b)) by lia ]
    | |- context [(?a <=? ?b)%N] =>
        first [ rewrite (proj2 (N.leb_le a b)) by lia
              | rewrite (proj2 (N.leb_gt a b)) by lia ]
    end.

Lemma isWhiteSpace_asciiLower (c : N) :
  isWhiteSpace (asciiLower c) = isWhiteSpace c.
Proof.
  unfold asciiLower.
  destruct ((65 <=? c) && (c <=? 90))%N eqn:E; [|reflexivity].
  apply andb_true_iff in E as [H1 H2]. apply N.leb_le in H1, H2.
  unfold isWhiteSpace. decide_units. reflexivity.
Qed.

Lemma asciiLower_blank (s : list N) :
  trim (List.map asciiLower s) = [] <-> trim s = [].
Proof.
  rewrite !trim_blank. induction s as [|c s IH]; simpl; [tauto|].
  rewrite isWhiteSpace_asciiLower, !andb_true_iff, IH. tauto.
Qed.

(** The ASCII case mapping: what [toLowerCase] does on ASCII strings. *)
#[export] Instance asciiCase : CaseMapping :=
  {| toLowerCase := List.map asciiLower; toLowerCase_blank := asciiLower_blank |}.

Lemma len_nonneg {A} (l : list A) : 0 <= len l.
Proof. unfold len; lia. Qed.

Lemma len_app {A} (l k : list A) : len (l ++ k) = len l + len k.
Proof. unfold len. rewrite length_app. lia. Qed.

Lemma len_zero {A} (l : list A) : len l = 0 <-> l = [].
Proof. unfold len. destruct l; simpl; split; (lia || congruence || easy). Qed.

Lemma lastN_length {A} (n : nat) (l : list A) :
  length (lastN n l) = Nat.min n (length l).
Proof. unfold lastN. rewrite length_drop. lia. Qed.

Lemma lastN_all {A} (n : nat) (l : list A) :
  (length l <= n)%nat -> lastN n l = l.
Proof. intros H. unfold lastN. replace (length l - n)%nat with 0%nat by lia. reflexivity. Qed.

(** Keeping the last [n] of an array that already is the last [n] of a
    longer one, after a push. *)
Lemma lastN_push {A} (n : nat) (l : list A) (x : A) :
  lastN n (lastN n l ++ [x]) = lastN n (l ++ [x]).
Proof.
  unfold lastN. rewrite !length_app, length_drop. simpl.
  rewrite <- (drop_app_le l [x]) by lia.
  rewrite drop_drop. f_equal. lia.
Qed.

(** [a.slice(-k)] for a positive [k] is the last [k] elements. *)
Lemma slice_last {A} (k : Z) (a : list A) :
  0 < k -> slice (- k) a = lastN (Z.to_nat k) a.
Proof.
  intros Hk. unfold slice, lastN, len.
  destruct (Z.ltb_spec (- k) 0); [|lia]. f_equal. lia.
Qed.

(** [a.slice(-0)] is [a.slice(0)]: the whole array. *)
Lemma slice_zero {A} (a : list A) : slice (- 0) a = a.
Proof. unfold slice. simpl. rewrite Z.min_l by apply len_nonneg. reflexivity. Qed.

Lemma splice0_last {A} (a : list A) (n : Z) :
  0 <= n -> len a > n -> splice0 (len a - n) a = lastN (Z.to_nat n) a.
Proof.
  intros Hn Hlen. unfold splice0, lastN, len in *. f_equal. lia.
Qed.

(** ** The message store *)

Section MessageStoreFacts.
Import MessageStore.

Lemma replaceAll_app (c : N) (r a b : list N) :
  replaceAll c r (a ++ b) = replaceAll c r a ++ replaceAll c r b.
Proof.
  induction a as [|x a IH]; simpl; [reflexivity|].
  rewrite IH. apply app_assoc.
Qed.

Lemma sanitizeMessage_app (a b : list N) :
  sanitizeMessage (a ++ b) = sanitizeMessage a ++ sanitizeMessage b.
Proof. unfold sanitizeMessage. rewrite !replaceAll_app. reflexivity. Qed.

Lemma sanitizeMessage_unit (c : N) : sanitizeMessage [c] = escapeChar c.
Proof.
  unfold escapeChar, sanitizeMessage.
  destruct (N.eqb_spec c 38) as [->|H38]; [reflexivity|].
  destruct (N.eqb_spec c 60) as [->|H60]; [reflexivity|].
  destruct (N.eqb_spec c 62) as [->|H62]; [reflexivity|].
  destruct (N.eqb_spec c 34) as [->|H34]; [reflexivity|].
  destruct (N.eqb_spec c 39) as [->|H39]; [reflexivity|].
  destruct (N.eqb_spec c 47) as [->|H47]; [reflexivity|].
  simpl. rewrite (proj2 (N.eqb_neq c 38) H38). simpl.
  rewrite (proj2 (N.eqb_neq c 60) H60). simpl.
  rewrite (proj2 (N.eqb_neq c 62) H62). simpl.
  rewrite (proj2 (N.eqb_neq c 34) H34). simpl.
  rewrite (proj2 (N.eqb_neq c 39) H39). simpl.
  rewrite (proj2 (N.eqb_neq c 47) H47). reflexivity.
Qed.

(** The six replacements in a row are one pass over the code units. *)
Lemma sanitizeMessage_flat_map (s : list N) :
  sanitizeMessage s = List.flat_map escapeChar s.
Proof.
  induction s as [|c s IH]; [reflexivity|].
  change (c :: s) with ([c] ++ s).
  rewrite sanitizeMessage_app, sanitizeMessage_unit, IH. reflexivity.
Qed.

Lemma isInvalidChar_forbidden (c : N) :
  isInvalidChar c = true <-> forbiddenControl c.
Proof.
  unfold isInvalidChar, forbiddenControl.
  rewrite !orb_true_iff, andb_true_iff, !N.leb_le, !N.eqb_eq. lia.
Qed.

Lemma validateMessage_rejects (message : list N) (st : t) :
  validateMessage message st =
  if rejects message then (inl ErrorCodes.INVALID_MESSAGE, st) else (inr tt, st).
Proof.
  unfold validateMessage, rejects, throw, ret.
  unfold ValidationConstraints.MESSAGE_MIN_LENGTH,
    ValidationConstraints.MESSAGE_MAX_LENGTH.
  destruct (Z.eqb_spec (len message) 0) as [E|E].
  - apply len_zero in E; subst. reflexivity.
  - destruct (len (trim message) <? 1), (len (trim message) >? 500),
      (existsb isInvalidChar message); reflexivity.
Qed.

Lemma rejects_invalidBody (message : list N) :
  rejects message = true <-> invalidBody message.
Proof.
  unfold rejects, invalidBody.
  rewrite !orb_true_iff, existsb_exists, Z.ltb_lt, Z.gtb_gt.
  setoid_rewrite isInvalidChar_forbidden. tauto.
Qed.

Lemma addMessage_rejected uuid now userId nickname message (st : t) :
  rejects message = true ->
  addMessage uuid now userId nickname message st
  = (inl ErrorCodes.INVALID_MESSAGE, st).
Proof.
  intros H. unfold addMessage, bind.
  rewrite validateMessage_rejects, H. reflexivity.
Qed.

Lemma addMessage_accepted uuid now userId nickname message (st : t) :
  rejects message = false ->
  addMessage uuid now userId nickname message st
  = (inr (messageOf uuid now userId nickname message),
     lastN 100 (st ++ [messageOf uuid now userId nickname message])).
Proof.
  intros H. unfold addMessage, bind.
  rewrite validateMessage_rejects, H. unfold get, put, ret.
  rewrite sanitizeMessage_flat_map. fold (messageOf uuid now userId nickname message).
  set (m := messageOf uuid now userId nickname message).
  unfold MAX_MESSAGES, ValidationConstraints.MAX_MESSAGES.
  destruct (Z.gtb_spec (len (st ++ [m])) 100) as [Hgt|Hle].
  - rewrite splice0_last by lia. reflexivity.
  - rewrite lastN_all; [reflexivity|]. unfold len in Hle. lia.
Qed.

End MessageStoreFacts.

Section MessageStoreClaims.
Import MessageStore.

Lemma getRecentMessages_eq (limit : Z) (st : t) :
  getRecentMessages limit st
  = (inr (lastN (Z.to_nat (Z.min (Z.max 1 limit) (len st))) st), st).
Proof.
  unfold getRecentMessages, bind, get, ret. do 2 f_equal.
  destruct st as [|m st].
  { replace (Z.min (Z.max 1 limit) (len (@nil Message.t))) with 0
      by (unfold len; simpl; lia). reflexivity. }
  apply slice_last. unfold len; simpl length. lia.
Qed.

Lemma lastN_snoc {A} (n : nat) (l : list A) (x : A) :
  lastN (S n) (l ++ [x]) = lastN n l ++ [x].
Proof.
  unfold lastN. rewrite length_app. simpl.
  replace (length l + 1 - S n)%nat with (length l - n)%nat by lia.
  apply drop_app_le. lia.
Qed.

Lemma lastN_one_lastN {A} (n : nat) (l : list A) (x : A) :
  lastN 1 (lastN (S n) (l ++ [x])) = [x].
Proof.
  rewrite lastN_snoc. rewrite (lastN_snoc 0).
  unfold lastN at 1. rewrite Nat.sub_0_r, drop_all. reflexivity.
Qed.

(** C9: for every (integer) limit, [getRecentMessages] returns the last
    [min(max(1, limit), size)] stored messages in the order of the log,
    oldest first, and leaves the log as it is; on an empty log the result
    is empty. *)
Theorem getRecentMessages_last_min (limit : Z) (st : t) :
  result (getRecentMessages limit st)
  = inr (lastN (Z.to_nat (Z.min (Z.max 1 limit) (len st))) st)
  /\ state (getRecentMessages limit st) = st
  /\ result (getRecentMessages limit []) = inr [].
Proof.
  rewrite !getRecentMessages_eq. repeat split.
Qed.

(** C10: when validation fails (the trimmed body is empty or longer than
    500, or a forbidden control character is present) [addMessage] throws
    [INVALID_MESSAGE] and the log is the one before the call: nothing is
    appended, nothing evicted, the count is the same. *)
Theorem addMessage_invalid_unchanged uuid now userId nickname body (st : t) :
  invalidBody body ->
  result (validateMessage body st) = inl ErrorCodes.INVALID_MESSAGE
  /\ result (addMessage uuid now userId nickname body st)
     = inl ErrorCodes.INVALID_MESSAGE
  /\ state (addMessage uuid now userId nickname body st) = st
  /\ result (getMessageCount (state (addMessage uuid now userId nickname body st)))
     = result (getMessageCount st).
Proof.
  intros H%rejects_invalidBody.
  rewrite validateMessage_rejects, addMessage_rejected, H by exact H.
  repeat split.
Qed.

Lemma addMessage_invalid_unchanged_witness :
  invalidBody (str "hi" ++ [7%N])
  /\ state (addMessage (str "id-1") 1000 (str "s1") (str "bob")
              (str "hi" ++ [7%N]) [])
     = [].
Proof.
  assert (H : invalidBody (str "hi" ++ [7%N])).
  { right; right. exists 7%N. split; [simpl; tauto | unfold forbiddenControl; lia]. }
  split; [exact H|].
  exact (proj1 (proj2 (proj2
    (addMessage_invalid_unchanged (str "id-1") 1000 (str "s1") (str "bob")
       (str "hi" ++ [7%N]) [] H)))).
Defined.

(** C1 (as the code has it): for every valid body, [addMessage] stores the
    trimmed body with six characters escaped, the ampersand, the angle
    brackets, the two quotes and the slash, every other code unit kept as
    it is; [getRecentMessages(1)] right after returns exactly the message
    created; the body [<b>hi</b>] is stored as
    [&lt;b&gt;hi&lt;&#x2F;b&gt;]. *)
Theorem addMessage_escapes_six uuid now userId nickname body (st : t) :
  ~ invalidBody body ->
  (exists m,
      result (addMessage uuid now userId nickname body st) = inr m
      /\ Message.message m = List.flat_map escapeChar (trim body)
      /\ result (getRecentMessages 1
                   (state (addMessage uuid now userId nickname body st)))
         = inr [m])
  /\ List.map escapeChar [38; 60; 62; 34; 39; 47]%N
     = [str "&amp;"; str "&lt;"; str "&gt;"; str "&quot;"; str "&#x27;";
        str "&#x2F;"]
  /\ (forall c, ~ In c [38; 60; 62; 34; 39; 47]%N -> escapeChar c = [c])
  /\ List.flat_map escapeChar (trim (str "<b>hi</b>"))
     = str "&lt;b&gt;hi&lt;&#x2F;b&gt;".
Proof.
  intros Hv. assert (Hr : rejects body = false).
  { destruct (rejects body) eqn:E; [|reflexivity].
    apply rejects_invalidBody in E. contradiction. }
  split; [|split; [reflexivity|split; [|reflexivity]]].
  - exists (messageOf uuid now userId nickname body).
    rewrite (addMessage_accepted _ _ _ _ _ _ Hr). split; [reflexivity|].
    split; [reflexivity|].
    rewrite getRecentMessages_eq. unfold state, result; simpl fst; simpl snd.
    f_equal.
    assert (Hlen : 1 <= len (lastN 100 (st ++ [messageOf uuid now userId nickname body]))).
    { unfold len. rewrite lastN_length, length_app. cbn [length]. lia. }
    rewrite Z.max_id, Z.min_l by exact Hlen.
    apply (lastN_one_lastN 99).
  - intros c Hc. unfold escapeChar. simpl in Hc.
    repeat match goal with
      | |- context [(c =? ?k)%N] =>
          destruct (N.eqb_spec c k); [exfalso; apply Hc; subst; tauto|]
      end.
    reflexivity.
Qed.

Lemma addMessage_escapes_six_witness :
  ~ invalidBody (str "<b>hi</b>")
  /\ exists m,
      result (addMessage (str "id-1") 1000 (str "s1") (str "bob")
                (str "<b>hi</b>") []) = inr m
      /\ Message.message m = List.flat_map escapeChar (trim (str "<b>hi</b>"))
      /\ result (getRecentMessages 1
                   (state (addMessage (str "id-1") 1000 (str "s1") (str "bob")
                             (str "<b>hi</b>") [])))
         = inr [m].
Proof.
  assert (H : ~ invalidBody (str "<b>hi</b>")).
  { intros E%rejects_invalidBody. vm_compute in E. discriminate E. }
  split; [exact H|].
  exact (proj1 (addMessage_escapes_six (str "id-1") 1000 (str "s1") (str "bob")
                  (str "<b>hi</b>") [] H)).
Defined.

(** C1 as the specification words it fails on the slash: after
    [addMessage] of [<b>hi</b>], [getRecentMessages(1)] does not return a
    message whose body is [&lt;b&gt;hi&lt;/b&gt;]. *)
Lemma addMessage_slash_not_kept :
  ~ exists m,
      result (getRecentMessages 1
                (state (addMessage (str "id-1") 1000 (str "s1") (str "bob")
                          (str "<b>hi</b>") [])))
      = inr [m]
      /\ Message.message m = str "&lt;b&gt;hi&lt;/b&gt;".
Proof.
  intros [m [Hm Hb]]. vm_compute in Hm. injection Hm as <-.
  vm_compute in Hb. discriminate Hb.
Qed.

End MessageStoreClaims.

Section MessageLogClaims.
Import MessageStore.
Context `{CaseMapping}.

Lemma searchMessages_blank (term : list N) (limit : Z) (st : t) :
  trim term = [] -> searchMessages term limit st = (inr [], st).
Proof.
  intros Hb. unfold searchMessages.
  destruct (len term =? 0); [reflexivity|].
  rewrite (proj2 (toLowerCase_blank term) Hb). reflexivity.
Qed.

Lemma searchMessages_filter (term : list N) (limit : Z) (st : t) :
  trim term <> [] ->
  searchMessages term limit st
  = (inr (slice (- limit) (List.filter (matches term) st)), st).
Proof.
  intros Hb. unfold searchMessages.
  destruct (Z.eqb_spec (len term) 0) as [E|_].
  { apply len_zero in E. subst. contradiction Hb. reflexivity. }
  destruct (Z.eqb_spec (len (trim (toLowerCase term))) 0) as [E|_].
  { apply len_zero in E. apply (proj1 (toLowerCase_blank term)) in E.
    contradiction. }
  reflexivity.
Qed.

(** No read-only method changes the log, and none throws. *)
Lemma call_read (c : Call) (st : t) :
  isRead c = true -> call c st = (inr tt, st).
Proof.
  destruct c; simpl; try discriminate; intros _; unfold bind.
  - rewrite getRecentMessages_eq. reflexivity.
  - reflexivity.
  - reflexivity.
  - destruct (decide (trim searchTerm = [])) as [E|E].
    + rewrite (searchMessages_blank _ _ _ E). reflexivity.
    + rewrite (searchMessages_filter _ _ _ E). reflexivity.
  - reflexivity.
  - unfold getStatistics, bind, get, ret.
    destruct (len st =? 0); [reflexivity|].
    destruct (fold_left count st (∅, 0)). reflexivity.
Qed.

(** The log is the last hundred of the messages created so far. *)
Lemma calls_lastN (cs : list Call) (l : list Message.t) :
  calls cs (lastN 100 l) = lastN 100 (l ++ created cs).
Proof.
  revert l; induction cs as [|c cs IH]; intros l.
  - simpl. rewrite app_nil_r. reflexivity.
  - unfold calls in *. simpl fold_left.
    destruct c as [uuid now userId nickname message| | | | | |];
      try (rewrite call_read by reflexivity; apply IH).
    simpl call. unfold bind. simpl created.
    destruct (rejects message) eqn:E.
    + rewrite addMessage_rejected by exact E. apply IH.
    + rewrite addMessage_accepted by exact E. unfold state, ret; simpl snd.
      rewrite lastN_push, IH, <- app_assoc. reflexivity.
Qed.

(** C4: after any sequence of calls on a new store the log is the last 100
    of the messages created, in the order of their creation, so it holds
    at most 100 and the oldest go first; a read leaves the log as it is;
    once 105 valid messages were appended, [getRecentMessages(100)]
    returns the 6th to the 105th, oldest first. *)
Theorem calls_keep_last_100 (cs : list Call) :
  calls cs [] = lastN 100 (created cs)
  /\ (length (calls cs []) <= 100)%nat
  /\ (forall c st, isRead c = true -> state (call c st) = st)
  /\ (length (created cs) = 105%nat ->
      result (getRecentMessages 100 (calls cs [])) = inr (drop 5 (created cs))).
Proof.
  assert (E : calls cs [] = lastN 100 (created cs)).
  { exact (calls_lastN cs []). }
  repeat split.
  - exact E.
  - rewrite E, lastN_length. lia.
  - intros c st Hc. rewrite call_read by exact Hc. reflexivity.
  - intros H105. rewrite getRecentMessages_eq, E. unfold result; simpl fst.
    f_equal. unfold len. rewrite lastN_length, H105.
    replace (Z.to_nat _) with 100%nat by lia.
    rewrite lastN_all by (rewrite lastN_length; lia).
    unfold lastN. rewrite H105. reflexivity.
Qed.

(** C2 (as the code has it): for a term that is not blank and a limit of
    at least 1, [searchMessages] returns the last [limit] of the stored
    messages whose body or nickname, in lower case, contains the trimmed
    term in lower case, in the order of the log (oldest first); a blank
    term gives the empty result.  The log is not changed. *)
Theorem searchMessages_last_matches (term : list N) (limit : Z) (st : t) :
  (trim term = [] -> searchMessages term limit st = (inr [], st))
  /\ (trim term <> [] -> 1 <= limit ->
      searchMessages term limit st
      = (inr (lastN (Z.to_nat limit) (List.filter (matches term) st)), st)).
Proof.
  split.
  - apply searchMessages_blank.
  - intros Hb Hl. rewrite searchMessages_filter by exact Hb.
    rewrite slice_last by lia. reflexivity.
Qed.

End MessageLogClaims.

Lemma calls_keep_last_100_witness :
  let cs := List.map
              (fun i => MessageStore.AddMessage (str "id") (Z.of_nat i)
                          (str "s1") (str "bob") (str "hello"))
              (seq 1 105) in
  length (created cs) = 105%nat
  /\ result (MessageStore.getRecentMessages 100 (MessageStore.calls cs []))
     = inr (drop 5 (created cs)).
Proof.
  intros cs.
  assert (H : length (created cs) = 105%nat) by (vm_compute; reflexivity).
  split; [exact H|].
  exact (proj2 (proj2 (proj2 (calls_keep_last_100 cs))) H).
Defined.

Lemma searchMessages_last_matches_witness :
  let st := MessageStore.calls
              [MessageStore.AddMessage (str "id-1") 1 (str "s1") (str "bob") (str "apple");
               MessageStore.AddMessage (str "id-2") 2 (str "s2") (str "Al") (str "pear");
               MessageStore.AddMessage (str "id-3") 3 (str "s3") (str "eve") (str "fig")]
              [] in
  trim (str " A ") <> [] /\ 1 <= 1
  /\ MessageStore.searchMessages (str " A ") 1 st
     = (inr (lastN (Z.to_nat 1) (List.filter (matches (str " A ")) st)), st).
Proof.
  intros st.
  assert (Hb : trim (str " A ") <> []) by (vm_compute; discriminate).
  assert (Hl : 1 <= 1) by lia.
  split; [exact Hb|]. split; [exact Hl|].
  exact (proj2 (searchMessages_last_matches (str " A ") 1 st) Hb Hl).
Defined.

(** C2 as the specification words it fails on the order: with two stored
    messages that match, the older one comes first in the result. *)
Lemma searchMessages_not_most_recent_first :
  let st := MessageStore.calls
              [MessageStore.AddMessage (str "id-1") 1 (str "s1") (str "bob") (str "a1");
               MessageStore.AddMessage (str "id-2") 2 (str "s1") (str "bob") (str "a2")]
              [] in
  result (MessageStore.searchMessages (str "a") 10 st)
  <> inr (searchMostRecentFirst (str "a") 10 st).
Proof.
  vm_compute. discriminate.
Qed.

(** ** The rate limiter *)

Section RateLimit.
Import SocketManager.

Lemma checkRateLimit_full (now : Z) (sid : list N) (s : t) :
  3 <= len (purge now (window sid s)) ->
  checkRateLimit now sid s = (inr false, s).
Proof.
  intros Hfull. unfold checkRateLimit, bind, get.
  fold (window sid s).
  change (List.filter _ (window sid s)) with (purge now (window sid s)).
  unfold ValidationConstraints.RATE_LIMIT_PER_SECOND.
  destruct (Z.geb_spec (len (purge now (window sid s))) 3); [reflexivity|lia].
Qed.

Lemma checkRateLimit_free (now : Z) (sid : list N) (s : t) :
  len (purge now (window sid s)) < 3 ->
  checkRateLimit now sid s
  = (inr true,
     mk (userManager s) (messageStore s)
        (<[sid := purge now (window sid s) ++ [now]]> (rateLimitMap s))
        (emitted s)).
Proof.
  intros Hfree. unfold checkRateLimit, bind, get.
  fold (window sid s).
  change (List.filter _ (window sid s)) with (purge now (window sid s)).
  unfold ValidationConstraints.RATE_LIMIT_PER_SECOND.
  destruct (Z.geb_spec (len (purge now (window sid s))) 3); [lia|reflexivity].
Qed.

Lemma window_recorded (now : Z) (sid : list N) (s : t) :
  len (purge now (window sid s)) < 3 ->
  window sid (state (checkRateLimit now sid s))
  = purge now (window sid s) ++ [now].
Proof.
  intros Hfree. rewrite checkRateLimit_free by exact Hfree.
  unfold window at 1, state. simpl. rewrite lookup_insert_eq. reflexivity.
Qed.

Lemma purge_keep (now t : Z) (w : list Z) :
  now - t < 1000 -> purge now (t :: w) = t :: purge now w.
Proof.
  intros Hk. unfold purge. simpl.
  destruct (Z.ltb_spec (now - t) 1000); [reflexivity|lia].
Qed.

Lemma purge_drop (now t : Z) (w : list Z) :
  1000 <= now - t -> purge now (t :: w) = purge now w.
Proof.
  intros Hk. unfold purge. simpl.
  destruct (Z.ltb_spec (now - t) 1000); [lia|reflexivity].
Qed.

Lemma purge_length (now : Z) (w : list Z) :
  (length (purge now w) <= length w)%nat.
Proof. apply filter_length_le. Qed.

(** C3: [checkRateLimit] keeps of the recorded times of the connection
    those less than one second old; when three or more remain it returns
    false and records nothing, the state being the one before the call;
    otherwise it records [now] after them and returns true.  Hence, for a
    connection whose window is empty, of four calls within one second the
    first three return true and the fourth false, and a call more than one
    second after the first returns true. *)
Theorem checkRateLimit_sliding_window :
  (forall now sid s,
      (3 <= len (purge now (window sid s)) ->
       checkRateLimit now sid s = (inr false, s))
      /\ (len (purge now (window sid s)) < 3 ->
          result (checkRateLimit now sid s) = inr true
          /\ window sid (state (checkRateLimit now sid s))
             = purge now (window sid s) ++ [now]))
  /\ (forall sid s t1 t2 t3 t4 t5,
         window sid s = [] ->
         t1 <= t2 -> t2 <= t3 -> t3 <= t4 -> t4 - t1 < 1000 ->
         1000 < t5 - t1 ->
         let s1 := state (checkRateLimit t1 sid s) in
         let s2 := state (checkRateLimit t2 sid s1) in
         let s3 := state (checkRateLimit t3 sid s2) in
         let s4 := state (checkRateLimit t4 sid s3) in
         result (checkRateLimit t1 sid s) = inr true
         /\ result (checkRateLimit t2 sid s1) = inr true
         /\ result (checkRateLimit t3 sid s2) = inr true
         /\ result (checkRateLimit t4 sid s3) = inr false
         /\ result (checkRateLimit t5 sid s4) = inr true).
Proof.
  split.
  - intros now sid s. split.
    + apply checkRateLimit_full.
    + intros Hfree. split.
      * rewrite checkRateLimit_free by exact Hfree. reflexivity.
      * apply window_recorded; exact Hfree.
  - intros sid s t1 t2 t3 t4 t5 Hw H12 H23 H34 H41 H51 s1 s2 s3 s4.
    assert (F1 : len (purge t1 (window sid s)) < 3) by (rewrite Hw; unfold purge, len; simpl; lia).
    assert (W1 : window sid s1 = [t1]).
    { unfold s1. rewrite window_recorded by exact F1. rewrite Hw. reflexivity. }
    assert (P2 : purge t2 (window sid s1) = [t1]).
    { rewrite W1, purge_keep by lia. reflexivity. }
    assert (F2 : len (purge t2 (window sid s1)) < 3) by (rewrite P2; unfold len; simpl; lia).
    assert (W2 : window sid s2 = [t1; t2]).
    { unfold s2. rewrite window_recorded by exact F2. rewrite P2. reflexivity. }
    assert (P3 : purge t3 (window sid s2) = [t1; t2]).
    { rewrite W2, !purge_keep by lia. reflexivity. }
    assert (F3 : len (purge t3 (window sid s2)) < 3) by (rewrite P3; unfold len; simpl; lia).
    assert (W3 : window sid s3 = [t1; t2; t3]).
    { unfold s3. rewrite window_recorded by exact F3. rewrite P3. reflexivity. }
    assert (P4 : purge t4 (window sid s3) = [t1; t2; t3]).
    { rewrite W3, !purge_keep by lia. reflexivity. }
    assert (F4 : 3 <= len (purge t4 (window sid s3))) by (rewrite P4; unfold len; simpl; lia).
    assert (E4 : s4 = s3).
    { unfold s4. rewrite checkRateLimit_full by exact F4. reflexivity. }
    assert (F5 : len (purge t5 (window sid s4)) < 3).
    { rewrite E4, W3, purge_drop by lia.
      pose proof (purge_length t5 [t2; t3]) as Hl. unfold len. cbn [length] in Hl. lia. }
    repeat split.
    + rewrite checkRateLimit_free by exact F1. reflexivity.
    + rewrite checkRateLimit_free by exact F2. reflexivity.
    + rewrite checkRateLimit_free by exact F3. reflexivity.
    + rewrite checkRateLimit_full by exact F4. reflexivity.
    + rewrite checkRateLimit_free by exact F5. reflexivity.
Qed.

Lemma checkRateLimit_sliding_window_witness :
  let sid := str "s1" in
  let s0 := state (handleConnection sid init) in
  let s1 := state (checkRateLimit 0 sid s0) in
  let s2 := state (checkRateLimit 100 sid s1) in
  let s3 := state (checkRateLimit 200 sid s2) in
  let s4 := state (checkRateLimit 300 sid s3) in
  window sid s0 = []
  /\ result (checkRateLimit 300 sid s3) = inr false
  /\ result (checkRateLimit 1001 sid s4) = inr true.
Proof.
  intros sid s0 s1 s2 s3 s4.
  assert (Hw : window sid s0 = []) by (vm_compute; reflexivity).
  pose proof (proj2 checkRateLimit_sliding_window sid s0 0 100 200 300 1001 Hw
                ltac:(lia) ltac:(lia) ltac:(lia) ltac:(lia) ltac:(lia))
    as (_ & _ & _ & H4 & H5).
  split; [exact Hw|]. split; [exact H4 | exact H5].
Defined.

End RateLimit.

(** ** The insertion-ordered map *)

Section MapFacts.
Context {V : Type}.
Implicit Types (m : Map.t V) (k : list N) (v : V).

Lemma Map_get_set_eq k v m : Map.get k (Map.set k v m) = Some v.
Proof.
  induction m as [|[k' v'] m IH]; simpl.
  - rewrite streq_refl. reflexivity.
  - destruct (streq k' k) eqn:E; simpl.
    + rewrite streq_refl. reflexivity.
    + rewrite E. exact IH.
Qed.

Lemma Map_get_set_ne k k' v m :
  k <> k' -> Map.get k' (Map.set k v m) = Map.get k' m.
Proof.
  intros Hne. induction m as [|[k0 v0] m IH]; simpl.
  - rewrite (proj2 (streq_neq k k') Hne). reflexivity.
  - destruct (streq k0 k) eqn:E; simpl.
    + apply streq_eq in E; subst k0.
      rewrite (proj2 (streq_neq k k') Hne). reflexivity.
    + destruct (streq k0 k'); [reflexivity|exact IH].
Qed.

Lemma Map_set_values_in (f : V -> list N) k v m x :
  x ∈ List.map f (Map.values (Map.set k v m)) ->
  x = f v \/ x ∈ List.map f (Map.values m).
Proof.
  induction m as [|[k' v'] m IH]; simpl.
  - rewrite elem_of_cons. intros [->|Hx]; [left; reflexivity|right; exact Hx].
  - destruct (streq k' k); simpl; rewrite !elem_of_cons.
    + intros [->|Hx]; [left; reflexivity|right; right; exact Hx].
    + intros [->|Hx]; [right; left; reflexivity|].
      destruct (IH Hx) as [->|Hin]; [left; reflexivity|right; right; exact Hin].
Qed.

(** Setting a key keeps a projection of the values free of duplicates
    when the new value brings a new projection. *)
Lemma Map_set_NoDup (f : V -> list N) k v m :
  NoDup (List.map f (Map.values m)) ->
  f v ∉ List.map f (Map.values m) ->
  NoDup (List.map f (Map.values (Map.set k v m))).
Proof.
  induction m as [|[k' v'] m IH]; simpl.
  - intros _ _. apply NoDup_singleton.
  - rewrite NoDup_cons, not_elem_of_cons. intros [Hv' Hnd] [Hne Hv].
    destruct (streq k' k); simpl; apply NoDup_cons.
    + split; assumption.
    + split; [|apply IH; assumption].
      intros [E|Hin]%Map_set_values_in; [congruence|contradiction].
Qed.

Lemma Map_set_keys_in k v m x :
  x ∈ List.map fst (Map.set k v m) -> x = k \/ x ∈ List.map fst m.
Proof.
  induction m as [|[k' v'] m IH]; simpl.
  - rewrite elem_of_cons. intros [->|Hx]; [left; reflexivity|right; exact Hx].
  - destruct (streq k' k) eqn:E; simpl; rewrite !elem_of_cons.
    + intros [->|Hx]; [left; reflexivity|right; right; exact Hx].
    + intros [->|Hx]; [right; left; reflexivity|].
      destruct (IH Hx) as [->|Hin]; [left; reflexivity|right; right; exact Hin].
Qed.

Lemma Map_set_keys_NoDup k v m :
  NoDup (List.map fst m) -> NoDup (List.map fst (Map.set k v m)).
Proof.
  induction m as [|[k' v'] m IH]; simpl.
  - intros _. apply NoDup_singleton.
  - rewrite NoDup_cons. intros [Hk' Hnd].
    destruct (streq k' k) eqn:E; simpl; apply NoDup_cons.
    + apply streq_eq in E; subst k'. split; assumption.
    + split; [|apply IH; assumption].
      intros [->|Hin]%Map_set_keys_in; [|contradiction].
      rewrite streq_refl in E. discriminate E.
Qed.

Lemma Map_set_size k v m :
  Map.size (Map.set k v m)
  = match Map.get k m with
    | Some _ => Map.size m
    | None => Map.size m + 1
    end.
Proof.
  unfold Map.size, len. induction m as [|[k' v'] m IH]; simpl; [reflexivity|].
  destruct (streq k' k); simpl; [reflexivity|].
  destruct (Map.get k m); simpl in *; lia.
Qed.

Lemma Map_delete_in (f : list N * V -> list N) k m x :
  x ∈ List.map f (Map.delete k m) -> x ∈ List.map f m.
Proof.
  induction m as [|[k' v'] m IH]; simpl; [easy|].
  destruct (streq k' k); simpl; rewrite !elem_of_cons.
  - intros Hx; right; exact Hx.
  - intros [->|Hx]; [left; reflexivity|right; exact (IH Hx)].
Qed.

Lemma Map_delete_NoDup (f : list N * V -> list N) k m :
  NoDup (List.map f m) -> NoDup (List.map f (Map.delete k m)).
Proof.
  induction m as [|[k' v'] m IH]; simpl; [easy|].
  rewrite NoDup_cons. intros [Hk' Hnd].
  destruct (streq k' k); simpl; [exact Hnd|].
  apply NoDup_cons. split; [|apply IH; exact Hnd].
  intros Hin%Map_delete_in. contradiction.
Qed.

Lemma Map_delete_size k m :
  Map.size (Map.delete k m) <= Map.size m.
Proof.
  unfold Map.size, len. induction m as [|[k' v'] m IH]; simpl; [lia|].
  destruct (streq k' k); simpl in *; lia.
Qed.

Lemma Map_delete_size_found k v m :
  Map.get k m = Some v -> Map.size (Map.delete k m) = Map.size m - 1.
Proof.
  unfold Map.size, len. induction m as [|[k' v'] m IH]; simpl; [discriminate|].
  destruct (streq k' k); simpl; [lia|].
  intros Hg. specialize (IH Hg). lia.
Qed.

Lemma Map_get_in k v m : Map.get k m = Some v -> k ∈ List.map fst m.
Proof.
  induction m as [|[k' v'] m IH]; simpl; [discriminate|].
  destruct (streq k' k) eqn:E.
  - apply streq_eq in E; subst. intros _. apply elem_of_cons; left; reflexivity.
  - intros Hg. apply elem_of_cons; right; exact (IH Hg).
Qed.

Lemma Map_get_None k m : Map.get k m = None <-> k ∉ List.map fst m.
Proof.
  induction m as [|[k' v'] m IH]; simpl.
  - split; [intros _; apply not_elem_of_nil|reflexivity].
  - rewrite not_elem_of_cons. destruct (streq k' k) eqn:E.
    + apply streq_eq in E; subst. split; [discriminate|intros [Hne _]; congruence].
    + apply streq_neq in E. rewrite IH. split; [intros Hn; split; [congruence|exact Hn]|tauto].
Qed.

(** With keys free of duplicates, a deleted key is gone. *)
Lemma Map_get_delete_eq k m :
  NoDup (List.map fst m) -> Map.get k (Map.delete k m) = None.
Proof.
  induction m as [|[k' v'] m IH]; simpl; [reflexivity|].
  rewrite NoDup_cons. intros [Hk' Hnd].
  destruct (streq k' k) eqn:E; simpl.
  - apply streq_eq in E; subst. apply Map_get_None; exact Hk'.
  - rewrite E. apply IH; exact Hnd.
Qed.

Lemma Map_get_delete_ne k k' m :
  k <> k' -> Map.get k' (Map.delete k m) = Map.get k' m.
Proof.
  intros Hne. induction m as [|[k0 v0] m IH]; simpl; [reflexivity|].
  destruct (streq k0 k) eqn:E; simpl.
  - apply streq_eq in E; subst k0.
    rewrite (proj2 (streq_neq k k') Hne). reflexivity.
  - destruct (streq k0 k'); [reflexivity|exact IH].
Qed.

Lemma Map_get_delete_None k k' m :
  Map.get k' m = None -> Map.get k' (Map.delete k m) = None.
Proof.
  rewrite !Map_get_None. intros Hn Hin. apply Hn.
  exact (Map_delete_in fst k m k' Hin).
Qed.

(** Deleting the key of [v] removes [v] from the values. *)
Lemma Map_delete_values (f : V -> list N) k v m :
  Map.get k m = Some v ->
  NoDup (List.map f (Map.values m)) ->
  f v ∉ List.map f (Map.values (Map.delete k m)).
Proof.
  induction m as [|[k' v'] m IH]; simpl; [discriminate|].
  rewrite NoDup_cons. intros Hg [Hv' Hnd].
  destruct (streq k' k); simpl.
  - injection Hg as ->. exact Hv'.
  - rewrite not_elem_of_cons. split; [|apply IH; assumption].
    intros E. apply Hv'. rewrite <- E.
    clear -Hg. induction m as [|[k0 v0] m IH]; simpl in *; [discriminate|].
    apply elem_of_cons. destruct (streq k0 k).
    + injection Hg as ->. left; reflexivity.
    + right. exact (IH Hg).
Qed.

End MapFacts.

(** ** The user manager *)

Section UserManagerFacts.
Import UserManager.
Context `{CaseMapping}.

Lemma validateNickname_state (nickname : list N) (st : t) :
  validateNickname nickname st = (result (validateNickname nickname []), st).
Proof.
  unfold validateNickname, throw, ret, result.
  repeat match goal with
    | |- context [if ?b then _ else _] => destruct b
    end; reflexivity.
Qed.

Lemma validateNickname_cases (nickname : list N) :
  validNickname nickname
  \/ result (validateNickname nickname []) = inl ErrorCodes.INVALID_NICKNAME.
Proof.
  unfold validNickname, validateNickname, throw, ret, result.
  repeat match goal with
    | |- context [if ?b then _ else _] => destruct b
    end; simpl; auto.
Qed.

Lemma taken_elem (nickname : list N) (st : t) :
  taken nickname st = true
  <-> toLowerCase (trim nickname) ∈ List.map lowerNickname (Map.values st).
Proof.
  unfold taken. induction (Map.values st) as [|u l IH]; simpl.
  - split; [discriminate|]. intros Hin. inversion Hin.
  - rewrite orb_true_iff, elem_of_cons, IH, streq_eq. unfold lowerNickname.
    split; (intros [E|Hin]; [left; congruence|right; exact Hin]).
Qed.

Lemma addUser_invalid now sid nickname (st : t) :
  ~ validNickname nickname ->
  addUser now sid nickname st = (inl ErrorCodes.INVALID_NICKNAME, st).
Proof.
  intros Hv. unfold addUser, bind. rewrite validateNickname_state.
  destruct (validateNickname_cases nickname) as [Hok|Hbad]; [contradiction|].
  rewrite Hbad. reflexivity.
Qed.

(** What [addUser] does with a nickname that passes validation. *)
Lemma addUser_valid now sid nickname (st : t) :
  validNickname nickname ->
  addUser now sid nickname st
  = if taken nickname st then (inl ErrorCodes.NICKNAME_TAKEN, st)
    else if Map.size st >=? 50 then (inl ErrorCodes.ROOM_FULL, st)
    else (inr (userOf now sid nickname),
          Map.set sid (userOf now sid nickname) st).
Proof.
  intros Hv. unfold addUser, bind. rewrite validateNickname_state.
  unfold validNickname in Hv. rewrite Hv.
  unfold isNicknameExists, bind, get, ret, throw. fold (taken nickname st).
  destruct (taken nickname st); [reflexivity|].
  unfold ValidationConstraints.MAX_USERS.
  destruct (Map.size st >=? 50); reflexivity.
Qed.

Lemma removeUser_eq sid (st : t) :
  removeUser sid st
  = match Map.get sid st with
    | Some user => (inr (Some user), Map.delete sid st)
    | None => (inr None, st)
    end.
Proof.
  unfold removeUser, bind, get, put, ret.
  destruct (Map.get sid st); reflexivity.
Qed.

Lemma invariant_empty : invariant [].
Proof.
  unfold invariant, uniqueNicknames. simpl.
  repeat split; try apply NoDup_nil_2. unfold Map.size, len. simpl. lia.
Qed.

Lemma addUser_invariant now sid nickname (st : t) :
  invariant st -> invariant (state (addUser now sid nickname st)).
Proof.
  intros (Hu & Hs & Hk).
  destruct (validateNickname_cases nickname) as [Hv|Hbad].
  - rewrite addUser_valid by exact Hv.
    destruct (taken nickname st) eqn:Ht; [repeat split; assumption|].
    destruct (Z.geb_spec (Map.size st) 50) as [Hfull|Hroom];
      [repeat split; assumption|].
    unfold state; simpl snd. repeat split.
    + apply (Map_set_NoDup lowerNickname); [exact Hu|].
      intros Hin. apply taken_elem in Hin. simpl in Hin. congruence.
    + rewrite Map_set_size. destruct (Map.get sid st); lia.
    + apply Map_set_keys_NoDup; exact Hk.
  - rewrite addUser_invalid; [repeat split; assumption|].
    unfold validNickname. rewrite Hbad. discriminate.
Qed.

Lemma Map_values_delete_NoDup (sid : list N) (st : t) :
  NoDup (List.map lowerNickname (Map.values st)) ->
  NoDup (List.map lowerNickname (Map.values (Map.delete sid st))).
Proof.
  unfold Map.values. rewrite !List.map_map.
  apply (Map_delete_NoDup (fun x => lowerNickname (snd x))).
Qed.

Lemma removeUser_invariant sid (st : t) :
  invariant st -> invariant (state (removeUser sid st)).
Proof.
  intros (Hu & Hs & Hk). rewrite removeUser_eq.
  destruct (Map.get sid st); [|repeat split; assumption].
  unfold state; simpl snd. repeat split.
  - apply Map_values_delete_NoDup; exact Hu.
  - pose proof (Map_delete_size sid st). lia.
  - apply Map_delete_NoDup; exact Hk.
Qed.

Lemma call_invariant (c : Call) (st : t) :
  invariant st -> invariant (state (call c st)).
Proof.
  intros Hi. destruct c; simpl; unfold bind.
  - pose proof (addUser_invariant now socketId nickname st Hi) as Ha.
    destruct (addUser now socketId nickname st) as [[e|u] st']; exact Ha.
  - pose proof (removeUser_invariant socketId st Hi) as Hr.
    destruct (removeUser socketId st) as [[e|u] st']; exact Hr.
  - exact Hi.
  - exact Hi.
  - exact Hi.
  - exact Hi.
  - exact Hi.
  - exact invariant_empty.
Qed.

Lemma calls_invariant (cs : list Call) (st : t) :
  invariant st -> invariant (calls cs st).
Proof.
  revert st. induction cs as [|c cs IH]; intros st Hi; [exact Hi|].
  unfold calls in *. simpl. apply IH, call_invariant, Hi.
Qed.

Lemma Map_get_value {V} (f : V -> list N) (k : list N) (v : V) (m : Map.t V) :
  Map.get k m = Some v -> f v ∈ List.map f (Map.values m).
Proof.
  induction m as [|[k' v'] m IH]; simpl; [discriminate|].
  rewrite elem_of_cons. destruct (streq k' k).
  - intros [= ->]. left; reflexivity.
  - intros Hg. right. exact (IH Hg).
Qed.

(** C5: in every state the user manager reaches, the nicknames of the
    active users are unique without regard to case; an [addUser] with a
    valid nickname that is, trimmed and without regard to case, the
    nickname of an active user throws [NICKNAME_TAKEN] and changes
    nothing, and it succeeds once that user was removed. *)
Theorem nicknames_unique_until_leave (cs : list Call) :
  uniqueNicknames (calls cs [])
  /\ forall now sid1 u1 sid2 n2,
       Map.get sid1 (calls cs []) = Some u1 ->
       validNickname n2 ->
       toLowerCase (trim n2) = toLowerCase (User.nickname u1) ->
       addUser now sid2 n2 (calls cs [])
       = (inl ErrorCodes.NICKNAME_TAKEN, calls cs [])
       /\ result (addUser now sid2 n2 (state (removeUser sid1 (calls cs []))))
          = inr (userOf now sid2 n2).
Proof.
  destruct (calls_invariant cs [] invariant_empty) as (Hu & Hs & Hk).
  split; [exact Hu|].
  intros now sid1 u1 sid2 n2 Hg Hv Hdup.
  assert (Hin : lowerNickname u1 ∈ List.map lowerNickname (Map.values (calls cs [])))
    by exact (Map_get_value lowerNickname _ _ _ Hg).
  split.
  - rewrite addUser_valid by exact Hv.
    rewrite (proj2 (taken_elem n2 _)); [reflexivity|].
    rewrite Hdup. exact Hin.
  - rewrite removeUser_eq, Hg. unfold state; simpl snd.
    rewrite addUser_valid by exact Hv.
    assert (Hfree : taken n2 (Map.delete sid1 (calls cs [])) = false).
    { destruct (taken n2 _) eqn:Ht; [|reflexivity].
      apply taken_elem in Ht. rewrite Hdup in Ht.
      exfalso. exact (Map_delete_values lowerNickname _ _ _ Hg Hu Ht). }
    rewrite Hfree.
    pose proof (Map_delete_size_found _ _ _ Hg) as Hsz.
    destruct (Z.geb_spec (Map.size (Map.delete sid1 (calls cs []))) 50); [lia|].
    reflexivity.
Qed.

(** C6: for a valid nickname that no active user has, [addUser] succeeds
    exactly when the number of active users is below 50; with 50 active
    users it throws [ROOM_FULL] and changes nothing. *)
Theorem addUser_succeeds_iff_room now sid nickname (st : t) :
  validNickname nickname ->
  taken nickname st = false ->
  forall count, result (getUserCount st) = inr count ->
  ((exists user, result (addUser now sid nickname st) = inr user)
   <-> count < ValidationConstraints.MAX_USERS)
  /\ (count >= 50 ->
      addUser now sid nickname st = (inl ErrorCodes.ROOM_FULL, st)).
Proof.
  intros Hv Ht count Hc.
  unfold getUserCount, bind, get, ret, result in Hc. simpl in Hc.
  injection Hc as <-.
  rewrite addUser_valid, Ht by exact Hv.
  unfold ValidationConstraints.MAX_USERS.
  destruct (Z.geb_spec (Map.size st) 50) as [Hfull|Hroom].
  - split; [|reflexivity]. split; [|lia].
    intros [user Hu]. discriminate Hu.
  - split; [|lia]. split; [lia|]. intros _. eexists. reflexivity.
Qed.

End UserManagerFacts.

Lemma nicknames_unique_until_leave_witness :
  let cs := [UserManager.AddUser 1 (str "s1") (str "Alice")] in
  Map.get (str "s1") (UserManager.calls cs [])
  = Some (userOf 1 (str "s1") (str "Alice"))
  /\ validNickname (str "ALICE")
  /\ toLowerCase (trim (str "ALICE")) = toLowerCase (str "Alice")
  /\ UserManager.addUser 2 (str "s2") (str "ALICE") (UserManager.calls cs [])
     = (inl ErrorCodes.NICKNAME_TAKEN, UserManager.calls cs [])
  /\ result (UserManager.addUser 2 (str "s2") (str "ALICE")
               (state (UserManager.removeUser (str "s1") (UserManager.calls cs []))))
     = inr (userOf 2 (str "s2") (str "ALICE")).
Proof.
  intros cs.
  assert (Hg : Map.get (str "s1") (UserManager.calls cs [])
               = Some (userOf 1 (str "s1") (str "Alice")))
    by (vm_compute; reflexivity).
  assert (Hv : validNickname (str "ALICE")) by (vm_compute; reflexivity).
  assert (Hd : toLowerCase (trim (str "ALICE"))
               = toLowerCase (User.nickname (userOf 1 (str "s1") (str "Alice"))))
    by (vm_compute; reflexivity).
  split; [exact Hg|]. split; [exact Hv|]. split; [exact Hd|].
  exact (proj2 (nicknames_unique_until_leave cs) 2 (str "s1") _ (str "s2")
           (str "ALICE") Hg Hv Hd).
Defined.

Lemma addUser_succeeds_iff_room_witness :
  let st := UserManager.calls
              (List.map
                 (fun i => UserManager.AddUser (Z.of_nat i) [N.of_nat i]
                             [97 + N.of_nat i / 26; 97 + N.of_nat i mod 26]%N)
                 (seq 0 50))
              [] in
  validNickname (str "zoe")
  /\ taken (str "zoe") st = false
  /\ result (UserManager.getUserCount st) = inr 50
  /\ UserManager.addUser 50 (str "s51") (str "zoe") st
     = (inl ErrorCodes.ROOM_FULL, st).
Proof.
  intros st.
  assert (Hv : validNickname (str "zoe")) by (vm_compute; reflexivity).
  assert (Ht : taken (str "zoe") st = false) by (vm_compute; reflexivity).
  assert (Hc : result (UserManager.getUserCount st) = inr 50)
    by (vm_compute; reflexivity).
  split; [exact Hv|]. split; [exact Ht|]. split; [exact Hc|].
  exact (proj2 (addUser_succeeds_iff_room 50 (str "s51") (str "zoe") st Hv Ht 50 Hc)
           ltac:(lia)).
Defined.

(** ** The socket manager *)

Section SocketManagerFacts.
Import SocketManager.
Context `{CaseMapping}.

Lemma getAllNicknames_eq (st : UserManager.t) :
  UserManager.getAllNicknames st = (inr (nicknamesOf st), st).
Proof. reflexivity. Qed.

(** A read returns without throwing and leaves every field as it was. *)
Lemma read_unchanged (r : Read) (s : t) : read r s = (inr tt, s).
Proof.
  destruct s as [um ms rl out].
  destruct r; cbn [read]; unfold bind, onUsers, onMessages, zoom;
    cbn [userManager messageStore rateLimitMap emitted].
  - reflexivity.
  - reflexivity.
  - reflexivity.
  - rewrite getRecentMessages_eq. reflexivity.
  - destruct (decide (trim term = [])) as [E|E].
    + rewrite (searchMessages_blank _ _ _ E). reflexivity.
    + rewrite (searchMessages_filter _ _ _ E). reflexivity.
  - unfold MessageStore.getStatistics, bind, get, ret.
    destruct (len ms =? 0); [reflexivity|].
    destruct (fold_left MessageStore.count ms (∅, 0)). reflexivity.
Qed.

Lemma run_app (xs ys : list Step) (s : t) :
  run (xs ++ ys) s = run ys (run xs s).
Proof. unfold run. apply fold_left_app. Qed.

Lemma run_queries (rs : list Read) (s : t) : run (List.map Query rs) s = s.
Proof.
  induction rs as [|r rs IH]; [reflexivity|].
  unfold run in *. simpl. rewrite read_unchanged. exact IH.
Qed.

Lemma addUser_state now sid nickname (st : UserManager.t) :
  (exists e, UserManager.addUser now sid nickname st = (inl e, st))
  \/ UserManager.addUser now sid nickname st
     = (inr (userOf now sid nickname), Map.set sid (userOf now sid nickname) st).
Proof.
  destruct (validateNickname_cases nickname) as [Hv|Hbad].
  - rewrite addUser_valid by exact Hv.
    destruct (taken nickname st); [left; eexists; reflexivity|].
    destruct (Map.size st >=? 50); [left; eexists; reflexivity|].
    right; reflexivity.
  - left. eexists. apply addUser_invalid.
    unfold validNickname. rewrite Hbad. discriminate.
Qed.

(** A join request never throws; when [addUser] accepts, the socket gets
    [join-success], the others [user-joined], everyone [update-users];
    when it throws, the socket gets the error and nothing else changes. *)
Lemma handleJoinRoom_eq now sid nickname (s : t) :
  handleJoinRoom now sid nickname s
  = match UserManager.addUser now sid nickname (userManager s) with
    | (inr user, users) =>
        (inr tt,
         mk users (messageStore s) (rateLimitMap s)
            (emitted s
             ++ [SocketEmit sid
                   (JoinSuccess (User.nickname user) (nicknamesOf users)
                      (lastN (Z.to_nat (Z.min (Z.max 1 50) (len (messageStore s))))
                             (messageStore s)))]
             ++ [BroadcastEmit sid
                   (UserJoined (User.nickname user) (User.joinedAt user))]
             ++ [IoEmit (UpdateUsers (nicknamesOf users))]))
    | (inl e, users) =>
        (inr tt,
         mk users (messageStore s) (rateLimitMap s)
            (emitted s ++ [SocketEmit sid (Error e)]))
    end.
Proof.
  destruct s as [um ms rl out].
  unfold handleJoinRoom, tryCatch, bind, onUsers, onMessages, zoom.
  cbn [userManager messageStore rateLimitMap emitted].
  destruct (UserManager.addUser now sid nickname um) as [[e|user] users].
  - reflexivity.
  - cbv beta iota. rewrite getAllNicknames_eq. cbv beta iota.
    rewrite getRecentMessages_eq.
    unfold emit, bind, get, put.
    cbn [userManager messageStore rateLimitMap emitted].
    rewrite getAllNicknames_eq.
    cbn [userManager messageStore rateLimitMap emitted].
    rewrite <- !app_assoc. reflexivity.
Qed.

Lemma handleDisconnect_eq now sid (s : t) :
  handleDisconnect now sid s
  = match Map.get sid (userManager s) with
    | Some user =>
        (inr tt,
         mk (Map.delete sid (userManager s)) (messageStore s)
            (base.delete sid (rateLimitMap s))
            (emitted s
             ++ [BroadcastEmit sid (UserLeft (User.nickname user) now)]
             ++ [IoEmit (UpdateUsers (nicknamesOf (Map.delete sid (userManager s))))]))
    | None =>
        (inr tt,
         mk (userManager s) (messageStore s)
            (base.delete sid (rateLimitMap s)) (emitted s))
    end.
Proof.
  destruct s as [um ms rl out].
  unfold handleDisconnect, bind, onUsers, zoom. simpl.
  rewrite removeUser_eq.
  destruct (Map.get sid um) as [user|]; simpl.
  - unfold emit, bind, get, put. simpl. rewrite <- !app_assoc. reflexivity.
  - reflexivity.
Qed.

(** A send request never throws, never touches the users and sends
    exactly one event. *)
Lemma handleSendMessage_users nowRate uuid nowMessage sid message (s : t) :
  exists e ms rl,
    handleSendMessage nowRate uuid nowMessage sid message s
    = (inr tt, mk (userManager s) ms rl (emitted s ++ [e])).
Proof.
  destruct s as [um ms rl out].
  unfold handleSendMessage, tryCatch, bind, onUsers, onMessages, zoom,
    UserManager.getUser, bind, get, ret. simpl.
  destruct (Map.get sid um) as [user|]; simpl.
  2:{ do 3 eexists. reflexivity. }
  destruct (Z.le_gt_cases 3 (len (purge nowRate (window sid (mk um ms rl out)))))
    as [Hfull|Hfree].
  - rewrite checkRateLimit_full by exact Hfull. simpl.
    do 3 eexists. reflexivity.
  - rewrite checkRateLimit_free by lia. simpl.
    destruct (MessageStore.addMessage uuid nowMessage (User.id user)
                (User.nickname user) message ms) as [[e|stored] ms'];
      simpl; do 3 eexists; reflexivity.
Qed.

End SocketManagerFacts.

Section Sessions.
Import SocketManager.
Context `{CaseMapping}.

Lemma hasJoined_app (sid : list N) um ms rl (out more : list Emit) :
  hasJoined sid (mk um ms rl (out ++ more))
  = hasJoined sid (mk um ms rl out) || existsb (joinSucceeded sid) more.
Proof. unfold hasJoined. simpl. apply existsb_app. Qed.

(** A socket that is among the users was told that its join succeeded. *)
Lemma step_not_joined (sid : list N) (x : Step) (s : t) :
  (hasJoined sid s = false -> Map.get sid (userManager s) = None) ->
  hasJoined sid (state (step x s)) = false ->
  Map.get sid (userManager (state (step x s))) = None.
Proof.
  destruct s as [um ms rl out]. intros Hinv.
  destruct x as [[k|now k n|nowRate uuid nowMessage k message|now k]|r];
    cbn [step handle].
  - exact Hinv.
  - rewrite handleJoinRoom_eq. cbn [userManager messageStore rateLimitMap emitted].
    destruct (addUser_state now k n um) as [[e He]|Hok].
    + rewrite He. unfold state; cbn [snd userManager].
      rewrite hasJoined_app. intros [Hj _]%orb_false_iff. exact (Hinv Hj).
    + rewrite Hok. unfold state; cbn [snd userManager].
      rewrite hasJoined_app. intros [Hj Hk]%orb_false_iff.
      simpl in Hk. apply orb_false_iff in Hk as [Hk _].
      apply streq_neq in Hk. rewrite Map_get_set_ne by exact Hk.
      exact (Hinv Hj).
  - destruct (handleSendMessage_users nowRate uuid nowMessage k message
                (mk um ms rl out)) as (e & ms' & rl' & ->).
    unfold state; cbn [snd userManager emitted].
    unfold hasJoined in *. cbn [emitted] in *. rewrite existsb_app.
    intros [Hj _]%orb_false_iff. exact (Hinv Hj).
  - rewrite handleDisconnect_eq. cbn [userManager messageStore rateLimitMap emitted].
    destruct (Map.get k um) as [user|]; unfold state; cbn [snd userManager].
    + unfold hasJoined in *. cbn [emitted] in *. rewrite existsb_app.
      intros [Hj _]%orb_false_iff. apply Map_get_delete_None. exact (Hinv Hj).
    + exact Hinv.
  - rewrite read_unchanged. exact Hinv.
Qed.

Lemma run_not_joined (sid : list N) (xs : list Step) (s : t) :
  (hasJoined sid s = false -> Map.get sid (userManager s) = None) ->
  hasJoined sid (run xs s) = false ->
  Map.get sid (userManager (run xs s)) = None.
Proof.
  revert s. induction xs as [|x xs IH]; intros s Hinv; [exact Hinv|].
  unfold run in *. simpl. apply IH. apply step_not_joined. exact Hinv.
Qed.

(** C8: in every state the user manager reaches, [removeUser] removes and
    returns the user of the socket when there is one and returns nothing,
    without throwing and without a change, when there is none, as after a
    first [removeUser]; and after any run of the server, the disconnect of
    a socket that never completed a join removes no user and sends no
    event, neither [user-left] nor [update-users]. *)
Theorem removeUser_idempotent_disconnect_silent :
  (forall (cs : list UserManager.Call) (sid : list N),
      (forall user,
          Map.get sid (UserManager.calls cs []) = Some user ->
          UserManager.removeUser sid (UserManager.calls cs [])
          = (inr (Some user), Map.delete sid (UserManager.calls cs []))
          /\ result (UserManager.getUser sid (Map.delete sid (UserManager.calls cs [])))
             = inr None)
      /\ (Map.get sid (UserManager.calls cs []) = None ->
          UserManager.removeUser sid (UserManager.calls cs [])
          = (inr None, UserManager.calls cs []))
      /\ UserManager.removeUser sid
           (state (UserManager.removeUser sid (UserManager.calls cs [])))
         = (inr None, state (UserManager.removeUser sid (UserManager.calls cs []))))
  /\ (forall (xs : list Step) (now : Z) (sid : list N),
         hasJoined sid (run xs init) = false ->
         result (handleDisconnect now sid (run xs init)) = inr tt
         /\ userManager (state (handleDisconnect now sid (run xs init)))
            = userManager (run xs init)
         /\ emitted (state (handleDisconnect now sid (run xs init)))
            = emitted (run xs init)).
Proof.
  split.
  - intros cs sid.
    destruct (calls_invariant cs [] invariant_empty) as (_ & _ & Hk).
    assert (Hgone : Map.get sid (Map.delete sid (UserManager.calls cs [])) = None)
      by exact (Map_get_delete_eq sid _ Hk).
    split; [|split].
    + intros user Hg. split.
      * rewrite removeUser_eq, Hg. reflexivity.
      * unfold UserManager.getUser, bind, get, ret, result. simpl.
        rewrite Hgone. reflexivity.
    + intros Hg. rewrite removeUser_eq, Hg. reflexivity.
    + rewrite (removeUser_eq sid (UserManager.calls cs [])).
      destruct (Map.get sid (UserManager.calls cs [])) eqn:Hg;
        unfold state; cbn [snd]; rewrite removeUser_eq.
      * rewrite Hgone. reflexivity.
      * rewrite Hg. reflexivity.
  - intros xs now sid Hj.
    assert (Hg : Map.get sid (userManager (run xs init)) = None).
    { apply run_not_joined; [reflexivity|exact Hj]. }
    rewrite handleDisconnect_eq, Hg. repeat split.
Qed.

End Sessions.

Lemma removeUser_idempotent_disconnect_silent_witness :
  let xs := [SocketManager.Handle (SocketManager.Connection (str "s9"));
             SocketManager.Handle (SocketManager.JoinRoom 1 (str "s1") (str "Alice"));
             SocketManager.Handle (SocketManager.JoinRoom 2 (str "s9") (str "alice"))] in
  hasJoined (str "s9") (SocketManager.run xs SocketManager.init) = false
  /\ SocketManager.emitted
       (state (SocketManager.handleDisconnect 3 (str "s9")
                 (SocketManager.run xs SocketManager.init)))
     = SocketManager.emitted (SocketManager.run xs SocketManager.init).
Proof.
  intros xs.
  assert (Hj : hasJoined (str "s9") (SocketManager.run xs SocketManager.init) = false)
    by (vm_compute; reflexivity).
  split; [exact Hj|].
  exact (proj2 (proj2 (proj2 removeUser_idempotent_disconnect_silent xs 3 (str "s9") Hj))).
Defined.

(** ** The order of the listing *)

Section Sorting.
Import UserManager.

Lemma nonDecreasing_skip (a t : Z) (r : list Z) :
  a <= t -> nonDecreasing (t :: r) -> nonDecreasing (a :: r).
Proof.
  destruct r as [|b r]; [intros; exact I|].
  intros Hat [Htb Hr]. split; [lia|exact Hr].
Qed.

Lemma nonDecreasing_tail (t : Z) (r : list Z) :
  nonDecreasing (t :: r) -> nonDecreasing r.
Proof. destruct r; [intros; exact I|intros [_ Hr]; exact Hr]. Qed.

Lemma nonDecreasing_bound (t : Z) (r : list Z) :
  nonDecreasing (t :: r) -> Forall (fun b => t <= b) r.
Proof.
  revert t. induction r as [|b r IH]; intros t; [constructor|].
  intros [Htb Hr]. constructor; [exact Htb|].
  apply IH. exact (nonDecreasing_skip t b r Htb Hr).
Qed.

Lemma insertBy_permutation {A} (cmp : A -> A -> Z) (x : A) (l : list A) :
  Permutation (insertBy cmp x l) (x :: l).
Proof.
  induction l as [|y l IH]; simpl; [reflexivity|].
  destruct (cmp x y <=? 0); [reflexivity|].
  rewrite IH. apply perm_swap.
Qed.

Lemma sort_permutation {A} (cmp : A -> A -> Z) (l : list A) :
  Permutation (sort cmp l) l.
Proof.
  unfold sort. induction l as [|x l IH]; simpl; [reflexivity|].
  rewrite insertBy_permutation, IH. reflexivity.
Qed.

Lemma insertBy_in_order (x : User.t) (l : list User.t) :
  nonDecreasing (List.map User.joinedAt l) ->
  nonDecreasing (List.map User.joinedAt (insertBy byJoinedAt x l)).
Proof.
  induction l as [|y l IH]; [intros _; exact I|].
  intros Hs. simpl insertBy. unfold byJoinedAt at 1.
  destruct (Z.leb_spec (User.joinedAt x - User.joinedAt y) 0) as [Hle|Hgt].
  - split; [lia|exact Hs].
  - assert (Hl : nonDecreasing (List.map User.joinedAt l))
      by (destruct l; [exact I|exact (proj2 Hs)]).
    specialize (IH Hl). destruct l as [|z l]; simpl.
    + split; [lia|exact I].
    + simpl in IH. simpl in Hs. unfold byJoinedAt in IH |- *.
      destruct (User.joinedAt x - User.joinedAt z <=? 0).
      * split; [lia|exact IH].
      * split; [lia|exact IH].
Qed.

Lemma sort_in_time_order (l : list User.t) :
  nonDecreasing (List.map User.joinedAt (sort byJoinedAt l)).
Proof.
  unfold sort. induction l as [|x l IH]; [exact I|].
  simpl. apply insertBy_in_order. exact IH.
Qed.

(** An element that joined after all the others goes last. *)
Lemma insertBy_last (x : User.t) (l : list User.t) :
  Forall (fun y => User.joinedAt y < User.joinedAt x) l ->
  insertBy byJoinedAt x l = l ++ [x].
Proof.
  induction l as [|y l IH]; [reflexivity|].
  intros [Hy Hl]%Forall_cons. simpl. unfold byJoinedAt at 1.
  rewrite (proj2 (Z.leb_gt _ _)) by lia. rewrite (IH Hl). reflexivity.
Qed.

Lemma insertBy_before_last (x u : User.t) (l : list User.t) :
  User.joinedAt x <= User.joinedAt u ->
  insertBy byJoinedAt x (l ++ [u]) = insertBy byJoinedAt x l ++ [u].
Proof.
  intros Hx. induction l as [|y l IH]; simpl.
  - unfold byJoinedAt. rewrite (proj2 (Z.leb_le _ _)) by lia. reflexivity.
  - destruct (byJoinedAt x y <=? 0); [reflexivity|]. rewrite IH. reflexivity.
Qed.

Lemma insertBy_first (x : User.t) (l : list User.t) :
  Forall (fun y => User.joinedAt x <= User.joinedAt y) l ->
  insertBy byJoinedAt x l = x :: l.
Proof.
  destruct l as [|y l]; [reflexivity|].
  intros [Hy _]%Forall_cons. simpl. unfold byJoinedAt.
  rewrite (proj2 (Z.leb_le _ _)) by lia. reflexivity.
Qed.

Lemma filter_Forall {A} (P : A -> Prop) (p : A -> bool) (l : list A) :
  Forall P l -> Forall P (List.filter p l).
Proof.
  induction l as [|y l IH]; [intros _; constructor|].
  intros [Hy Hl]%Forall_cons. simpl.
  destruct (p y); [constructor; [exact Hy|]|]; exact (IH Hl).
Qed.

(** Leaving out elements and inserting one more can be done in either
    order. *)
Lemma filter_insertBy_out {A} (cmp : A -> A -> Z) (p : A -> bool) (x : A)
    (l : list A) :
  p x = false -> List.filter p (insertBy cmp x l) = List.filter p l.
Proof.
  intros Hp. induction l as [|y l IH]; simpl; [rewrite Hp; reflexivity|].
  destruct (cmp x y <=? 0); simpl; [rewrite Hp; reflexivity|].
  rewrite IH. reflexivity.
Qed.

Lemma filter_insertBy_in (p : User.t -> bool) (x : User.t) (l : list User.t) :
  p x = true ->
  nonDecreasing (List.map User.joinedAt l) ->
  List.filter p (insertBy byJoinedAt x l)
  = insertBy byJoinedAt x (List.filter p l).
Proof.
  intros Hp. induction l as [|y l IH]; intros Hs.
  - simpl. rewrite Hp. reflexivity.
  - cbn [insertBy].
    destruct (Z.leb_spec (byJoinedAt x y) 0) as [Hle|Hgt].
    + unfold byJoinedAt in Hle.
      assert (Hall : Forall (fun z => User.joinedAt x <= User.joinedAt z) (y :: l)).
      { constructor; [lia|].
        pose proof (proj1 (List.Forall_map User.joinedAt _ l)
                      (nonDecreasing_bound _ _ Hs)) as Hb.
        eapply Forall_impl; [exact Hb|]. simpl. intros; lia. }
      rewrite (insertBy_first x (List.filter p (y :: l)))
        by (apply filter_Forall; exact Hall).
      change (List.filter p (x :: y :: l))
        with (if p x then x :: List.filter p (y :: l) else List.filter p (y :: l)).
      rewrite Hp. reflexivity.
    + assert (Hl : nonDecreasing (List.map User.joinedAt l))
        by exact (nonDecreasing_tail _ _ Hs).
      simpl. destruct (p y).
      * simpl. rewrite (proj2 (Z.leb_gt _ _)) by lia. rewrite (IH Hl). reflexivity.
      * exact (IH Hl).
Qed.

Lemma leave_others (k : list N) (l : list User.t) :
  Forall (fun u => User.id u <> k) l -> leave k l = l.
Proof.
  induction l as [|u l IH]; [reflexivity|].
  intros [Hu Hl]%Forall_cons. unfold leave in *. simpl.
  rewrite (proj2 (streq_neq _ _) Hu). simpl. rewrite (IH Hl). reflexivity.
Qed.

(** The values of a map whose entries carry their key and whose keys do
    not hold [k]. *)
Lemma values_others (k : list N) (m : t) :
  Forall (fun e => User.id (snd e) = fst e) m ->
  k ∉ List.map fst m ->
  Forall (fun u => User.id u <> k) (Map.values m).
Proof.
  induction m as [|[k' v'] m IH]; [intros _ _; constructor|].
  intros [Hv Hm]%Forall_cons. simpl. rewrite not_elem_of_cons. intros [Hne Hk].
  constructor; [simpl in Hv; congruence|exact (IH Hm Hk)].
Qed.

Lemma sort_Forall (P : User.t -> Prop) (l : list User.t) :
  Forall P l -> Forall P (sort byJoinedAt l).
Proof.
  intros Hl. eapply Permutation_Forall; [|exact Hl].
  symmetry. apply sort_permutation.
Qed.

(** [users.delete(k)] takes the user of [k] out of the listing and leaves
    the others in their order. *)
Lemma sort_delete (k : list N) (m : t) :
  NoDup (List.map fst m) ->
  Forall (fun e => User.id (snd e) = fst e) m ->
  sort byJoinedAt (Map.values (Map.delete k m))
  = leave k (sort byJoinedAt (Map.values m)).
Proof.
  induction m as [|[k' v'] m IH]; [reflexivity|].
  simpl List.map. rewrite NoDup_cons. intros [Hk' Hnd] [Hv Hm]%Forall_cons.
  simpl in Hv. simpl Map.delete. destruct (streq k' k) eqn:E.
  - apply streq_eq in E. rewrite E in *. clear E.
    change (sort byJoinedAt (Map.values ((k, v') :: m)))
      with (insertBy byJoinedAt v' (sort byJoinedAt (Map.values m))).
    unfold leave. rewrite filter_insertBy_out
      by (rewrite Hv, streq_refl; reflexivity).
    symmetry. apply leave_others, sort_Forall, values_others; assumption.
  - change (sort byJoinedAt (Map.values ((k', v') :: Map.delete k m)))
      with (insertBy byJoinedAt v' (sort byJoinedAt (Map.values (Map.delete k m)))).
    change (sort byJoinedAt (Map.values ((k', v') :: m)))
      with (insertBy byJoinedAt v' (sort byJoinedAt (Map.values m))).
    rewrite (IH Hnd Hm). unfold leave. rewrite filter_insertBy_in.
    + reflexivity.
    + rewrite Hv, E. reflexivity.
    + apply sort_in_time_order.
Qed.

(** [users.set(k, u)] for a user [u] that joins now: when no user joined
    later than now, and every user joined before now if [k] has a user
    already, [u] is listed last and the others keep their order. *)
Lemma sort_set (k : list N) (u : User.t) (m : t) :
  NoDup (List.map fst m) ->
  Forall (fun e => User.id (snd e) = fst e) m ->
  Forall (fun v => User.joinedAt v <= User.joinedAt u) (Map.values m) ->
  (k ∈ List.map fst m ->
   Forall (fun v => User.joinedAt v < User.joinedAt u) (Map.values m)) ->
  sort byJoinedAt (Map.values (Map.set k u m))
  = leave k (sort byJoinedAt (Map.values m)) ++ [u].
Proof.
  induction m as [|[k' v'] m IH]; [reflexivity|].
  simpl List.map. rewrite NoDup_cons.
  intros [Hk' Hnd] [Hv Hm]%Forall_cons [Hle Hles]%Forall_cons Hlt.
  simpl in Hv, Hle. simpl Map.set. destruct (streq k' k) eqn:E.
  - apply streq_eq in E. rewrite E in *. clear E.
    assert (Hin : k ∈ k :: List.map fst m) by (apply elem_of_cons; left; reflexivity).
    apply Hlt, Forall_cons in Hin as [_ Hlts].
    change (sort byJoinedAt (Map.values ((k, u) :: m)))
      with (insertBy byJoinedAt u (sort byJoinedAt (Map.values m))).
    change (sort byJoinedAt (Map.values ((k, v') :: m)))
      with (insertBy byJoinedAt v' (sort byJoinedAt (Map.values m))).
    rewrite insertBy_last by (apply sort_Forall; exact Hlts).
    unfold leave. rewrite filter_insertBy_out
      by (rewrite Hv, streq_refl; reflexivity).
    f_equal. symmetry.
    apply leave_others, sort_Forall, values_others; assumption.
  - change (sort byJoinedAt (Map.values ((k', v') :: Map.set k u m)))
      with (insertBy byJoinedAt v' (sort byJoinedAt (Map.values (Map.set k u m)))).
    change (sort byJoinedAt (Map.values ((k', v') :: m)))
      with (insertBy byJoinedAt v' (sort byJoinedAt (Map.values m))).
    rewrite (IH Hnd Hm Hles).
    + rewrite insertBy_before_last by exact Hle.
      unfold leave. rewrite filter_insertBy_in.
      * reflexivity.
      * rewrite Hv, E. reflexivity.
      * apply sort_in_time_order.
    + intros Hin.
      assert (Hin' : k ∈ k' :: List.map fst m) by (apply elem_of_cons; right; exact Hin).
      apply Hlt, Forall_cons in Hin' as [_ Hlts]. exact Hlts.
Qed.

Lemma Map_set_Forall {V} (P : list N * V -> Prop) k v (m : Map.t V) :
  P (k, v) -> Forall P m -> Forall P (Map.set k v m).
Proof.
  intros Hp. induction m as [|[k' v'] m IH]; simpl.
  - intros _. constructor; [exact Hp|constructor].
  - intros [Hk' Hm]%Forall_cons. destruct (streq k' k).
    + constructor; assumption.
    + constructor; [exact Hk'|exact (IH Hm)].
Qed.

Lemma Map_delete_Forall {V} (P : list N * V -> Prop) k (m : Map.t V) :
  Forall P m -> Forall P (Map.delete k m).
Proof.
  induction m as [|[k' v'] m IH]; simpl; [auto|].
  intros [Hk' Hm]%Forall_cons. destruct (streq k' k); [exact Hm|].
  constructor; [exact Hk'|exact (IH Hm)].
Qed.

Lemma Map_delete_absent {V} (k : list N) (m : Map.t V) :
  Map.get k m = None -> Map.delete k m = m.
Proof.
  induction m as [|[k' v'] m IH]; simpl; [reflexivity|].
  destruct (streq k' k); [discriminate|]. intros Hg. rewrite (IH Hg). reflexivity.
Qed.

End Sorting.

Section JoinOrder.
Import SocketManager.
Context `{CaseMapping}.

Lemma passes_valid (n : list N) : passes n = true <-> validNickname n.
Proof.
  unfold passes, validNickname.
  destruct (result (UserManager.validateNickname n [])) as [e|[]];
    split; try reflexivity; discriminate.
Qed.

Lemma existsb_permutation {A} (p : A -> bool) (l k : list A) :
  Permutation l k -> existsb p l = existsb p k.
Proof.
  induction 1 as [|x l k _ IH|x y l|l k j _ IH1 _ IH2]; simpl.
  - reflexivity.
  - rewrite IH. reflexivity.
  - destruct (p x), (p y); reflexivity.
  - congruence.
Qed.

(** The specification accepts a join exactly when [addUser] does not
    throw. *)
Lemma accepted_sort (n : list N) (st : UserManager.t) :
  accepted n (sort UserManager.byJoinedAt (Map.values st))
  = passes n && negb (taken n st) && (Map.size st <? 50).
Proof.
  unfold accepted, taken, Map.size, len.
  rewrite (existsb_permutation _ _ _ (sort_permutation _ (Map.values st))).
  rewrite (Permutation_length (sort_permutation _ (Map.values st))).
  unfold Map.values. rewrite length_map. reflexivity.
Qed.

(** What a join request does to the listing, for a map whose users joined
    at earlier requests. *)
Lemma addUser_joinStep now k n (st : UserManager.t) (earlier : list JoinRequest) :
  NoDup (List.map fst st) ->
  Forall (fun e => User.id (snd e) = fst e
                   /\ exists j, In j earlier /\ joinSocket j = fst e
                                /\ joinTime j = User.joinedAt (snd e)) st ->
  Forall (fun e => if askedBefore k earlier then joinTime e < now
                   else joinTime e <= now) earlier ->
  sort UserManager.byJoinedAt
    (Map.values (state (UserManager.addUser now k n st)))
  = joinStep (sort UserManager.byJoinedAt (Map.values st))
             (Handle (JoinRoom now k n)).
Proof.
  intros Hnd Htr Hclock. cbn [joinStep]. rewrite accepted_sort.
  destruct (validateNickname_cases n) as [Hv|Hbad].
  2:{ assert (Hn : ~ validNickname n)
        by (unfold validNickname; rewrite Hbad; discriminate).
      rewrite addUser_invalid by exact Hn.
      destruct (passes n) eqn:Hp; [apply passes_valid in Hp; contradiction|].
      reflexivity. }
  rewrite addUser_valid by exact Hv.
  rewrite (proj2 (passes_valid n) Hv).
  destruct (taken n st); [reflexivity|].
  destruct (Z.geb_spec (Map.size st) 50) as [Hfull|Hroom].
  { rewrite (proj2 (Z.ltb_ge _ _)) by lia. reflexivity. }
  rewrite (proj2 (Z.ltb_lt _ _)) by lia. cbn [andb negb state snd].
  assert (Hwf : Forall (fun e : list N * User.t => User.id (snd e) = fst e) st)
    by (eapply Forall_impl; [exact Htr|]; intros e [He _]; exact He).
  apply sort_set; [exact Hnd|exact Hwf| |].
  - unfold Map.values. apply List.Forall_map.
    eapply Forall_impl; [exact Htr|]. intros e (_ & j & Hj & _ & Ht).
    rewrite List.Forall_forall in Hclock. specialize (Hclock j Hj).
    simpl. rewrite <- Ht. destruct (askedBefore k earlier); lia.
  - intros Hin. apply list_elem_of_In, in_map_iff in Hin as (e & Hk & He).
    assert (Hasked : askedBefore k earlier = true).
    { rewrite List.Forall_forall in Htr. destruct (Htr e He) as (_ & j & Hj & Hs & _).
      unfold askedBefore. apply existsb_exists. exists j.
      split; [exact Hj|]. apply streq_eq. congruence. }
    rewrite Hasked in Hclock.
    unfold Map.values. apply List.Forall_map.
    eapply Forall_impl; [exact Htr|]. intros e' (_ & j & Hj & _ & Ht).
    rewrite List.Forall_forall in Hclock. specialize (Hclock j Hj).
    simpl. rewrite <- Ht. exact Hclock.
Qed.

(** A join request keeps the keys apart and the users those of the
    requests made. *)
Lemma addUser_tracked now k n (st : UserManager.t) (earlier : list JoinRequest) :
  NoDup (List.map fst st) ->
  Forall (fun e => User.id (snd e) = fst e
                   /\ exists j, In j earlier /\ joinSocket j = fst e
                                /\ joinTime j = User.joinedAt (snd e)) st ->
  NoDup (List.map fst (state (UserManager.addUser now k n st)))
  /\ Forall (fun e => User.id (snd e) = fst e
                      /\ exists j, In j (earlier ++ [mkJoin now k n])
                                   /\ joinSocket j = fst e
                                   /\ joinTime j = User.joinedAt (snd e))
            (state (UserManager.addUser now k n st)).
Proof.
  intros Hnd Htr.
  assert (Htr' : Forall (fun e : list N * User.t =>
                           User.id (snd e) = fst e
                           /\ exists j, In j (earlier ++ [mkJoin now k n])
                                        /\ joinSocket j = fst e
                                        /\ joinTime j = User.joinedAt (snd e)) st).
  { eapply Forall_impl; [exact Htr|]. intros e (He & j & Hj & Hs & Ht).
    split; [exact He|]. exists j. split; [|split; assumption].
    apply in_or_app. left; exact Hj. }
  destruct (addUser_state now k n st) as [[e ->]| ->]; unfold state; cbn [snd].
  - split; assumption.
  - split; [apply Map_set_keys_NoDup; exact Hnd|].
    apply Map_set_Forall; [|exact Htr']. split; [reflexivity|].
    exists (mkJoin now k n). split; [|split; reflexivity].
    apply in_or_app. right. left; reflexivity.
Qed.

(** The listing follows the join order along a run, from every state
    whose users joined at earlier requests. *)
Lemma run_joinStep (xs : list Step) :
  forall (s : t) (earlier : list JoinRequest),
    NoDup (List.map fst (userManager s)) ->
    Forall (fun e => User.id (snd e) = fst e
                     /\ exists j, In j earlier /\ joinSocket j = fst e
                                  /\ joinTime j = User.joinedAt (snd e))
           (userManager s) ->
    clockMovesOn earlier (joinsOf xs) ->
    sort UserManager.byJoinedAt (Map.values (userManager (run xs s)))
    = fold_left joinStep xs
        (sort UserManager.byJoinedAt (Map.values (userManager s))).
Proof.
  induction xs as [|x xs IH]; intros s earlier Hnd Htr Hclock; [reflexivity|].
  change (run (x :: xs) s) with (run xs (state (step x s))).
  cbn [fold_left].
  destruct x as [[k|now k n|nowRate uuid nowMessage k message|now k]|r];
    cbn [joinsOf] in Hclock; cbn [step handle].
  - exact (IH (state (handleConnection k s)) earlier Hnd Htr Hclock).
  - destruct Hclock as [Hnow Hclock].
    assert (Hu : userManager (state (handleJoinRoom now k n s))
                 = state (UserManager.addUser now k n (userManager s))).
    { rewrite handleJoinRoom_eq.
      destruct (UserManager.addUser now k n (userManager s)) as [[e|u] users];
        reflexivity. }
    destruct (addUser_tracked now k n (userManager s) earlier Hnd Htr)
      as [Hnd' Htr'].
    rewrite <- (addUser_joinStep now k n (userManager s) earlier Hnd Htr Hnow).
    rewrite <- Hu in *. exact (IH _ _ Hnd' Htr' Hclock).
  - destruct (handleSendMessage_users nowRate uuid nowMessage k message s)
      as (e & ms' & rl' & E).
    rewrite E. unfold state at 1; cbn [snd].
    exact (IH (mk (userManager s) ms' rl' (emitted s ++ [e])) earlier Hnd Htr Hclock).
  - assert (Hu : userManager (state (handleDisconnect now k s))
                 = Map.delete k (userManager s)).
    { rewrite handleDisconnect_eq.
      destruct (Map.get k (userManager s)) eqn:Hg; unfold state; cbn [snd userManager];
        [reflexivity|]. symmetry. exact (Map_delete_absent _ _ Hg). }
    assert (Hwf : Forall (fun e : list N * User.t => User.id (snd e) = fst e)
                    (userManager s))
      by (eapply Forall_impl; [exact Htr|]; intros e [He _]; exact He).
    cbn [joinStep]. rewrite <- (sort_delete k (userManager s) Hnd Hwf), <- Hu.
    apply (IH _ earlier); [| |exact Hclock]; rewrite Hu.
    + apply Map_delete_NoDup; exact Hnd.
    + apply Map_delete_Forall; exact Htr.
  - rewrite read_unchanged. exact (IH s earlier Hnd Htr Hclock).
Qed.


End JoinOrder.



(* ===================================================================== *)
(** * Part 3: what else the code guarantees                               *)
(* ===================================================================== *)

Import Notions.

(** ** Escaping *)

Section Escaping.
Import MessageStore.

Lemma escapeChar_cases (c : N) :
  (escapeChar c = [c] /\ c <> 38 /\ markup c = false)%N
  \/ (c = 38%N /\ escapeChar c = str "&amp;")
  \/ (c = 60%N /\ escapeChar c = str "&lt;")
  \/ (c = 62%N /\ escapeChar c = str "&gt;")
  \/ (c = 34%N /\ escapeChar c = str "&quot;")
  \/ (c = 39%N /\ escapeChar c = str "&#x27;")
  \/ (c = 47%N /\ escapeChar c = str "&#x2F;").
Proof.
  unfold escapeChar, markup.
  destruct (N.eqb_spec c 38) as [->|H38]; [tauto|].
  destruct (N.eqb_spec c 60) as [->|H60]; [tauto|].
  destruct (N.eqb_spec c 62) as [->|H62]; [tauto|].
  destruct (N.eqb_spec c 34) as [->|H34]; [tauto|].
  destruct (N.eqb_spec c 39) as [->|H39]; [tauto|].
  destruct (N.eqb_spec c 47) as [->|H47]; [tauto|].
  left. auto.
Qed.

Lemma escapeChar_no_markup (c : N) :
  forallb (fun c => negb (markup c)) (escapeChar c) = true.
Proof.
  destruct (escapeChar_cases c)
    as [(-> & _ & Hm)|[(_ & ->)|[(_ & ->)|[(_ & ->)|[(_ & ->)|[(_ & ->)|(_ & ->)]]]]]];
    try reflexivity.
  simpl. rewrite Hm. reflexivity.
Qed.

Lemma escapeChar_length (c : N) : 1 <= len (escapeChar c) <= 6.
Proof.
  destruct (escapeChar_cases c)
    as [(-> & _ & _)|[(_ & ->)|[(_ & ->)|[(_ & ->)|[(_ & ->)|[(_ & ->)|(_ & ->)]]]]]];
    vm_compute; split; discriminate.
Qed.

Lemma escapeChar_control (c : N) :
  isInvalidChar c = false ->
  forallb (fun c => negb (isInvalidChar c)) (escapeChar c) = true.
Proof.
  intros Hc.
  destruct (escapeChar_cases c)
    as [(-> & _ & _)|[(_ & ->)|[(_ & ->)|[(_ & ->)|[(_ & ->)|[(_ & ->)|(_ & ->)]]]]]];
    try reflexivity.
  simpl. rewrite Hc. reflexivity.
Qed.

Lemma escaped_no_markup (s : list N) :
  forallb (fun c => negb (markup c)) (List.flat_map escapeChar s) = true.
Proof.
  induction s as [|c s IH]; [reflexivity|]. simpl flat_map.
  rewrite forallb_app, escapeChar_no_markup, IH. reflexivity.
Qed.

Lemma escaped_length (s : list N) :
  len s <= len (List.flat_map escapeChar s) <= 6 * len s.
Proof.
  induction s as [|c s IH]; [unfold len; simpl; lia|]. simpl flat_map.
  pose proof (escapeChar_length c) as Hc. rewrite len_app.
  unfold len in *. simpl length. lia.
Qed.

Lemma escaped_control (s : list N) :
  forallb (fun c => negb (isInvalidChar c)) s = true ->
  forallb (fun c => negb (isInvalidChar c)) (List.flat_map escapeChar s) = true.
Proof.
  induction s as [|c s IH]; [reflexivity|]. simpl.
  intros [Hc Hs]%andb_true_iff. apply negb_true_iff in Hc.
  rewrite forallb_app, (escapeChar_control c Hc), (IH Hs). reflexivity.
Qed.

(** X1: whatever the input, the output of [sanitizeMessage] holds none of
    the characters [<], [>], double quote, single quote and [/]; it is
    never shorter than the input and at most six times as long. *)
Theorem sanitizeMessage_no_markup (s : list N) :
  forallb (fun c => negb (markup c)) (sanitizeMessage s) = true
  /\ len s <= len (sanitizeMessage s) <= 6 * len s.
Proof.
  rewrite sanitizeMessage_flat_map. split.
  - apply escaped_no_markup.
  - apply escaped_length.
Qed.

(** The replacements begin with an ampersand and none begins another. *)
Lemma escapeChar_prefix_free (c d : N) (r t : list N) :
  escapeChar c ++ r = escapeChar d ++ t -> c = d /\ r = t.
Proof.
  destruct (escapeChar_cases c)
    as [(-> & Hc & _)|[(-> & ->)|[(-> & ->)|[(-> & ->)|[(-> & ->)|[(-> & ->)|(-> & ->)]]]]]];
  destruct (escapeChar_cases d)
    as [(-> & Hd & _)|[(-> & ->)|[(-> & ->)|[(-> & ->)|[(-> & ->)|[(-> & ->)|(-> & ->)]]]]]];
  intros E; cbv in E; split; congruence.
Qed.

(** X2: [sanitizeMessage] loses nothing: two different bodies are stored
    as two different bodies. *)
Theorem sanitizeMessage_injective (a b : list N) :
  a <> b -> sanitizeMessage a <> sanitizeMessage b.
Proof.
  rewrite !sanitizeMessage_flat_map. intros Hne E. apply Hne. clear Hne.
  revert b E. induction a as [|c a IH]; intros [|d b] E.
  - reflexivity.
  - exfalso. simpl in E. pose proof (escapeChar_length d) as Hd.
    apply (f_equal len) in E. rewrite len_app in E.
    pose proof (len_nonneg (flat_map escapeChar b)). unfold len in *. simpl in E. lia.
  - exfalso. simpl in E. pose proof (escapeChar_length c) as Hc.
    apply (f_equal len) in E. rewrite len_app in E.
    pose proof (len_nonneg (flat_map escapeChar a)). unfold len in *. simpl in E. lia.
  - simpl in E. apply escapeChar_prefix_free in E as [-> E].
    f_equal. exact (IH b E).
Qed.

Lemma sanitizeMessage_injective_witness :
  str "<" <> str "&lt;"
  /\ sanitizeMessage (str "<") <> sanitizeMessage (str "&lt;").
Proof.
  assert (H : str "<" <> str "&lt;") by (vm_compute; discriminate).
  split; [exact H|]. exact (sanitizeMessage_injective _ _ H).
Defined.

Lemma forallb_trimStart (p : N -> bool) (s : list N) :
  forallb p s = true -> forallb p (trimStart s) = true.
Proof.
  induction s as [|c s IH]; [reflexivity|]. simpl.
  intros [Hc Hs]%andb_true_iff.
  destruct (isWhiteSpace c); [exact (IH Hs)|]. simpl. rewrite Hc, Hs. reflexivity.
Qed.

(** Trimming only removes code units. *)
Lemma forallb_trim (p : N -> bool) (s : list N) :
  forallb p s = true -> forallb p (trim s) = true.
Proof.
  intros Hs. unfold trim, trimEnd. rewrite forallb_rev.
  apply forallb_trimStart. rewrite forallb_rev.
  apply forallb_trimStart. exact Hs.
Qed.

Lemma created_stored (cs : list Call) (m : Message.t) :
  In m (created cs) -> storedBody (Message.message m).
Proof.
  induction cs as [|c cs IH]; simpl; [contradiction|].
  destruct c as [uuid now userId nickname message| | | | | |]; try exact IH.
  destruct (rejects message) eqn:Hr; [exact IH|].
  intros [<-|Hin]; [|exact (IH Hin)].
  unfold rejects in Hr. apply orb_false_iff in Hr as [Hr Hmax].
  apply orb_false_iff in Hr as [Hctl Hmin].
  apply Z.ltb_ge in Hmin. rewrite Z.gtb_ltb in Hmax. apply Z.ltb_ge in Hmax.
  assert (Hclean : forallb (fun c => negb (isInvalidChar c)) message = true).
  { clear -Hctl. induction message as [|c s IH]; [reflexivity|]. simpl in *.
    apply orb_false_iff in Hctl as [-> Hs]. simpl. exact (IH Hs). }
  unfold storedBody, messageOf; simpl.
  pose proof (escaped_length (trim message)) as Hl.
  repeat split; try lia.
  - apply escaped_no_markup.
  - apply escaped_control, forallb_trim, Hclean.
Qed.

Lemma In_lastN {A} (n : nat) (l : list A) (x : A) : In x (lastN n l) -> In x l.
Proof.
  unfold lastN. intros Hin. rewrite <- (take_drop (length l - n) l).
  apply in_or_app. right. exact Hin.
Qed.

End Escaping.

Section LogInvariant.
Import MessageStore.
Context `{CaseMapping}.

(** X3: after any sequence of calls on a new store, the body of every
    message of the log has between 1 and 3000 code units, none of the
    characters [<], [>], double quote, single quote and [/], and no
    forbidden control character. *)
Theorem log_bodies_safe (cs : list Call) (m : Message.t) :
  In m (calls cs []) -> storedBody (Message.message m).
Proof.
  intros Hin. apply (created_stored cs).
  rewrite (calls_lastN cs []) in Hin. exact (In_lastN _ _ _ Hin).
Qed.

End LogInvariant.

Lemma log_bodies_safe_witness :
  let cs := [MessageStore.AddMessage (str "id-1") 1 (str "s1") (str "bob")
               (str "<script>alert('x')</script>")] in
  let m := messageOf (str "id-1") 1 (str "s1") (str "bob")
             (str "<script>alert('x')</script>") in
  In m (MessageStore.calls cs []) /\ storedBody (Message.message m).
Proof.
  intros cs m.
  assert (Hin : In m (MessageStore.calls cs [])) by (vm_compute; left; reflexivity).
  split; [exact Hin|]. exact (log_bodies_safe cs m Hin).
Defined.

(** ** Reading the log *)

Section ReadingTheLog.
Import MessageStore.
Context `{CaseMapping}.

Lemma getUserMessages_eq (userId : list N) (limit : Z) (st : t) :
  getUserMessages userId limit st
  = (inr (slice (- limit)
            (List.filter (fun msg => streq (Message.userId msg) userId) st)),
     st).
Proof. reflexivity. Qed.

(** X4: for a limit of at least 1, [getUserMessages] returns the last
    [limit] messages of the user, oldest first: at most [limit] messages,
    each of the log and each sent by that user; the log is not changed. *)
Theorem getUserMessages_own (userId : list N) (limit : Z) (st : t) :
  1 <= limit ->
  exists ms,
    getUserMessages userId limit st = (inr ms, st)
    /\ ms = lastN (Z.to_nat limit)
              (List.filter (fun msg => streq (Message.userId msg) userId) st)
    /\ len ms <= limit
    /\ forall m, In m ms -> Message.userId m = userId /\ In m st.
Proof.
  intros Hl. eexists. split; [|split; [reflexivity|split]].
  - rewrite getUserMessages_eq, slice_last by lia. reflexivity.
  - unfold len. rewrite lastN_length. lia.
  - intros m Hin%In_lastN. apply filter_In in Hin as [Hin Hu].
    apply streq_eq in Hu. split; assumption.
Qed.

Lemma slice_positive {A} (k : Z) (a : list A) :
  0 <= k -> slice k a = drop (Z.to_nat k) a.
Proof.
  intros Hk. unfold slice, len. destruct (Z.ltb_spec k 0); [lia|].
  destruct (Z.le_gt_cases k (Z.of_nat (length a))).
  - rewrite Z.min_l by lia. reflexivity.
  - rewrite Z.min_r by lia. rewrite Nat2Z.id.
    rewrite !drop_ge by lia. reflexivity.
Qed.

(** X5: a limit of 0 does not give an empty result: [getUserMessages] and
    [searchMessages] then return every match, and with a limit of [-k]
    they return the matches without the first [k]; [getRecentMessages]
    clamps its limit and returns the last message for any limit below 1. *)
Theorem limit_below_one (k : Z) (st : t) :
  0 <= k ->
  (forall userId,
      result (getUserMessages userId (- k) st)
      = inr (drop (Z.to_nat k)
               (List.filter (fun msg => streq (Message.userId msg) userId) st)))
  /\ (forall term,
         trim term <> [] ->
         result (searchMessages term (- k) st)
         = inr (drop (Z.to_nat k) (List.filter (matches term) st)))
  /\ (forall m, result (getRecentMessages (- k) (st ++ [m])) = inr [m]).
Proof.
  intros Hk. split; [|split].
  - intros userId. rewrite getUserMessages_eq. unfold result; simpl fst.
    rewrite Z.opp_involutive, slice_positive by exact Hk. reflexivity.
  - intros term Hb. rewrite searchMessages_filter by exact Hb.
    unfold result; simpl fst.
    rewrite Z.opp_involutive, slice_positive by exact Hk. reflexivity.
  - intros m. rewrite getRecentMessages_eq. unfold result; simpl fst.
    rewrite Z.max_l by lia.
    rewrite Z.min_l by (unfold len; rewrite length_app; simpl; lia).
    change (Z.to_nat 1) with 1%nat. rewrite (lastN_snoc 0).
    unfold lastN. rewrite Nat.sub_0_r, drop_all. reflexivity.
Qed.

Lemma count_total (a b : Z) (l : list Message.t) (acc : Object.t * Z) :
  (forall m, In m l -> a <= len (Message.message m) <= b) ->
  snd acc + a * len l <= snd (fold_left count l acc) <= snd acc + b * len l.
Proof.
  revert acc. induction l as [|m l IH]; intros acc Hl.
  - unfold len; simpl; lia.
  - simpl fold_left.
    assert (Hm : a <= len (Message.message m) <= b) by (apply Hl; left; reflexivity).
    assert (Hl' : forall m', In m' l -> a <= len (Message.message m') <= b)
      by (intros m' Hin; apply Hl; right; exact Hin).
    specialize (IH (count acc m) Hl').
    assert (Hc : snd (count acc m) = snd acc + len (Message.message m))
      by (destruct acc; reflexivity).
    rewrite Hc in IH. unfold len in *. simpl length. nia.
Qed.

(** X6: on an empty log [getStatistics] returns zeros and no dates; on
    the log left by any sequence of calls on a new store it returns the
    number of messages, between 1 and 100, the times of the first and of
    the last message of the log, and an average length between 1 and
    3000. *)
Theorem getStatistics_bounds (cs : list Call) :
  getStatistics [] = (inr (Statistics.mk 0 None None 0 ∅), [])
  /\ (calls cs [] <> [] ->
      exists stats,
        getStatistics (calls cs []) = (inr stats, calls cs [])
        /\ Statistics.totalMessages stats = len (calls cs [])
        /\ 1 <= Statistics.totalMessages stats <= 100
        /\ Statistics.oldestMessage stats
           = Message.timestamp <$> head (calls cs [])
        /\ Statistics.newestMessage stats
           = Message.timestamp <$> last (calls cs [])
        /\ 1 <= Statistics.averageMessageLength stats <= 3000).
Proof.
  split; [reflexivity|]. intros Hne.
  set (st := calls cs []) in *.
  assert (Hlen : 1 <= len st <= 100).
  { split.
    - destruct st; [contradiction|]. unfold len; simpl; lia.
    - unfold st, len. rewrite (calls_lastN cs []), lastN_length. lia. }
  assert (Hb : forall m, In m st -> 1 <= len (Message.message m) <= 3000).
  { intros m Hin. unfold st in Hin. rewrite (calls_lastN cs []) in Hin.
    apply In_lastN in Hin. apply created_stored in Hin as [Hin _]. exact Hin. }
  pose proof (count_total 1 3000 st (∅, 0) Hb) as Ht. simpl snd in Ht.
  unfold getStatistics, bind, get, ret.
  destruct (Z.eqb_spec (len st) 0) as [E|_]; [lia|].
  destruct (fold_left count st (∅, 0)) as [counts total]. simpl snd in Ht.
  eexists. split; [reflexivity|]. simpl.
  repeat split; try lia.
  - unfold roundDiv. apply Z.div_le_lower_bound; lia.
  - unfold roundDiv. apply Z.lt_succ_r. apply Z.div_lt_upper_bound; lia.
Qed.

End ReadingTheLog.

Lemma getUserMessages_own_witness :
  let st := MessageStore.calls
              [MessageStore.AddMessage (str "id-1") 1 (str "s1") (str "bob") (str "one");
               MessageStore.AddMessage (str "id-2") 2 (str "s2") (str "eve") (str "two");
               MessageStore.AddMessage (str "id-3") 3 (str "s1") (str "bob") (str "three")]
              [] in
  1 <= 1
  /\ exists ms,
      MessageStore.getUserMessages (str "s1") 1 st = (inr ms, st)
      /\ ms = lastN (Z.to_nat 1)
                (List.filter (fun msg => streq (Message.userId msg) (str "s1")) st)
      /\ len ms <= 1
      /\ forall m, In m ms -> Message.userId m = str "s1" /\ In m st.
Proof.
  intros st. assert (Hl : 1 <= 1) by lia.
  split; [exact Hl|]. exact (getUserMessages_own (str "s1") 1 st Hl).
Defined.

Lemma limit_below_one_witness :
  let st := MessageStore.calls
              [MessageStore.AddMessage (str "id-1") 1 (str "s1") (str "bob") (str "one");
               MessageStore.AddMessage (str "id-2") 2 (str "s1") (str "bob") (str "two")]
              [] in
  0 <= 0 /\ trim (str "o") <> []
  /\ result (MessageStore.searchMessages (str "o") (- 0) st)
     = inr (drop (Z.to_nat 0) (List.filter (matches (str "o")) st)).
Proof.
  intros st. assert (Hk : 0 <= 0) by lia.
  assert (Hb : trim (str "o") <> []) by (vm_compute; discriminate).
  split; [exact Hk|]. split; [exact Hb|].
  exact (proj1 (proj2 (limit_below_one 0 st Hk)) (str "o") Hb).
Defined.

Lemma getStatistics_bounds_witness :
  let cs := [MessageStore.AddMessage (str "id-1") 1 (str "s1") (str "bob") (str "one");
             MessageStore.AddMessage (str "id-2") 2 (str "s1") (str "bob") (str "</b>")] in
  MessageStore.calls cs [] <> []
  /\ exists stats,
      MessageStore.getStatistics (MessageStore.calls cs [])
      = (inr stats, MessageStore.calls cs [])
      /\ Statistics.totalMessages stats = len (MessageStore.calls cs [])
      /\ 1 <= Statistics.totalMessages stats <= 100
      /\ Statistics.oldestMessage stats
         = Message.timestamp <$> head (MessageStore.calls cs [])
      /\ Statistics.newestMessage stats
         = Message.timestamp <$> last (MessageStore.calls cs [])
      /\ 1 <= Statistics.averageMessageLength stats <= 3000.
Proof.
  intros cs.
  assert (Hne : MessageStore.calls cs [] <> []) by (vm_compute; discriminate).
  split; [exact Hne|]. exact (proj2 (getStatistics_bounds cs) Hne).
Defined.

(** ** The counters of the statistics *)

Section Counting.
Import MessageStore.

Lemma increment_other (n name : list N) (o : Object.t) :
  n <> name -> Object.increment n o !! name = o !! name.
Proof.
  intros Hne. unfold Object.increment, Object.t in *.
  destruct (o !! n) as [[m|[|c r]]|];
    try (rewrite lookup_insert_ne by exact Hne; reflexivity).
  destruct (Object.inherited n) as [text|];
    [destruct (streq n (str "__proto__")); [reflexivity|]|];
    rewrite lookup_insert_ne by exact Hne; reflexivity.
Qed.

(** What holds of the counter of a name at the start and after every
    message under the name holds at the end of the loop. *)
Lemma fold_count_lookup (name : list N) (P : nat -> option Object.Value -> Prop) :
  (forall j o, P j (o !! name) -> P (S j) (Object.increment name o !! name)) ->
  forall (l : list Message.t) (o : Object.t) (total : Z) (j : nat),
    P j (o !! name) ->
    P (j + sentAs name l)%nat (fst (fold_left count l (o, total)) !! name).
Proof.
  intros Hstep. induction l as [|m l IH]; intros o total j Hj.
  - unfold sentAs. simpl. rewrite Nat.add_0_r. exact Hj.
  - cbn [fold_left count]. unfold sentAs. cbn [List.filter].
    destruct (streq (Message.nickname m) name) eqn:E.
    + apply streq_eq in E. rewrite E. cbn [length].
      rewrite Nat.add_succ_r. apply (IH _ _ (S j)), Hstep, Hj.
    + apply streq_neq in E. apply (IH _ _ j).
      rewrite increment_other by exact E. exact Hj.
Qed.

Lemma ones_snoc (k : nat) : ones (S k) = ones k ++ str "1".
Proof. unfold ones. exact (repeat_cons k 49%N). Qed.

(** X29: the table [userMessageCounts] that [getStatistics] returns for
    a log that is not empty.  Under a nickname that names nothing an
    object inherits it holds the number of the messages of the log sent
    under that nickname, and nothing when there is none.  Under
    [__proto__] it holds nothing, however many messages there are.  Under
    a nickname that names another inherited property, as [constructor]
    or [toString], it holds no number but a string: the text of the
    inherited value followed by one [1] for each message. *)
Theorem getStatistics_counts (st : t) (name : list N) :
  st <> [] ->
  exists stats,
    getStatistics st = (inr stats, st)
    /\ (Object.inherited name = None ->
        Statistics.userMessageCounts stats !! name
        = match sentAs name st with
          | O => None
          | S _ => Some (Object.Num (Z.of_nat (sentAs name st)))
          end)
    /\ (name = str "__proto__" ->
        Statistics.userMessageCounts stats !! name = None)
    /\ (forall text,
          Object.inherited name = Some text -> name <> str "__proto__" ->
          Statistics.userMessageCounts stats !! name
          = match sentAs name st with
            | O => None
            | S _ => Some (Object.Text (text ++ ones (sentAs name st)))
            end).
Proof.
  intros Hne. unfold getStatistics, bind, get, ret.
  destruct (Z.eqb_spec (len st) 0) as [E|_];
    [apply len_zero in E; contradiction|].
  destruct (fold_left count st (∅, 0)) as [counts total] eqn:Ef.
  eexists. split; [reflexivity|]. cbn [Statistics.userMessageCounts].
  change counts with (fst (counts, total)). rewrite <- Ef.
  split; [|split].
  - intros Hi.
    refine (fold_count_lookup name
             (fun j v => v = match j with
                             | O => None
                             | S _ => Some (Object.Num (Z.of_nat j))
                             end) _ st ∅ 0 0%nat _);
      [|apply lookup_empty].
    intros j o Hj. unfold Object.increment, Object.t in *. rewrite Hj.
    destruct j as [|j]; [rewrite Hi|]; rewrite lookup_insert_eq; do 2 f_equal; lia.
  - intros ->.
    refine (fold_count_lookup (str "__proto__") (fun _ v => v = None)
              _ st ∅ 0 0%nat _); [|apply lookup_empty].
    intros j o Hj. unfold Object.increment, Object.t in *. rewrite Hj. exact Hj.
  - intros text Hi Hp.
    refine (fold_count_lookup name
             (fun j v => v = match j with
                             | O => None
                             | S _ => Some (Object.Text (text ++ ones j))
                             end) _ st ∅ 0 0%nat _);
      [|apply lookup_empty].
    intros j o Hj. unfold Object.increment, Object.t in *. rewrite Hj.
    destruct j as [|j].
    + rewrite Hi, (proj2 (streq_neq _ _) Hp), lookup_insert_eq. reflexivity.
    + destruct (text ++ ones (S j)) as [|c r] eqn:Et.
      * apply app_eq_nil in Et as [_ Et]. discriminate Et.
      * rewrite lookup_insert_eq, <- Et, (ones_snoc (S j)), app_assoc. reflexivity.
Qed.

End Counting.

Lemma getStatistics_counts_witness :
  let st := MessageStore.calls
              [MessageStore.AddMessage (str "id-1") 1 (str "s1") (str "bob") (str "one");
               MessageStore.AddMessage (str "id-2") 2 (str "s2") (str "constructor")
                 (str "two");
               MessageStore.AddMessage (str "id-3") 3 (str "s1") (str "bob") (str "three");
               MessageStore.AddMessage (str "id-4") 4 (str "s3") (str "__proto__")
                 (str "four")]
              [] in
  st <> []
  /\ exists stats,
      MessageStore.getStatistics st = (inr stats, st)
      /\ Statistics.userMessageCounts stats !! str "bob" = Some (Object.Num 2)
      /\ Statistics.userMessageCounts stats !! str "__proto__" = None
      /\ Statistics.userMessageCounts stats !! str "constructor"
         = Some (Object.Text (str "function Object() { [native code] }1")).
Proof.
  intros st.
  assert (Hne : st <> []) by (vm_compute; discriminate).
  split; [exact Hne|].
  destruct (getStatistics_counts st (str "bob") Hne) as (stats & E & Hb & _).
  exists stats. split; [exact E|].
  split; [exact (Hb eq_refl)|].
  destruct (getStatistics_counts st (str "__proto__") Hne) as (stats1 & E1 & _ & Hp & _).
  destruct (getStatistics_counts st (str "constructor") Hne)
    as (stats2 & E2 & _ & _ & Hc).
  assert (E1' : stats1 = stats) by congruence.
  assert (E2' : stats2 = stats) by congruence.
  subst stats1 stats2.
  split; [exact (Hp eq_refl)|].
  refine (Hc _ eq_refl _). vm_compute. discriminate.
Defined.

(** ** Nicknames *)

Section Nicknames.
Import UserManager.

Lemma trimStart_split (s : list N) :
  exists w, blank w /\ s = w ++ trimStart s.
Proof.
  unfold blank. induction s as [|c s (w & Hw & E)]; [exists []; split; reflexivity|].
  simpl. destruct (isWhiteSpace c) eqn:Hc.
  - exists (c :: w). simpl. rewrite Hc, Hw. split; [reflexivity|].
    f_equal. exact E.
  - exists []. split; reflexivity.
Qed.

Lemma trimEnd_split (s : list N) :
  exists w, blank w /\ s = trimEnd s ++ w.
Proof.
  unfold trimEnd. destruct (trimStart_split (rev s)) as (w & Hw & E).
  exists (rev w). split.
  - unfold blank in *. rewrite forallb_rev. exact Hw.
  - apply (f_equal (@rev N)) in E.
    rewrite rev_involutive, rev_app_distr in E. exact E.
Qed.

Lemma headOk_trimStart (s : list N) : headOk (trimStart s) = true.
Proof.
  destruct (trimStart s) as [|c r] eqn:E; [reflexivity|].
  simpl. rewrite (trimStart_head _ _ _ E). reflexivity.
Qed.

Lemma headOk_app (a b : list N) : headOk (a ++ b) = true -> headOk a = true.
Proof. destruct a; [reflexivity|exact id]. Qed.

Lemma trimStart_fixed (s : list N) : headOk s = true -> trimStart s = s.
Proof.
  destruct s as [|c r]; [reflexivity|]. simpl.
  intros Hc%negb_true_iff. rewrite Hc. reflexivity.
Qed.

(** Nothing is left to trim at either end of a trimmed string. *)
Lemma trim_ends (s : list N) :
  headOk (trim s) = true /\ headOk (rev (trim s)) = true.
Proof.
  unfold trim. split.
  - destruct (trimEnd_split (trimStart s)) as (w & _ & E).
    apply (headOk_app _ w). rewrite <- E. apply headOk_trimStart.
  - unfold trimEnd. rewrite rev_involutive. apply headOk_trimStart.
Qed.

Lemma trim_fixed (s : list N) :
  headOk s = true -> headOk (rev s) = true -> trim s = s.
Proof.
  intros Hh Hl. unfold trim, trimEnd.
  rewrite (trimStart_fixed s Hh), (trimStart_fixed (rev s) Hl).
  apply rev_involutive.
Qed.

Lemma trim_idempotent (s : list N) : trim (trim s) = trim s.
Proof. destruct (trim_ends s). apply trim_fixed; assumption. Qed.

Lemma singleSpaces_app (a b : list N) :
  singleSpaces (a ++ b) = true ->
  singleSpaces a = true /\ singleSpaces b = true.
Proof.
  induction a as [|c a IH]; simpl; [tauto|].
  intros [Hc Hr]%andb_true_iff. destruct (IH Hr) as [Ha Hb].
  split; [|exact Hb]. rewrite Ha, andb_true_r.
  destruct (isWhiteSpace c); [|reflexivity].
  apply andb_true_iff in Hc as [-> Hh]. simpl. exact (headOk_app _ _ Hh).
Qed.

Lemma collapseSpaces_single (b : bool) (s : list N) :
  singleSpaces (collapseSpaces b s) = true
  /\ (b = true -> headOk (collapseSpaces b s) = true).
Proof.
  revert b. induction s as [|c s IH]; intros b; [split; reflexivity|].
  simpl. destruct (isWhiteSpace c) eqn:Hc.
  - destruct (IH true) as [Hs Hh]. destruct b; [split; [exact Hs|exact Hh]|].
    split; [|discriminate]. simpl. rewrite (Hh eq_refl), Hs. reflexivity.
  - destruct (IH false) as [Hs _]. simpl. rewrite Hc, Hs.
    split; reflexivity.
Qed.

Lemma singleSpaces_trim (s : list N) :
  singleSpaces s = true -> singleSpaces (trim s) = true.
Proof.
  intros Hs. unfold trim.
  destruct (trimStart_split s) as (w & _ & E).
  rewrite E in Hs. apply singleSpaces_app in Hs as [_ Hs].
  destruct (trimEnd_split (trimStart s)) as (w' & _ & E').
  rewrite E' in Hs. apply singleSpaces_app in Hs as [Hs _]. exact Hs.
Qed.

(** The four tests of [validateNickname], one by one. *)
Lemma validNickname_tests (n : list N) :
  validNickname n
  <-> len n <> 0
      /\ 1 <= len (trim n) <= 20
      /\ validPattern (trim n) = true
      /\ trim n = trim (collapseSpaces false n).
Proof.
  unfold validNickname, validateNickname, throw, ret, result.
  unfold ValidationConstraints.NICKNAME_MIN_LENGTH,
    ValidationConstraints.NICKNAME_MAX_LENGTH.
  destruct (Z.eqb_spec (len n) 0) as [E|E]; simpl.
  { split; [discriminate|]. intros [Hn _]. contradiction. }
  destruct (Z.ltb_spec (len (trim n)) 1) as [Hmin|Hmin]; simpl.
  { split; [discriminate|]. intros (_ & Hl & _). lia. }
  destruct (Z.gtb_spec (len (trim n)) 20) as [Hmax|Hmax]; simpl.
  { split; [discriminate|]. intros (_ & Hl & _). lia. }
  destruct (validPattern (trim n)) eqn:Hp; simpl.
  2:{ split; [discriminate|]. intros (_ & _ & Hp' & _). discriminate. }
  destruct (streq (trim n) (trim (collapseSpaces false n))) eqn:Hs; simpl.
  - apply streq_eq in Hs. split; [|reflexivity].
    intros _. repeat split; try assumption; lia.
  - apply streq_neq in Hs. split; [discriminate|].
    intros (_ & _ & _ & Hc). contradiction.
Qed.

Lemma validPattern_forallb (s : list N) :
  validPattern s = true <-> s <> [] /\ forallb isNicknameChar s = true.
Proof.
  destruct s as [|c r]; simpl.
  - split; [discriminate|]. intros [Hn _]. contradiction.
  - split; [intros Hp; split; [discriminate|exact Hp]|intros [_ Hp]; exact Hp].
Qed.

Lemma validNickname_normal (n : list N) :
  validNickname n -> normalNickname (trim n).
Proof.
  intros (_ & Hl & Hp & Hc)%validNickname_tests.
  apply validPattern_forallb in Hp as [_ Hp].
  destruct (trim_ends n) as [Hh Ht].
  repeat split; try assumption; try lia.
  rewrite Hc. apply singleSpaces_trim.
  exact (proj1 (collapseSpaces_single false n)).
Qed.

Lemma collapseSpaces_fixed (s : list N) :
  singleSpaces s = true ->
  collapseSpaces false s = s
  /\ (headOk s = true -> collapseSpaces true s = s).
Proof.
  induction s as [|c s IH]; [split; reflexivity|].
  simpl. intros [Hc Hs]%andb_true_iff. destruct (IH Hs) as [IHf IHt].
  destruct (isWhiteSpace c) eqn:Hw; simpl.
  - apply andb_true_iff in Hc as [Hc Hh]. apply N.eqb_eq in Hc. subst c.
    split; [|discriminate]. rewrite (IHt Hh). reflexivity.
  - rewrite IHf. split; reflexivity.
Qed.

Lemma normalNickname_valid (s : list N) : normalNickname s -> validNickname s.
Proof.
  intros (Hl & Hp & Hs & Hh & Ht).
  assert (E : trim s = s) by (apply trim_fixed; assumption).
  apply validNickname_tests. rewrite E.
  rewrite (proj1 (collapseSpaces_fixed s Hs)), E.
  repeat split; try lia.
  apply validPattern_forallb. split; [|exact Hp].
  intros ->. unfold len in Hl; simpl in Hl; lia.
Qed.

(** X7: the nickname [addUser] keeps for a nickname that passes
    [validateNickname] is in normal form: 1 to 20 code units of the
    allowed class, no white space at either end and only single spaces
    inside; trimming it again changes nothing and it passes
    [validateNickname] itself. *)
Theorem validateNickname_normal_form (n : list N) :
  validNickname n ->
  normalNickname (trim n)
  /\ trim (trim n) = trim n
  /\ validNickname (trim n).
Proof.
  intros Hv. pose proof (validNickname_normal n Hv) as Hn.
  split; [exact Hn|]. split; [apply trim_idempotent|].
  apply normalNickname_valid, Hn.
Qed.

Lemma validateNickname_normal_form_witness :
  validNickname (str "  Bob Smith ")
  /\ normalNickname (trim (str "  Bob Smith "))
  /\ validNickname (trim (str "  Bob Smith ")).
Proof.
  assert (Hv : validNickname (str "  Bob Smith ")) by (vm_compute; reflexivity).
  destruct (validateNickname_normal_form _ Hv) as (Hn & _ & Hv').
  split; [exact Hv|]. split; [exact Hn|exact Hv'].
Defined.

End Nicknames.

Section Padding.
Import UserManager.
Context `{CaseMapping}.

Lemma trimStart_blank_app (w x : list N) :
  blank w -> trimStart (w ++ x) = trimStart x.
Proof.
  unfold blank. induction w as [|c w IH]; [reflexivity|]. simpl.
  intros [-> Hw]%andb_true_iff. exact (IH Hw).
Qed.

Lemma trimStart_app (a b : list N) :
  trimStart a <> [] -> trimStart (a ++ b) = trimStart a ++ b.
Proof.
  induction a as [|c a IH]; simpl; [congruence|].
  destruct (isWhiteSpace c); [exact IH|reflexivity].
Qed.

Lemma trimEnd_app_blank (x w : list N) :
  blank w -> trimEnd (x ++ w) = trimEnd x.
Proof.
  intros Hw. unfold trimEnd. rewrite rev_app_distr, trimStart_blank_app.
  - reflexivity.
  - unfold blank in *. rewrite forallb_rev. exact Hw.
Qed.

Lemma trim_app_blank (x w : list N) : blank w -> trim (x ++ w) = trim x.
Proof.
  intros Hw. unfold trim. destruct (trimStart x) as [|c r] eqn:E.
  - assert (Hx : blank (x ++ w)).
    { unfold blank in *. rewrite forallb_app, Hw, andb_true_r.
      apply trimStart_blank. exact E. }
    apply trimStart_blank in Hx. rewrite Hx. reflexivity.
  - rewrite trimStart_app by (rewrite E; discriminate).
    rewrite E. apply trimEnd_app_blank. exact Hw.
Qed.

Lemma trim_blank_app (w x : list N) : blank w -> trim (w ++ x) = trim x.
Proof. intros Hw. unfold trim. rewrite trimStart_blank_app by exact Hw. reflexivity. Qed.

Lemma collapseSpaces_blank (b : bool) (w : list N) :
  blank w -> blank (collapseSpaces b w).
Proof.
  unfold blank. revert b. induction w as [|c w IH]; intros b; [reflexivity|].
  simpl. intros [Hc Hw]%andb_true_iff. rewrite Hc.
  destruct b; [exact (IH true Hw)|]. simpl. exact (IH true Hw).
Qed.

Lemma collapseSpaces_app_blank (b : bool) (y w : list N) :
  blank w ->
  exists t, blank t /\ collapseSpaces b (y ++ w) = collapseSpaces b y ++ t.
Proof.
  intros Hw. revert b. induction y as [|c y IH]; intros b.
  - exists (collapseSpaces b w). split; [apply collapseSpaces_blank, Hw|reflexivity].
  - simpl. destruct (isWhiteSpace c).
    + destruct (IH true) as (t & Ht & E). exists t. split; [exact Ht|].
      rewrite E. destruct b; reflexivity.
    + destruct (IH false) as (t & Ht & E). exists t. split; [exact Ht|].
      rewrite E. reflexivity.
Qed.

Lemma collapseSpaces_true_blank_app (w y : list N) :
  blank w -> collapseSpaces true (w ++ y) = collapseSpaces true y.
Proof.
  unfold blank. induction w as [|c w IH]; [reflexivity|]. simpl.
  intros [-> Hw]%andb_true_iff. exact (IH Hw).
Qed.

Lemma trim_collapseSpaces_run (y : list N) :
  trim (collapseSpaces false y) = trim (collapseSpaces true y).
Proof.
  destruct y as [|c y]; [reflexivity|]. simpl.
  destruct (isWhiteSpace c); [|reflexivity].
  apply (trim_blank_app [32%N]). reflexivity.
Qed.

Lemma trim_collapseSpaces_blank_app (w y : list N) :
  blank w ->
  trim (collapseSpaces false (w ++ y)) = trim (collapseSpaces false y).
Proof.
  intros Hw. rewrite !trim_collapseSpaces_run.
  rewrite collapseSpaces_true_blank_app by exact Hw. reflexivity.
Qed.

Lemma validNickname_padded (n w1 w2 : list N) :
  validNickname n -> blank w1 -> blank w2 ->
  validNickname (w1 ++ n ++ w2) /\ trim (w1 ++ n ++ w2) = trim n.
Proof.
  intros (Hn & Hl & Hp & Hc)%validNickname_tests Hw1 Hw2.
  assert (Et : trim (w1 ++ n ++ w2) = trim n).
  { rewrite trim_blank_app by exact Hw1. apply trim_app_blank, Hw2. }
  split; [|exact Et]. apply validNickname_tests. rewrite Et.
  repeat split; try assumption; try lia.
  - unfold len in *. rewrite !length_app. lia.
  - rewrite trim_collapseSpaces_blank_app by exact Hw1.
    destruct (collapseSpaces_app_blank false n w2 Hw2) as (t & Ht & ->).
    rewrite trim_app_blank by exact Ht. exact Hc.
Qed.

(** X8: white space around a nickname is not refused: when a nickname
    passes [validateNickname], [addUser] does with the nickname padded
    with white space on either side exactly what it does with the
    nickname itself: the same user or the same error, and the same
    users afterwards. *)
Theorem addUser_ignores_padding (n w1 w2 : list N) now sid (st : t) :
  validNickname n -> blank w1 -> blank w2 ->
  addUser now sid (w1 ++ n ++ w2) st = addUser now sid n st.
Proof.
  intros Hv Hw1 Hw2.
  destruct (validNickname_padded n w1 w2 Hv Hw1 Hw2) as [Hv' Et].
  rewrite (addUser_valid _ _ _ _ Hv'), (addUser_valid _ _ _ _ Hv).
  unfold taken, userOf. rewrite Et. reflexivity.
Qed.

End Padding.

Lemma addUser_ignores_padding_witness :
  validNickname (str "Bob") /\ blank (str "  ") /\ blank [9%N]
  /\ UserManager.addUser 5 (str "s2") (str "  " ++ str "Bob" ++ [9%N])
       (UserManager.calls [UserManager.AddUser 1 (str "s1") (str "bob")] [])
     = UserManager.addUser 5 (str "s2") (str "Bob")
         (UserManager.calls [UserManager.AddUser 1 (str "s1") (str "bob")] []).
Proof.
  assert (Hv : validNickname (str "Bob")) by (vm_compute; reflexivity).
  assert (H1 : blank (str "  ")) by reflexivity.
  assert (H2 : blank [9%N]) by reflexivity.
  split; [exact Hv|]. split; [exact H1|]. split; [exact H2|].
  exact (addUser_ignores_padding (str "Bob") (str "  ") [9%N] 5 (str "s2") _ Hv H1 H2).
Defined.

(** ** The users *)

Section Users.
Import UserManager.
Context `{CaseMapping}.

Lemma Map_set_keys_present {V} (k : list N) (v old : V) (m : Map.t V) :
  Map.get k m = Some old -> List.map fst (Map.set k v m) = List.map fst m.
Proof.
  induction m as [|[k' v'] m IH]; simpl; [discriminate|].
  destruct (streq k' k) eqn:E; simpl.
  - apply streq_eq in E. subst. reflexivity.
  - intros Hg. rewrite (IH Hg). reflexivity.
Qed.

(** Replacing the value of a key frees what the old value stood for. *)
Lemma Map_set_frees {V} (f : V -> list N) (k : list N) (v old : V) (m : Map.t V) :
  Map.get k m = Some old ->
  NoDup (List.map f (Map.values m)) ->
  f v <> f old ->
  f old ∉ List.map f (Map.values (Map.set k v m)).
Proof.
  induction m as [|[k' v'] m IH]; simpl; [discriminate|].
  rewrite NoDup_cons. intros Hg [Hv' Hnd] Hne.
  destruct (streq k' k); simpl; rewrite not_elem_of_cons.
  - injection Hg as ->. split; [congruence|exact Hv'].
  - split; [|apply IH; assumption].
    intros E. apply Hv'. rewrite <- E.
    exact (Map_get_value f k old m Hg).
Qed.

(** X9: an [addUser] that throws leaves the users as they were, and it
    throws nothing but [INVALID_NICKNAME], [NICKNAME_TAKEN] or
    [ROOM_FULL]; the nickname is validated first and looked up second, so
    an invalid nickname is reported as such even when it is in use, and a
    nickname in use as such even when the room is full. *)
Theorem addUser_atomic now sid n (st : t) :
  (forall e st',
      addUser now sid n st = (inl e, st') ->
      st' = st
      /\ (e = ErrorCodes.INVALID_NICKNAME \/ e = ErrorCodes.NICKNAME_TAKEN
          \/ e = ErrorCodes.ROOM_FULL))
  /\ (~ validNickname n ->
      result (addUser now sid n st) = inl ErrorCodes.INVALID_NICKNAME)
  /\ (validNickname n -> taken n st = true ->
      result (addUser now sid n st) = inl ErrorCodes.NICKNAME_TAKEN).
Proof.
  split; [|split].
  - intros e st'. destruct (validateNickname_cases n) as [Hv|Hbad].
    + rewrite addUser_valid by exact Hv.
      destruct (taken n st); [intros [= <- <-]; auto|].
      destruct (Map.size st >=? 50); [intros [= <- <-]; auto|discriminate].
    + rewrite addUser_invalid; [intros [= <- <-]; auto|].
      unfold validNickname. rewrite Hbad. discriminate.
  - intros Hv. rewrite addUser_invalid by exact Hv. reflexivity.
  - intros Hv Ht. rewrite addUser_valid, Ht by exact Hv. reflexivity.
Qed.

(** X10: a socket that is among the users and joins again with another
    free valid nickname, the room not being full, keeps its place: as
    many users as before, the same sockets in the same order, the new
    user under the socket, and the old nickname free again. *)
Theorem addUser_rejoin now sid n (st : t) (old : User.t) :
  uniqueNicknames st ->
  Map.get sid st = Some old ->
  validNickname n -> taken n st = false -> Map.size st < 50 ->
  addUser now sid n st
  = (inr (userOf now sid n), Map.set sid (userOf now sid n) st)
  /\ Map.size (Map.set sid (userOf now sid n) st) = Map.size st
  /\ List.map fst (Map.set sid (userOf now sid n) st) = List.map fst st
  /\ Map.get sid (Map.set sid (userOf now sid n) st) = Some (userOf now sid n)
  /\ lowerNickname old
     ∉ List.map lowerNickname (Map.values (Map.set sid (userOf now sid n) st)).
Proof.
  intros Hu Hg Hv Ht Hs. split; [|split; [|split; [|split]]].
  - rewrite addUser_valid, Ht by exact Hv.
    destruct (Z.geb_spec (Map.size st) 50); [lia|reflexivity].
  - rewrite Map_set_size, Hg. reflexivity.
  - exact (Map_set_keys_present _ _ _ _ Hg).
  - apply Map_get_set_eq.
  - apply (Map_set_frees lowerNickname _ _ _ _ Hg Hu).
    intros E.
    assert (Hin : taken n st = true).
    { apply taken_elem. change (toLowerCase (trim n))
        with (lowerNickname (userOf now sid n)). rewrite E.
      exact (Map_get_value lowerNickname _ _ _ Hg). }
    congruence.
Qed.

(** X11: after an [addUser] that succeeds, [getUser] of the socket
    returns the user created; [addUser] and [removeUser] leave the user
    of every other socket as it was. *)
Theorem getUser_round_trip now sid n (st : t) :
  (forall user,
      result (addUser now sid n st) = inr user ->
      result (getUser sid (state (addUser now sid n st))) = inr (Some user))
  /\ (forall other,
         other <> sid ->
         result (getUser other (state (addUser now sid n st)))
         = result (getUser other st)
         /\ result (getUser other (state (removeUser sid st)))
            = result (getUser other st)).
Proof.
  unfold getUser, bind, get, ret, result. simpl. split.
  - intros user. destruct (addUser_state now sid n st) as [[e ->]| ->];
      simpl; [discriminate|].
    intros [= <-]. rewrite Map_get_set_eq. reflexivity.
  - intros other Hne. split.
    + destruct (addUser_state now sid n st) as [[e ->]| ->]; simpl; [reflexivity|].
      rewrite Map_get_set_ne by congruence. reflexivity.
    + rewrite removeUser_eq. destruct (Map.get sid st); simpl; [|reflexivity].
      rewrite Map_get_delete_ne by congruence. reflexivity.
Qed.

End Users.

Lemma addUser_atomic_witness :
  let st := UserManager.calls
              (List.map
                 (fun i => UserManager.AddUser (Z.of_nat i) [N.of_nat i]
                             [97 + N.of_nat i / 26; 97 + N.of_nat i mod 26]%N)
                 (seq 0 50))
              [] in
  validNickname (str "AA") /\ taken (str "AA") st = true
  /\ result (UserManager.getUserCount st) = inr 50
  /\ result (UserManager.addUser 50 (str "s51") (str "AA") st)
     = inl ErrorCodes.NICKNAME_TAKEN.
Proof.
  intros st.
  assert (Hv : validNickname (str "AA")) by (vm_compute; reflexivity).
  assert (Ht : taken (str "AA") st = true) by (vm_compute; reflexivity).
  split; [exact Hv|]. split; [exact Ht|]. split; [vm_compute; reflexivity|].
  exact (proj2 (proj2 (addUser_atomic 50 (str "s51") (str "AA") st)) Hv Ht).
Defined.

Lemma addUser_rejoin_witness :
  let st := UserManager.calls
              [UserManager.AddUser 1 (str "s1") (str "Alice");
               UserManager.AddUser 2 (str "s2") (str "Bob")] [] in
  uniqueNicknames st
  /\ Map.get (str "s1") st = Some (userOf 1 (str "s1") (str "Alice"))
  /\ validNickname (str "Carol") /\ taken (str "Carol") st = false
  /\ Map.size st < 50
  /\ List.map fst (Map.set (str "s1") (userOf 3 (str "s1") (str "Carol")) st)
     = List.map fst st
  /\ lowerNickname (userOf 1 (str "s1") (str "Alice"))
     ∉ List.map lowerNickname
         (Map.values (Map.set (str "s1") (userOf 3 (str "s1") (str "Carol")) st)).
Proof.
  intros st.
  assert (Hu : uniqueNicknames st).
  { exact (proj1 (calls_invariant _ [] invariant_empty)). }
  assert (Hg : Map.get (str "s1") st = Some (userOf 1 (str "s1") (str "Alice")))
    by (vm_compute; reflexivity).
  assert (Hv : validNickname (str "Carol")) by (vm_compute; reflexivity).
  assert (Ht : taken (str "Carol") st = false) by (vm_compute; reflexivity).
  assert (Hs : Map.size st < 50) by (vm_compute; reflexivity).
  destruct (addUser_rejoin 3 (str "s1") (str "Carol") st _ Hu Hg Hv Ht Hs)
    as (_ & _ & Hk & _ & Hfree).
  repeat (split; [assumption|]). exact Hfree.
Defined.

Lemma getUser_round_trip_witness :
  result (UserManager.addUser 1 (str "s1") (str "Alice") [])
  = inr (userOf 1 (str "s1") (str "Alice"))
  /\ result (UserManager.getUser (str "s1")
               (state (UserManager.addUser 1 (str "s1") (str "Alice") [])))
     = inr (Some (userOf 1 (str "s1") (str "Alice"))).
Proof.
  assert (Hr : result (UserManager.addUser 1 (str "s1") (str "Alice") [])
               = inr (userOf 1 (str "s1") (str "Alice")))
    by (vm_compute; reflexivity).
  split; [exact Hr|].
  exact (proj1 (getUser_round_trip 1 (str "s1") (str "Alice") []) _ Hr).
Defined.

(** ** The listing of the nicknames *)

Section Listing.
Import UserManager.

(** An element passes only elements that joined strictly before it. *)
Lemma insertBy_stable (t : Z) (x : User.t) (l : list User.t) :
  List.filter (fun u => User.joinedAt u =? t) (insertBy byJoinedAt x l)
  = List.filter (fun u => User.joinedAt u =? t) (x :: l).
Proof.
  induction l as [|y l IH]; [reflexivity|].
  simpl insertBy. unfold byJoinedAt at 1.
  destruct (Z.leb_spec (User.joinedAt x - User.joinedAt y) 0) as [Hle|Hgt];
    [reflexivity|].
  simpl in *. rewrite IH.
  destruct (Z.eqb_spec (User.joinedAt x) t) as [Ex|Ex];
    destruct (Z.eqb_spec (User.joinedAt y) t) as [Ey|Ey]; try reflexivity.
  lia.
Qed.

Lemma sort_stable (t : Z) (l : list User.t) :
  List.filter (fun u => User.joinedAt u =? t) (sort byJoinedAt l)
  = List.filter (fun u => User.joinedAt u =? t) l.
Proof.
  unfold sort. induction l as [|x l IH]; [reflexivity|].
  simpl foldr. rewrite insertBy_stable. simpl. rewrite IH. reflexivity.
Qed.

(** X12: [getAllNicknames] lists every user once: the nicknames it
    returns are those of a rearrangement of the users that is in the
    order of [joinedAt] and keeps users of the same [joinedAt] in the
    order of the map; there are as many as [getUserCount] says, and the
    users are not changed. *)
Theorem getAllNicknames_sorted (st : t) :
  exists users,
    getAllNicknames st = (inr (List.map User.nickname users), st)
    /\ Permutation users (Map.values st)
    /\ nonDecreasing (List.map User.joinedAt users)
    /\ (forall t, List.filter (fun u => User.joinedAt u =? t) users
                  = List.filter (fun u => User.joinedAt u =? t) (Map.values st))
    /\ result (getUserCount st) = inr (len (List.map User.nickname users)).
Proof.
  exists (sort byJoinedAt (Map.values st)).
  split; [reflexivity|]. split; [apply sort_permutation|].
  split; [apply sort_in_time_order|]. split; [intros t; apply sort_stable|].
  unfold getUserCount, bind, get, ret, result, Map.size, len. simpl.
  rewrite length_map, (Permutation_length (sort_permutation _ _)).
  unfold Map.values. rewrite length_map. reflexivity.
Qed.

End Listing.

(** ** Sending *)

Section Sending.
Import SocketManager.

(** The four ways a send request ends. *)
Lemma handleSendMessage_eq nowRate uuid nowMessage sid message (s : t) :
  handleSendMessage nowRate uuid nowMessage sid message s
  = match Map.get sid (userManager s) with
    | None =>
        (inr tt,
         mk (userManager s) (messageStore s) (rateLimitMap s)
            (emitted s ++ [SocketEmit sid (Error ErrorCodes.CONNECTION_ERROR)]))
    | Some user =>
        if 3 <=? len (purge nowRate (window sid s))
        then
          (inr tt,
           mk (userManager s) (messageStore s) (rateLimitMap s)
              (emitted s ++ [SocketEmit sid (Error ErrorCodes.RATE_LIMIT_EXCEEDED)]))
        else
          let recorded :=
            <[sid := purge nowRate (window sid s) ++ [nowRate]]> (rateLimitMap s) in
          if rejects message
          then
            (inr tt,
             mk (userManager s) (messageStore s) recorded
                (emitted s ++ [SocketEmit sid (Error ErrorCodes.INVALID_MESSAGE)]))
          else
            let stored :=
              messageOf uuid nowMessage (User.id user) (User.nickname user) message in
            (inr tt,
             mk (userManager s) (lastN 100 (messageStore s ++ [stored])) recorded
                (emitted s ++ [IoEmit (ReceiveMessage stored)]))
    end.
Proof.
  destruct s as [um ms rl out].
  unfold handleSendMessage, tryCatch, bind, onUsers, onMessages, zoom,
    UserManager.getUser, bind, get, ret.
  cbn [userManager messageStore rateLimitMap emitted].
  destruct (Map.get sid um) as [user|]; [|reflexivity].
  cbv beta iota.
  destruct (Z.leb_spec 3 (len (purge nowRate (window sid (mk um ms rl out)))))
    as [Hfull|Hfree].
  - rewrite checkRateLimit_full by exact Hfull. reflexivity.
  - rewrite checkRateLimit_free by exact Hfree. cbv beta iota.
    cbn [userManager messageStore rateLimitMap emitted].
    destruct (rejects message) eqn:Hr.
    + rewrite addMessage_rejected by exact Hr. reflexivity.
    + rewrite addMessage_accepted by exact Hr. reflexivity.
Qed.

(** X13: a send request from a socket that is not among the users, or
    from a user whose window already holds three times of the last second,
    changes neither the users nor the log nor any window: the socket gets
    the error, [CONNECTION_ERROR] or [RATE_LIMIT_EXCEEDED], and no one
    else gets anything. *)
Theorem handleSendMessage_refused nowRate uuid nowMessage sid message (s : t) :
  (Map.get sid (userManager s) = None ->
   handleSendMessage nowRate uuid nowMessage sid message s
   = (inr tt,
      mk (userManager s) (messageStore s) (rateLimitMap s)
         (emitted s ++ [SocketEmit sid (Error ErrorCodes.CONNECTION_ERROR)])))
  /\ (forall user,
         Map.get sid (userManager s) = Some user ->
         3 <= len (purge nowRate (window sid s)) ->
         handleSendMessage nowRate uuid nowMessage sid message s
         = (inr tt,
            mk (userManager s) (messageStore s) (rateLimitMap s)
               (emitted s
                ++ [SocketEmit sid (Error ErrorCodes.RATE_LIMIT_EXCEEDED)]))).
Proof.
  split.
  - intros Hg. rewrite handleSendMessage_eq, Hg. reflexivity.
  - intros user Hg Hfull. rewrite handleSendMessage_eq, Hg.
    destruct (Z.leb_spec 3 (len (purge nowRate (window sid s)))); [reflexivity|lia].
Qed.

(** X14: the rate limit is checked before the message is validated: a
    send request of a user with an invalid body, the window not being
    full, records its time in the window of the socket, so the refused
    message counts against the limit; the log is not changed and the
    socket alone gets [INVALID_MESSAGE]. *)
Theorem handleSendMessage_invalid_counts nowRate uuid nowMessage sid message
    (s : t) (user : User.t) :
  Map.get sid (userManager s) = Some user ->
  len (purge nowRate (window sid s)) < 3 ->
  invalidBody message ->
  let s' := state (handleSendMessage nowRate uuid nowMessage sid message s) in
  window sid s' = purge nowRate (window sid s) ++ [nowRate]
  /\ messageStore s' = messageStore s
  /\ userManager s' = userManager s
  /\ emitted s' = emitted s ++ [SocketEmit sid (Error ErrorCodes.INVALID_MESSAGE)].
Proof.
  intros Hg Hfree Hr%rejects_invalidBody. cbv zeta.
  rewrite handleSendMessage_eq, Hg.
  destruct (Z.leb_spec 3 (len (purge nowRate (window sid s)))); [lia|].
  cbv zeta. rewrite Hr. unfold state; cbn [snd].
  repeat split. unfold window at 1. cbn [rateLimitMap].
  rewrite lookup_insert_eq. reflexivity.
Qed.

(** X15: a send request of a user with a valid body, the window not being
    full, appends to the log the message made of the socket id and the
    nickname the user joined with and of the escaped body, sends that
    message to everyone, the sender included, and records the time in the
    window; [getRecentMessages(1)] then returns this message. *)
Theorem handleSendMessage_delivered nowRate uuid nowMessage sid message
    (s : t) (user : User.t) :
  Map.get sid (userManager s) = Some user ->
  len (purge nowRate (window sid s)) < 3 ->
  ~ invalidBody message ->
  let s' := state (handleSendMessage nowRate uuid nowMessage sid message s) in
  let stored :=
    messageOf uuid nowMessage (User.id user) (User.nickname user) message in
  emitted s' = emitted s ++ [IoEmit (ReceiveMessage stored)]
  /\ messageStore s' = lastN 100 (messageStore s ++ [stored])
  /\ result (MessageStore.getRecentMessages 1 (messageStore s')) = inr [stored]
  /\ window sid s' = purge nowRate (window sid s) ++ [nowRate]
  /\ userManager s' = userManager s.
Proof.
  intros Hg Hfree Hv. cbv zeta.
  assert (Hr : rejects message = false).
  { destruct (rejects message) eqn:E; [|reflexivity].
    apply rejects_invalidBody in E. contradiction. }
  rewrite handleSendMessage_eq, Hg.
  destruct (Z.leb_spec 3 (len (purge nowRate (window sid s)))); [lia|].
  cbv zeta. rewrite Hr. unfold state; cbn [snd messageStore emitted userManager].
  split; [reflexivity|]. split; [reflexivity|]. split; [|split; [|reflexivity]].
  - rewrite getRecentMessages_eq. unfold result; cbn [fst]. f_equal.
    set (m := messageOf uuid nowMessage (User.id user) (User.nickname user) message).
    assert (Hlen : 1 <= len (lastN 100 (messageStore s ++ [m]))).
    { unfold len. rewrite lastN_length, length_app. cbn [length]. lia. }
    rewrite Z.max_id, Z.min_l by exact Hlen.
    apply (lastN_one_lastN 99).
  - unfold window at 1. cbn [rateLimitMap].
    rewrite lookup_insert_eq. reflexivity.
Qed.

End Sending.

Lemma handleSendMessage_refused_witness :
  Map.get (str "s1") (SocketManager.userManager SocketManager.init) = None
  /\ SocketManager.emitted
       (state (SocketManager.handleSendMessage 5 (str "id-1") 5 (str "s1")
                 (str "hi") SocketManager.init))
     = [SocketManager.SocketEmit (str "s1")
          (SocketManager.Error ErrorCodes.CONNECTION_ERROR)].
Proof.
  assert (Hg : Map.get (str "s1") (SocketManager.userManager SocketManager.init)
               = None) by reflexivity.
  split; [exact Hg|].
  rewrite (proj1 (handleSendMessage_refused 5 (str "id-1") 5 (str "s1") (str "hi")
                    SocketManager.init) Hg).
  reflexivity.
Defined.

Lemma handleSendMessage_invalid_counts_witness :
  let s := SocketManager.run
             [SocketManager.Handle (SocketManager.Connection (str "s1"));
              SocketManager.Handle (SocketManager.JoinRoom 1 (str "s1") (str "Alice"))]
             SocketManager.init in
  Map.get (str "s1") (SocketManager.userManager s)
  = Some (userOf 1 (str "s1") (str "Alice"))
  /\ len (purge 5 (window (str "s1") s)) < 3
  /\ invalidBody (str "   ")
  /\ window (str "s1")
       (state (SocketManager.handleSendMessage 5 (str "id-1") 5 (str "s1")
                 (str "   ") s))
     = purge 5 (window (str "s1") s) ++ [5].
Proof.
  intros s.
  assert (Hg : Map.get (str "s1") (SocketManager.userManager s)
               = Some (userOf 1 (str "s1") (str "Alice")))
    by (vm_compute; reflexivity).
  assert (Hf : len (purge 5 (window (str "s1") s)) < 3) by (vm_compute; reflexivity).
  assert (Hi : invalidBody (str "   ")) by (left; vm_compute; reflexivity).
  split; [exact Hg|]. split; [exact Hf|]. split; [exact Hi|].
  exact (proj1 (handleSendMessage_invalid_counts 5 (str "id-1") 5 (str "s1")
                  (str "   ") s _ Hg Hf Hi)).
Defined.

Lemma handleSendMessage_delivered_witness :
  let s := SocketManager.run
             [SocketManager.Handle (SocketManager.Connection (str "s1"));
              SocketManager.Handle (SocketManager.JoinRoom 1 (str "s1") (str "Alice"))]
             SocketManager.init in
  Map.get (str "s1") (SocketManager.userManager s)
  = Some (userOf 1 (str "s1") (str "Alice"))
  /\ len (purge 5 (window (str "s1") s)) < 3
  /\ ~ invalidBody (str "hi")
  /\ SocketManager.emitted
       (state (SocketManager.handleSendMessage 5 (str "id-1") 6 (str "s1")
                 (str "hi") s))
     = SocketManager.emitted s
       ++ [SocketManager.IoEmit
             (SocketManager.ReceiveMessage
                (messageOf (str "id-1") 6 (str "s1") (str "Alice") (str "hi")))].
Proof.
  intros s.
  assert (Hg : Map.get (str "s1") (SocketManager.userManager s)
               = Some (userOf 1 (str "s1") (str "Alice")))
    by (vm_compute; reflexivity).
  assert (Hf : len (purge 5 (window (str "s1") s)) < 3) by (vm_compute; reflexivity).
  assert (Hv : ~ invalidBody (str "hi")).
  { intros E%rejects_invalidBody. vm_compute in E. discriminate E. }
  split; [exact Hg|]. split; [exact Hf|]. split; [exact Hv|].
  exact (proj1 (handleSendMessage_delivered 5 (str "id-1") 6 (str "s1")
                  (str "hi") s _ Hg Hf Hv)).
Defined.

(** ** Runs of the server *)

Section Runs.
Import SocketManager.
Context `{CaseMapping}.

Lemma run_cons (x : Step) (xs : list Step) (s : t) :
  run (x :: xs) s = run xs (state (step x s)).
Proof. reflexivity. Qed.

(** What a step keeps, a run keeps. *)
Lemma run_keeps (P : t -> Prop) (xs : list Step) (s : t) :
  P s -> (forall x s, P s -> P (state (step x s))) -> P (run xs s).
Proof.
  intros Hs Hstep. revert s Hs. induction xs as [|x xs IH]; intros s Hs.
  - exact Hs.
  - rewrite run_cons. apply IH, Hstep, Hs.
Qed.

Lemma handleConnection_eq (sid : list N) (s : t) :
  handleConnection sid s
  = (inr tt,
     mk (userManager s) (messageStore s) (<[sid := []]> (rateLimitMap s))
        (emitted s)).
Proof. reflexivity. Qed.

(** X16: no handler lets an exception out: a connection, a join request,
    a send request and a disconnect return normally in every state and
    for every input, and so does every read. *)
Theorem step_never_throws (x : Step) (s : t) : result (step x s) = inr tt.
Proof.
  destruct x as [[k|now k n|nowRate uuid nowMessage k message|now k]|r];
    cbn [step handle].
  - reflexivity.
  - rewrite handleJoinRoom_eq.
    destruct (UserManager.addUser now k n (userManager s)) as [[e|u] users];
      reflexivity.
  - rewrite handleSendMessage_eq.
    destruct (Map.get k (userManager s)); [|reflexivity].
    destruct (3 <=? len (purge nowRate (window k s))); [reflexivity|].
    cbv zeta. destruct (rejects message); reflexivity.
  - rewrite handleDisconnect_eq.
    destruct (Map.get k (userManager s)); reflexivity.
  - rewrite read_unchanged. reflexivity.
Qed.

(** The server changes its users through [addUser] and [removeUser]
    only. *)
Lemma step_userManager (x : Step) (s : t) :
  userManager (state (step x s))
  = UserManager.calls (userCalls [x]) (userManager s).
Proof.
  destruct x as [[k|now k n|nowRate uuid nowMessage k message|now k]|r];
    cbn [step handle userCalls].
  - reflexivity.
  - rewrite handleJoinRoom_eq. unfold UserManager.calls. cbn [fold_left].
    unfold UserManager.call, bind.
    destruct (UserManager.addUser now k n (userManager s)) as [[e|u] users];
      reflexivity.
  - rewrite handleSendMessage_eq.
    destruct (Map.get k (userManager s)); [|reflexivity].
    destruct (3 <=? len (purge nowRate (window k s))); [reflexivity|].
    cbv zeta. destruct (rejects message); reflexivity.
  - rewrite handleDisconnect_eq. unfold UserManager.calls. cbn [fold_left].
    unfold UserManager.call, bind. rewrite removeUser_eq.
    destruct (Map.get k (userManager s)); reflexivity.
  - rewrite read_unchanged. reflexivity.
Qed.

Lemma userCalls_cons (x : Step) (xs : list Step) :
  userCalls (x :: xs) = userCalls [x] ++ userCalls xs.
Proof.
  destruct x as [[k|now k n|nowRate uuid nowMessage k message|now k]|r];
    reflexivity.
Qed.

Lemma run_userManager (xs : list Step) (s : t) :
  userManager (run xs s) = UserManager.calls (userCalls xs) (userManager s).
Proof.
  revert s. induction xs as [|x xs IH]; intros s; [reflexivity|].
  rewrite run_cons, IH, step_userManager, (userCalls_cons x xs).
  unfold UserManager.calls. rewrite fold_left_app. reflexivity.
Qed.

Lemma calls_wellFormed (cs : list UserManager.Call) (st : UserManager.t) :
  Forall wellFormedEntry st -> Forall wellFormedEntry (UserManager.calls cs st).
Proof.
  revert st. induction cs as [|c cs IH]; intros st Hw; [exact Hw|].
  unfold UserManager.calls in *. simpl. apply IH.
  destruct c; simpl; unfold bind; try exact Hw.
  - destruct (validateNickname_cases nickname) as [Hv|Hbad].
    + rewrite addUser_valid by exact Hv.
      destruct (taken nickname st); [exact Hw|].
      destruct (Map.size st >=? 50); [exact Hw|].
      apply Map_set_Forall; [|exact Hw].
      split; [reflexivity|]. exact (validNickname_normal nickname Hv).
    + rewrite addUser_invalid; [exact Hw|].
      unfold validNickname. rewrite Hbad. discriminate.
  - rewrite removeUser_eq. destruct (Map.get socketId st); [|exact Hw].
    apply Map_delete_Forall, Hw.
  - constructor.
Qed.

(** X17: after any run of the server the users are at most 50, with
    nicknames that are unique without regard to case and one entry for a
    socket; every user carries the id of its socket and a nickname in
    normal form; and [getUserCount] is the number of these entries. *)
Theorem run_users_invariant (xs : list Step) :
  invariant (userManager (run xs init))
  /\ Forall wellFormedEntry (userManager (run xs init))
  /\ result (onUsers UserManager.getUserCount (run xs init))
     = inr (len (userManager (run xs init))).
Proof.
  rewrite run_userManager. split; [|split].
  - apply calls_invariant, invariant_empty.
  - apply calls_wellFormed. constructor.
  - unfold onUsers, zoom, UserManager.getUserCount, bind, get, ret, result.
    simpl. rewrite run_userManager. reflexivity.
Qed.

End Runs.

Section RunInvariants.
Import SocketManager.
Context `{CaseMapping}.

Lemma lastN_50 {A} (l : list A) :
  lastN (Z.to_nat (Z.min (Z.max 1 50) (len l))) l = lastN 50 l.
Proof.
  unfold len. rewrite Z.max_r by lia.
  destruct (Z.le_gt_cases 50 (Z.of_nat (length l))).
  - rewrite Z.min_l by lia. reflexivity.
  - rewrite Z.min_r by lia. rewrite Nat2Z.id, !lastN_all by lia. reflexivity.
Qed.

(** What a handled event sends: a step only adds to what was sent, and an
    error it adds goes to the socket of the event alone. *)
Lemma handle_emits (e : Event) (s : t) :
  exists new,
    emitted (state (handle e s)) = emitted s ++ new
    /\ forallb (errorOnlyTo (socketOf e)) new = true.
Proof.
  destruct e as [k|now k n|nowRate uuid nowMessage k message|now k];
    cbn [handle socketOf].
  - exists []. rewrite app_nil_r. split; reflexivity.
  - rewrite handleJoinRoom_eq.
    destruct (UserManager.addUser now k n (userManager s)) as [[e|u] users];
      eexists; (split; [reflexivity|]); simpl; [|reflexivity].
    rewrite streq_refl. reflexivity.
  - rewrite handleSendMessage_eq.
    destruct (Map.get k (userManager s)).
    + destruct (3 <=? len (purge nowRate (window k s))).
      * eexists; split; [reflexivity|]. simpl. rewrite streq_refl. reflexivity.
      * cbv zeta. destruct (rejects message);
          eexists; (split; [reflexivity|]); simpl; [|reflexivity].
        rewrite streq_refl. reflexivity.
    + eexists; split; [reflexivity|]. simpl. rewrite streq_refl. reflexivity.
  - rewrite handleDisconnect_eq.
    destruct (Map.get k (userManager s)).
    + eexists; split; [reflexivity|]. reflexivity.
    + exists []. rewrite app_nil_r. split; reflexivity.
Qed.

Lemma step_emits (x : Step) (s : t) :
  exists new, emitted (state (step x s)) = emitted s ++ new.
Proof.
  destruct x as [e|r]; cbn [step].
  - destruct (handle_emits e s) as (new & E & _). exists new. exact E.
  - rewrite read_unchanged. exists []. rewrite app_nil_r. reflexivity.
Qed.

Lemma hasJoined_step (sid : list N) (x : Step) (s : t) :
  hasJoined sid s = true -> hasJoined sid (state (step x s)) = true.
Proof.
  unfold hasJoined. destruct (step_emits x s) as (new & ->).
  rewrite existsb_app. intros ->. reflexivity.
Qed.

Lemma errorOnlyTo_not_many (sid : list N) (new : list Emit) :
  forallb (errorOnlyTo sid) new = true -> existsb errorToMany new = false.
Proof.
  induction new as [|e new IH]; [reflexivity|]. simpl.
  intros [He Hn]%andb_true_iff. rewrite (IH Hn), orb_false_r.
  destruct e as [k p|k p|p]; destruct p; simpl in *; congruence.
Qed.

(** X18: an error is never sent to more than one socket: whatever a
    handled event sends, the errors in it go by [socket.emit] to the
    socket the event came from; so in everything a run of the server
    sends, no error is broadcast. *)
Theorem errors_are_unicast :
  (forall (e : Event) (s : t),
      exists new,
        emitted (state (handle e s)) = emitted s ++ new
        /\ forallb (errorOnlyTo (socketOf e)) new = true)
  /\ (forall xs : list Step,
         existsb errorToMany (emitted (run xs init)) = false).
Proof.
  split; [exact handle_emits|].
  intros xs.
  apply (run_keeps (fun s => existsb errorToMany (emitted s) = false));
    [reflexivity|].
  intros x s Hs. destruct x as [e|r]; cbn [step].
  - destruct (handle_emits e s) as (new & -> & Hn).
    rewrite existsb_app, Hs. exact (errorOnlyTo_not_many _ _ Hn).
  - rewrite read_unchanged. exact Hs.
Qed.

Lemma Map_get_Forall {V} (P : list N * V -> Prop) k v (m : Map.t V) :
  Forall P m -> Map.get k m = Some v -> P (k, v).
Proof.
  induction m as [|[k' v'] m IH]; simpl; [discriminate|].
  intros [Hk' Hm]%Forall_cons. destruct (streq k' k) eqn:E.
  - apply streq_eq in E. subst. intros [= <-]. exact Hk'.
  - exact (IH Hm).
Qed.

Lemma rejects_stored uuid now userId nickname message :
  rejects message = false ->
  storedBody (Message.message (messageOf uuid now userId nickname message)).
Proof.
  intros Hr.
  apply (created_stored [MessageStore.AddMessage uuid now userId nickname message]).
  simpl. rewrite Hr. left. reflexivity.
Qed.

(** Who is among the users has joined, and who wrote to the log had. *)
Lemma step_senders (x : Step) (s : t) :
  (Forall (fun e => User.id (snd e) = fst e /\ hasJoined (fst e) s = true)
          (userManager s)
   /\ Forall (fun m => storedBody (Message.message m)
                       /\ hasJoined (Message.userId m) s = true)
             (messageStore s)) ->
  Forall (fun e => User.id (snd e) = fst e
                   /\ hasJoined (fst e) (state (step x s)) = true)
         (userManager (state (step x s)))
  /\ Forall (fun m => storedBody (Message.message m)
                      /\ hasJoined (Message.userId m) (state (step x s)) = true)
            (messageStore (state (step x s))).
Proof.
  intros [Hu Hm].
  assert (Hu' : Forall (fun e => User.id (snd e) = fst e
                                 /\ hasJoined (fst e) (state (step x s)) = true)
                       (userManager s)).
  { eapply Forall_impl; [exact Hu|]. intros e [Hi Hj].
    split; [exact Hi|apply hasJoined_step, Hj]. }
  assert (Hm' : Forall (fun m => storedBody (Message.message m)
                                 /\ hasJoined (Message.userId m) (state (step x s)) = true)
                       (messageStore s)).
  { eapply Forall_impl; [exact Hm|]. intros m [Hb Hj].
    split; [exact Hb|apply hasJoined_step, Hj]. }
  clear Hm. revert Hu' Hm'.
  destruct x as [[k|now k n|nowRate uuid nowMessage k message|now k]|r];
    cbn [step handle].
  - intros Hu' Hm'. split; assumption.
  - rewrite handleJoinRoom_eq.
    destruct (addUser_state now k n (userManager s)) as [[e ->]| ->];
      unfold state; cbn [snd userManager messageStore].
    + intros Hu' Hm'. split; assumption.
    + intros Hu' Hm'. split; [|exact Hm'].
      apply Map_set_Forall; [|exact Hu']. split; [reflexivity|].
      unfold hasJoined. cbn [fst emitted]. rewrite !existsb_app. simpl.
      rewrite streq_refl, orb_true_r. reflexivity.
  - rewrite handleSendMessage_eq.
    destruct (Map.get k (userManager s)) as [user|] eqn:Hg;
      [|intros Hu' Hm'; split; assumption].
    destruct (3 <=? len (purge nowRate (window k s)));
      [intros Hu' Hm'; split; assumption|].
    cbv zeta. destruct (rejects message) eqn:Hr;
      [intros Hu' Hm'; split; assumption|].
    unfold state; cbn [snd userManager messageStore].
    intros Hu' Hm'. split; [exact Hu'|].
    apply Forall_forall. intros m Hin%list_elem_of_In%In_lastN.
    apply in_app_or in Hin as [Hin|[<-|[]]].
    + exact (proj1 (Forall_forall _ _) Hm' m (proj2 (list_elem_of_In _ _) Hin)).
    + split; [exact (rejects_stored _ _ _ _ _ Hr)|].
      destruct (Map_get_Forall _ _ _ _ Hu' Hg) as [Hi Hj].
      simpl in Hi, Hj. simpl. subst k. exact Hj.
  - rewrite handleDisconnect_eq.
    destruct (Map.get k (userManager s)) as [user|];
      unfold state; cbn [snd userManager messageStore];
      intros Hu' Hm'; (split; [|exact Hm']).
    + apply Map_delete_Forall, Hu'.
    + exact Hu'.
  - rewrite read_unchanged. intros Hu' Hm'. split; assumption.
Qed.

(** X19: after any run of the server the log holds at most 100 messages,
    the body of each is between 1 and 3000 code units long without
    markup and forbidden control characters, and each was sent by a
    socket that had completed a join: a socket that never joined leaves
    nothing in the log. *)
Theorem run_log_invariant (xs : list Step) :
  len (messageStore (run xs init)) <= 100
  /\ forall m,
      In m (messageStore (run xs init)) ->
      storedBody (Message.message m)
      /\ hasJoined (Message.userId m) (run xs init) = true.
Proof.
  split.
  - apply (run_keeps (fun s => len (messageStore s) <= 100));
      [unfold len; simpl; lia|].
    intros x s Hs.
    destruct x as [[k|now k n|nowRate uuid nowMessage k message|now k]|r];
      cbn [step handle].
    + exact Hs.
    + rewrite handleJoinRoom_eq.
      destruct (UserManager.addUser now k n (userManager s)) as [[e|u] users];
        exact Hs.
    + rewrite handleSendMessage_eq.
      destruct (Map.get k (userManager s)); [|exact Hs].
      destruct (3 <=? len (purge nowRate (window k s))); [exact Hs|].
      cbv zeta. destruct (rejects message); [exact Hs|].
      unfold state; cbn [snd messageStore]. unfold len.
      rewrite lastN_length. lia.
    + rewrite handleDisconnect_eq.
      destruct (Map.get k (userManager s)); exact Hs.
    + rewrite read_unchanged. exact Hs.
  - intros m Hin.
    assert (Hinv :
      Forall (fun e => User.id (snd e) = fst e
                       /\ hasJoined (fst e) (run xs init) = true)
             (userManager (run xs init))
      /\ Forall (fun m => storedBody (Message.message m)
                          /\ hasJoined (Message.userId m) (run xs init) = true)
                (messageStore (run xs init))).
    { apply (run_keeps
               (fun s =>
                  Forall (fun e => User.id (snd e) = fst e
                                   /\ hasJoined (fst e) s = true) (userManager s)
                  /\ Forall (fun m => storedBody (Message.message m)
                                      /\ hasJoined (Message.userId m) s = true)
                            (messageStore s))).
      - split; constructor.
      - intros x s Hs. exact (step_senders x s Hs). }
    destruct Hinv as [_ Hm].
    exact (proj1 (Forall_forall _ _) Hm m (proj2 (list_elem_of_In _ _) Hin)).
Qed.

End RunInvariants.

Lemma run_log_invariant_witness :
  let xs :=
    [SocketManager.Handle (SocketManager.Connection (str "s1"));
     SocketManager.Handle (SocketManager.JoinRoom 1 (str "s1") (str "Alice"));
     SocketManager.Handle
       (SocketManager.SendMessage 5 (str "id-1") 6 (str "s1") (str "a < b"));
     SocketManager.Handle
       (SocketManager.SendMessage 7 (str "id-2") 8 (str "s2") (str "hello"))] in
  let m := messageOf (str "id-1") 6 (str "s1") (str "Alice") (str "a < b") in
  In m (SocketManager.messageStore (SocketManager.run xs SocketManager.init))
  /\ storedBody (Message.message m)
  /\ hasJoined (Message.userId m) (SocketManager.run xs SocketManager.init) = true.
Proof.
  intros xs m.
  assert (Hin : In m (SocketManager.messageStore
                        (SocketManager.run xs SocketManager.init)))
    by (vm_compute; left; reflexivity).
  split; [exact Hin|]. exact (proj2 (run_log_invariant xs) m Hin).
Defined.

Section Windows.
Import SocketManager.
Context `{CaseMapping}.

Lemma window_insert (k sid : list N) (w : list Z) um ms rl out :
  window sid (mk um ms (<[k := w]> rl) out)
  = if decide (k = sid) then w else window sid (mk um ms rl out).
Proof.
  unfold window. cbn [rateLimitMap]. rewrite lookup_insert.
  destruct (decide (k = sid)); reflexivity.
Qed.

Lemma window_delete (k sid : list N) um ms rl out :
  window sid (mk um ms (base.delete k rl) out)
  = if decide (k = sid) then [] else window sid (mk um ms rl out).
Proof.
  unfold window. cbn [rateLimitMap]. rewrite lookup_delete.
  destruct (decide (k = sid)); reflexivity.
Qed.

(** X20: after any run of the server the window of every socket holds at
    most three send times, whatever the number of send requests; the
    memory of the rate limiter is bounded by the number of sockets. *)
Theorem run_window_bound (xs : list Step) (sid : list N) :
  len (window sid (run xs init)) <= 3.
Proof.
  apply (run_keeps (fun s => forall sid, len (window sid s) <= 3));
    [intros k; unfold window, init; cbn [rateLimitMap];
     rewrite lookup_empty; unfold len; simpl; lia|]. clear sid.
  intros x s Hs sid. destruct s as [um ms rl out].
  destruct x as [[k|now k n|nowRate uuid nowMessage k message|now k]|r];
    cbn [step handle].
  - rewrite handleConnection_eq. unfold state; cbn [snd].
    cbn [userManager messageStore rateLimitMap emitted].
    rewrite window_insert. destruct (decide (k = sid)); [unfold len; simpl; lia|].
    apply Hs.
  - rewrite handleJoinRoom_eq.
    destruct (UserManager.addUser now k n (userManager (mk um ms rl out)))
      as [[e|u] users]; apply Hs.
  - rewrite handleSendMessage_eq.
    destruct (Map.get k (userManager (mk um ms rl out))); [|apply Hs].
    destruct (Z.leb_spec 3 (len (purge nowRate (window k (mk um ms rl out)))))
      as [Hfull|Hfree]; [apply Hs|].
    cbv zeta. assert (Hw : len (purge nowRate (window k (mk um ms rl out))
                                ++ [nowRate]) <= 3).
    { rewrite len_app. unfold len in *. simpl length. lia. }
    destruct (rejects message); unfold state; cbn [snd];
      cbn [userManager messageStore rateLimitMap emitted];
      rewrite window_insert; (destruct (decide (k = sid)); [exact Hw|apply Hs]).
  - rewrite handleDisconnect_eq.
    destruct (Map.get k (userManager (mk um ms rl out)));
      unfold state; cbn [snd]; cbn [userManager messageStore rateLimitMap emitted];
      rewrite window_delete;
      (destruct (decide (k = sid)); [unfold len; simpl; lia|apply Hs]).
  - rewrite read_unchanged. apply Hs.
Qed.

(** X21: after any run of the server, a disconnect leaves the socket
    neither among the users nor in the rate limiter, and a second
    disconnect of the same socket changes nothing at all and sends
    nothing. *)
Theorem handleDisconnect_idempotent (xs : list Step) (now again : Z)
    (sid : list N) :
  Map.get sid
    (userManager (state (handleDisconnect now sid (run xs init)))) = None
  /\ rateLimitMap (state (handleDisconnect now sid (run xs init))) !! sid = None
  /\ handleDisconnect again sid (state (handleDisconnect now sid (run xs init)))
     = (inr tt, state (handleDisconnect now sid (run xs init))).
Proof.
  assert (Hk : NoDup (List.map fst (userManager (run xs init)))).
  { rewrite run_userManager.
    exact (proj2 (proj2 (calls_invariant _ [] invariant_empty))). }
  set (s := run xs init) in *.
  rewrite (handleDisconnect_eq now sid s).
  destruct (Map.get sid (userManager s)) as [user|] eqn:Hg;
    unfold state; cbn [snd userManager rateLimitMap].
  - assert (Hgone : Map.get sid (Map.delete sid (userManager s)) = None)
      by exact (Map_get_delete_eq sid _ Hk).
    split; [exact Hgone|]. split; [apply lookup_delete_eq|].
    rewrite handleDisconnect_eq.
    cbn [userManager messageStore rateLimitMap emitted].
    rewrite Hgone, delete_delete_eq. reflexivity.
  - split; [exact Hg|]. split; [apply lookup_delete_eq|].
    rewrite handleDisconnect_eq.
    cbn [userManager messageStore rateLimitMap emitted].
    rewrite Hg, delete_delete_eq. reflexivity.
Qed.

End Windows.

Section JoiningAndLeaving.
Import SocketManager.
Context `{CaseMapping}.

Lemma nicknamesOf_permutation (users : UserManager.t) :
  Permutation (nicknamesOf users) (List.map User.nickname (Map.values users)).
Proof.
  unfold nicknamesOf. apply Permutation_map, sort_permutation.
Qed.

Lemma nicknamesOf_length (users : UserManager.t) :
  len (nicknamesOf users) = Map.size users.
Proof.
  unfold len, Map.size, len.
  rewrite (Permutation_length (nicknamesOf_permutation users)).
  unfold Map.values. rewrite !length_map. reflexivity.
Qed.

Lemma Map_get_In_values {V} (k : list N) (v : V) (m : Map.t V) :
  Map.get k m = Some v -> In v (Map.values m).
Proof.
  induction m as [|[k' v'] m IH]; simpl; [discriminate|].
  destruct (streq k' k); [intros [= ->]; left; reflexivity|].
  intros Hg. right. exact (IH Hg).
Qed.

(** X22: a join request that [addUser] refuses changes nothing and tells
    the socket alone, with the error of [addUser]; one that [addUser]
    accepts sends, in this order, [join-success] to the socket,
    [user-joined] to the others and [update-users] to everyone, with the
    trimmed nickname, a list of nicknames that holds it and has one entry
    for each user, and the last 50 messages of the log at most; the log
    and the rate limiter are not touched. *)
Theorem handleJoinRoom_outcome now sid n (s : t) :
  (forall e,
      result (UserManager.addUser now sid n (userManager s)) = inl e ->
      handleJoinRoom now sid n s
      = (inr tt,
         mk (userManager s) (messageStore s) (rateLimitMap s)
            (emitted s ++ [SocketEmit sid (Error e)])))
  /\ (forall user,
         result (UserManager.addUser now sid n (userManager s)) = inr user ->
         exists users,
           handleJoinRoom now sid n s
           = (inr tt,
              mk (Map.set sid (userOf now sid n) (userManager s))
                 (messageStore s) (rateLimitMap s)
                 (emitted s
                  ++ [SocketEmit sid
                        (JoinSuccess (trim n) users (lastN 50 (messageStore s)));
                      BroadcastEmit sid (UserJoined (trim n) now);
                      IoEmit (UpdateUsers users)]))
           /\ In (trim n) users
           /\ len users = Map.size (Map.set sid (userOf now sid n) (userManager s))).
Proof.
  split.
  - intros e He. rewrite handleJoinRoom_eq.
    destruct (addUser_state now sid n (userManager s)) as [[e' E]|E];
      rewrite E in He |- *; [|discriminate].
    injection He as ->. reflexivity.
  - intros user Hu. rewrite handleJoinRoom_eq.
    destruct (addUser_state now sid n (userManager s)) as [[e' E]|E];
      rewrite E in Hu |- *; [discriminate|].
    exists (nicknamesOf (Map.set sid (userOf now sid n) (userManager s))).
    split; [|split].
    + rewrite lastN_50. reflexivity.
    + apply (Permutation_in _ (Permutation_sym (nicknamesOf_permutation _))).
      apply (in_map User.nickname _ (userOf now sid n)).
      apply (Map_get_In_values sid). apply Map_get_set_eq.
    + apply nicknamesOf_length.
Qed.

(** X23: after any run of the server, the disconnect of a socket that is
    among the users tells the others [user-left] with the nickname of the
    user, then everyone [update-users] with a list of nicknames that no
    longer holds it and is one shorter than the number of users before;
    the log is not touched. *)
Theorem handleDisconnect_announces (xs : list Step) now sid (user : User.t) :
  Map.get sid (userManager (run xs init)) = Some user ->
  exists users,
    handleDisconnect now sid (run xs init)
    = (inr tt,
       mk (Map.delete sid (userManager (run xs init)))
          (messageStore (run xs init))
          (base.delete sid (rateLimitMap (run xs init)))
          (emitted (run xs init)
           ++ [BroadcastEmit sid (UserLeft (User.nickname user) now);
               IoEmit (UpdateUsers users)]))
    /\ ~ In (User.nickname user) users
    /\ len users = Map.size (userManager (run xs init)) - 1.
Proof.
  intros Hg.
  assert (Hu : uniqueNicknames (userManager (run xs init))).
  { rewrite run_userManager.
    exact (proj1 (calls_invariant _ [] invariant_empty)). }
  set (s := run xs init) in *.
  exists (nicknamesOf (Map.delete sid (userManager s))).
  split; [|split].
  - rewrite handleDisconnect_eq, Hg. reflexivity.
  - intros Hin.
    apply (Permutation_in _ (nicknamesOf_permutation _)) in Hin.
    apply (Map_delete_values lowerNickname _ _ _ Hg Hu).
    apply list_elem_of_In. apply in_map_iff in Hin as (u & Eu & Hin).
    apply in_map_iff. exists u. split; [|exact Hin].
    unfold lowerNickname. rewrite Eu. reflexivity.
  - rewrite nicknamesOf_length. apply (Map_delete_size_found _ _ _ Hg).
Qed.

End JoiningAndLeaving.

Lemma handleJoinRoom_outcome_witness :
  let s := SocketManager.run
             [SocketManager.Handle (SocketManager.JoinRoom 1 (str "s1") (str "Alice"))]
             SocketManager.init in
  result (UserManager.addUser 2 (str "s2") (str "ALICE ")
            (SocketManager.userManager s))
  = inl ErrorCodes.NICKNAME_TAKEN
  /\ SocketManager.handleJoinRoom 2 (str "s2") (str "ALICE ") s
     = (inr tt,
        SocketManager.mk (SocketManager.userManager s)
          (SocketManager.messageStore s) (SocketManager.rateLimitMap s)
          (SocketManager.emitted s
           ++ [SocketManager.SocketEmit (str "s2")
                 (SocketManager.Error ErrorCodes.NICKNAME_TAKEN)])).
Proof.
  intros s.
  assert (He : result (UserManager.addUser 2 (str "s2") (str "ALICE ")
                         (SocketManager.userManager s))
               = inl ErrorCodes.NICKNAME_TAKEN) by (vm_compute; reflexivity).
  split; [exact He|].
  exact (proj1 (handleJoinRoom_outcome 2 (str "s2") (str "ALICE ") s) _ He).
Defined.

Lemma handleDisconnect_announces_witness :
  let xs := [SocketManager.Handle (SocketManager.JoinRoom 1 (str "s1") (str "Alice"));
             SocketManager.Handle (SocketManager.JoinRoom 2 (str "s2") (str "Bob"))] in
  Map.get (str "s1") (SocketManager.userManager (SocketManager.run xs SocketManager.init))
  = Some (userOf 1 (str "s1") (str "Alice"))
  /\ exists users,
      SocketManager.emitted
        (state (SocketManager.handleDisconnect 3 (str "s1")
                  (SocketManager.run xs SocketManager.init)))
      = SocketManager.emitted (SocketManager.run xs SocketManager.init)
        ++ [SocketManager.BroadcastEmit (str "s1")
              (SocketManager.UserLeft (str "Alice") 3);
            SocketManager.IoEmit (SocketManager.UpdateUsers users)]
      /\ ~ In (str "Alice") users.
Proof.
  intros xs.
  assert (Hg : Map.get (str "s1")
                 (SocketManager.userManager (SocketManager.run xs SocketManager.init))
               = Some (userOf 1 (str "s1") (str "Alice")))
    by (vm_compute; reflexivity).
  split; [exact Hg|].
  destruct (handleDisconnect_announces xs 3 (str "s1") _ Hg) as (users & E & Hn & _).
  exists users. rewrite E. split; [reflexivity|exact Hn].
Defined.

(** ** What the rate limit guarantees *)

Section RateGuarantee.
Import SocketManager.

Lemma acquire_from (sid : list N) (ts : list Z) (s : t) (P : Z -> Prop) :
  Forall P ts -> Forall P (acquire sid ts s).
Proof.
  revert s. induction ts as [|now ts IH]; intros s; [constructor|].
  intros [Hn Hts]%Forall_cons. simpl.
  destruct (result (checkRateLimit now sid s)) as [e|[|]]; try exact (IH _ Hts).
  constructor; [exact Hn|exact (IH _ Hts)].
Qed.

Lemma acquire_full (sid : list N) (now : Z) (ts : list Z) (s : t) :
  3 <= len (purge now (window sid s)) ->
  acquire sid (now :: ts) s = acquire sid ts s.
Proof.
  intros Hfull. simpl. rewrite checkRateLimit_full by exact Hfull. reflexivity.
Qed.

Lemma acquire_free (sid : list N) (now : Z) (ts : list Z) (s : t) :
  len (purge now (window sid s)) < 3 ->
  exists s',
    acquire sid (now :: ts) s = now :: acquire sid ts s'
    /\ window sid s' = purge now (window sid s) ++ [now].
Proof.
  intros Hfree. exists (state (checkRateLimit now sid s)). split.
  - simpl. rewrite checkRateLimit_free by exact Hfree. reflexivity.
  - apply window_recorded. exact Hfree.
Qed.

Lemma nonDecreasing_app_r (a b : list Z) :
  nonDecreasing (a ++ b) -> nonDecreasing b.
Proof.
  induction a as [|x a IH]; [exact id|].
  intros Hs. apply IH. exact (nonDecreasing_tail x _ Hs).
Qed.

Lemma nonDecreasing_app_l (a b : list Z) :
  nonDecreasing (a ++ b) -> nonDecreasing a.
Proof.
  induction a as [|x a IH]; [intros; exact I|].
  destruct a as [|y a]; [intros; exact I|].
  simpl. intros [Hxy Hs]. split; [exact Hxy|exact (IH Hs)].
Qed.

Lemma nonDecreasing_remove (a : list Z) (t : Z) (r : list Z) :
  nonDecreasing (a ++ t :: r) -> nonDecreasing (a ++ r).
Proof.
  induction a as [|x a IH]; simpl app.
  - apply nonDecreasing_tail.
  - destruct a as [|y a]; simpl app in *.
    + intros [Hx Hs]. exact (nonDecreasing_skip x t r Hx Hs).
    + intros [Hxy Hs]. split; [exact Hxy|exact (IH Hs)].
Qed.

Lemma purge_all (now : Z) (w : list Z) :
  Forall (fun t => now - t < 1000) w -> purge now w = w.
Proof.
  induction w as [|t w IH]; [reflexivity|].
  intros [Ht Hw]%Forall_cons. rewrite purge_keep by exact Ht.
  rewrite (IH Hw). reflexivity.
Qed.

(** From a window in order, the purge removes the times at the front. *)
Lemma purge_split (now : Z) (w : list Z) :
  nonDecreasing w ->
  exists d, w = d ++ purge now w /\ Forall (fun t => 1000 <= now - t) d.
Proof.
  induction w as [|t w IH]; intros Hs.
  - exists []. split; [reflexivity|constructor].
  - destruct (Z.lt_ge_cases (now - t) 1000) as [Hk|Hk].
    + exists []. split; [|constructor].
      rewrite (purge_all now (t :: w)); [reflexivity|].
      constructor; [exact Hk|].
      eapply Forall_impl; [exact (nonDecreasing_bound t w Hs)|].
      simpl. intros b Hb. lia.
    + destruct (IH (nonDecreasing_tail t w Hs)) as (d & E & Hd).
      exists (t :: d). rewrite purge_drop by exact Hk. split.
      * simpl. f_equal. exact E.
      * constructor; assumption.
Qed.

Lemma spaced_short (w : list Z) : (length w <= 3)%nat -> spaced w.
Proof.
  destruct w as [|a [|b [|c [|d w]]]]; simpl; intros Hl; try tauto. lia.
Qed.

(** Times that are a second before everything accepted later can be put
    in front, when fewer than three times lie between. *)
Lemma spaced_prepend (d r y : list Z) :
  (length d + length r <= 3)%nat ->
  spaced (r ++ y) ->
  Forall (fun a => Forall (fun b => 1000 <= b - a) y) d ->
  spaced (d ++ r ++ y).
Proof.
  induction d as [|a d IH]; intros Hl Hs Hd; [exact Hs|].
  apply Forall_cons in Hd as [Ha Hd].
  simpl in Hl. specialize (IH ltac:(lia) Hs Hd).
  change ((a :: d) ++ r ++ y) with (a :: (d ++ r ++ y)).
  rewrite app_assoc in IH |- *.
  assert (Hm : (length (d ++ r) <= 2)%nat) by (rewrite length_app; lia).
  revert IH. generalize (d ++ r) Hm. clear -Ha.
  intros m Hm IH. split; [|exact IH].
  destruct m as [|m1 [|m2 [|m3 m]]]; simpl in Hm |- *; [| | |lia].
  - destruct y as [|y1 [|y2 [|y3 y]]]; try exact I.
    apply Forall_cons in Ha as [_ [_ [H3 _]%Forall_cons]%Forall_cons]. exact H3.
  - destruct y as [|y1 [|y2 y]]; try exact I.
    apply Forall_cons in Ha as [_ [H2 _]%Forall_cons]. exact H2.
  - destruct y as [|y1 y]; try exact I.
    apply Forall_cons in Ha as [H1 _]. exact H1.
Qed.

(** The window and what is accepted after it, together. *)
Lemma acquire_spaced (sid : list N) (ts : list Z) :
  forall s : t,
    (length (window sid s) <= 3)%nat ->
    nonDecreasing (window sid s ++ ts) ->
    spaced (window sid s ++ acquire sid ts s).
Proof.
  induction ts as [|now ts IH]; intros s Hlen Hs.
  - simpl. rewrite app_nil_r. apply spaced_short, Hlen.
  - destruct (Z.le_gt_cases 3 (len (purge now (window sid s)))) as [Hfull|Hfree].
    + rewrite acquire_full by exact Hfull. apply IH; [exact Hlen|].
      exact (nonDecreasing_remove _ _ _ Hs).
    + destruct (acquire_free sid now ts s Hfree) as (s' & -> & Hw').
      destruct (purge_split now (window sid s) (nonDecreasing_app_l _ _ Hs))
        as (d & Ew & Hd).
      set (r := purge now (window sid s)) in *.
      assert (Hts : nonDecreasing (now :: ts)) by exact (nonDecreasing_app_r _ _ Hs).
      assert (Hr : nonDecreasing ((r ++ [now]) ++ ts)).
      { rewrite Ew, <- !app_assoc in Hs. rewrite <- app_assoc.
        exact (nonDecreasing_app_r _ _ Hs). }
      specialize (IH s'). rewrite Hw' in IH.
      assert (Hl' : (length (r ++ [now]) <= 3)%nat).
      { rewrite length_app. unfold len in Hfree. simpl. lia. }
      specialize (IH Hl' Hr). rewrite <- app_assoc in IH. simpl app in IH.
      rewrite Ew, <- app_assoc. apply spaced_prepend.
      * rewrite <- length_app, <- Ew. exact Hlen.
      * exact IH.
      * eapply Forall_impl; [exact Hd|]. simpl. intros a Ha.
        constructor; [exact Ha|].
        pose proof (acquire_from sid ts s' (fun b => now <= b)
                      (nonDecreasing_bound now ts Hts)) as Hacc.
        eapply Forall_impl; [exact Hacc|]. simpl. intros b Hb. lia.
Qed.

(** X24: what the rate limit guarantees for a socket whose window is
    empty and that asks at times that do not go back: of the times at
    which [checkRateLimit] returns true, each is at least a second after
    the third one before it, so no four messages are let through within
    less than a second; and a request that comes a second or more after
    every time of the window is let through. *)
Theorem checkRateLimit_guarantee (sid : list N) (s : t) :
  (forall ts : list Z,
      window sid s = [] -> nonDecreasing ts -> spaced (acquire sid ts s))
  /\ (forall now : Z,
         Forall (fun t => 1000 <= now - t) (window sid s) ->
         result (checkRateLimit now sid s) = inr true).
Proof.
  split.
  - intros ts Hw Hs. pose proof (acquire_spaced sid ts s) as Ha.
    rewrite Hw in Ha. apply Ha; [simpl; lia|exact Hs].
  - intros now Hold.
    assert (Hp : purge now (window sid s) = []).
    { induction (window sid s) as [|t w IH]; [reflexivity|].
      apply Forall_cons in Hold as [Ht Hw].
      rewrite purge_drop by exact Ht. exact (IH Hw). }
    rewrite checkRateLimit_free; [reflexivity|].
    rewrite Hp. unfold len; simpl; lia.
Qed.

End RateGuarantee.

Lemma checkRateLimit_guarantee_witness :
  window (str "s1") SocketManager.init = []
  /\ nonDecreasing [0; 100; 200; 300; 999; 1000; 1001]
  /\ spaced (acquire (str "s1") [0; 100; 200; 300; 999; 1000; 1001]
               SocketManager.init).
Proof.
  assert (Hw : window (str "s1") SocketManager.init = []) by reflexivity.
  assert (Hs : nonDecreasing [0; 100; 200; 300; 999; 1000; 1001])
    by (simpl; lia).
  split; [exact Hw|]. split; [exact Hs|].
  exact (proj1 (checkRateLimit_guarantee (str "s1") SocketManager.init) _ Hw Hs).
Defined.

Section Lookup.
Import UserManager.
Context `{CaseMapping}.

Lemma isNicknameExists_eq (n : list N) (st : t) :
  isNicknameExists n st = (inr (taken n st), st).
Proof. reflexivity. Qed.

(** X25: [isNicknameExists] tells what [addUser] will do: for a nickname
    that passes validation it returns true exactly when [addUser] throws
    [NICKNAME_TAKEN]; its answer does not depend on white space around
    the nickname; and it never changes the users. *)
Theorem isNicknameExists_agrees now sid (n : list N) (st : t) :
  state (isNicknameExists n st) = st
  /\ (forall w1 w2,
         blank w1 -> blank w2 ->
         result (isNicknameExists (w1 ++ n ++ w2) st)
         = result (isNicknameExists n st))
  /\ (validNickname n ->
      (result (isNicknameExists n st) = inr true
       <-> result (addUser now sid n st) = inl ErrorCodes.NICKNAME_TAKEN)).
Proof.
  rewrite !isNicknameExists_eq. split; [reflexivity|split].
  - intros w1 w2 Hw1 Hw2. rewrite isNicknameExists_eq.
    unfold result, taken; simpl.
    rewrite trim_blank_app, trim_app_blank by assumption. reflexivity.
  - intros Hv. rewrite addUser_valid by exact Hv. unfold result; simpl.
    destruct (taken n st); [split; reflexivity|].
    destruct (Map.size st >=? 50); split; discriminate.
Qed.

End Lookup.

Lemma isNicknameExists_agrees_witness :
  let st := UserManager.calls [UserManager.AddUser 1 (str "s1") (str "Alice")] [] in
  validNickname (str "alice")
  /\ result (UserManager.isNicknameExists (str "alice") st) = inr true
  /\ result (UserManager.addUser 2 (str "s2") (str "alice") st)
     = inl ErrorCodes.NICKNAME_TAKEN.
Proof.
  intros st.
  assert (Hv : validNickname (str "alice")) by (vm_compute; reflexivity).
  assert (He : result (UserManager.isNicknameExists (str "alice") st) = inr true)
    by (vm_compute; reflexivity).
  split; [exact Hv|]. split; [exact He|].
  exact (proj1 (proj2 (proj2 (isNicknameExists_agrees 2 (str "s2") (str "alice") st))
                  Hv) He).
Defined.

(** ** Closing *)

Section Closing.
Import SocketManager.
Context `{CaseMapping}.

Lemma leaving_delete (k : list N) (users : UserManager.t)
    (closing : list (Z * list N)) :
  k ∉ List.map snd closing ->
  omap (leaving (Map.delete k users)) closing = omap (leaving users) closing.
Proof.
  induction closing as [|[now' k'] closing IH]; [reflexivity|].
  cbn [List.map snd]. intros [Hne Hk]%not_elem_of_cons.
  change (omap (leaving (Map.delete k users)) ((now', k') :: closing))
    with (match leaving (Map.delete k users) (now', k') with
          | Some y => y :: omap (leaving (Map.delete k users)) closing
          | None => omap (leaving (Map.delete k users)) closing
          end).
  change (omap (leaving users) ((now', k') :: closing))
    with (match leaving users (now', k') with
          | Some y => y :: omap (leaving users) closing
          | None => omap (leaving users) closing
          end).
  assert (El : leaving (Map.delete k users) (now', k') = leaving users (now', k'))
    by (unfold leaving; cbn [snd fst]; rewrite Map_get_delete_ne by exact Hne;
        reflexivity).
  rewrite El, (IH Hk). reflexivity.
Qed.

Lemma ioClose_eq (closing : list (Z * list N)) :
  forall s : t,
    exists users windows sent,
      ioClose closing s
      = (inr tt, mk users (messageStore s) windows (emitted s ++ sent))
      /\ forallb sentOnLeave sent = true
      /\ (NoDup (List.map snd closing) ->
          omap departure sent = omap (leaving (userManager s)) closing).
Proof.
  induction closing as [|[now k] closing IH]; intros s.
  - exists (userManager s), (rateLimitMap s), []. rewrite app_nil_r.
    destruct s; repeat split.
  - cbn [ioClose]. unfold bind at 1. rewrite handleDisconnect_eq.
    destruct (Map.get k (userManager s)) as [user|] eqn:Hg.
    + destruct (IH (mk (Map.delete k (userManager s)) (messageStore s)
                      (base.delete k (rateLimitMap s))
                      (emitted s
                       ++ [BroadcastEmit k (UserLeft (User.nickname user) now)]
                       ++ [IoEmit (UpdateUsers
                                     (nicknamesOf (Map.delete k (userManager s))))])))
        as (users & windows & sent & E & Hsent & Hleft).
      rewrite E. cbn [messageStore emitted userManager] in *.
      exists users, windows,
        ([BroadcastEmit k (UserLeft (User.nickname user) now)]
         ++ [IoEmit (UpdateUsers (nicknamesOf (Map.delete k (userManager s))))]
         ++ sent).
      split; [rewrite <- !app_assoc; reflexivity|]. split; [exact Hsent|].
      cbn [List.map snd]. rewrite NoDup_cons. intros [Hk Hnd].
      rewrite !omap_app, (Hleft Hnd).
      change (omap (leaving (userManager s)) ((now, k) :: closing))
        with (match leaving (userManager s) (now, k) with
              | Some y => y :: omap (leaving (userManager s)) closing
              | None => omap (leaving (userManager s)) closing
              end).
      rewrite (leaving_delete k _ _ Hk).
      assert (El : leaving (userManager s) (now, k)
                   = Some (k, User.nickname user, now))
        by (unfold leaving; cbn [snd fst]; rewrite Hg; reflexivity).
      rewrite El. reflexivity.
    + destruct (IH (mk (userManager s) (messageStore s)
                      (base.delete k (rateLimitMap s)) (emitted s)))
        as (users & windows & sent & E & Hsent & Hleft).
      rewrite E. cbn [messageStore emitted userManager] in *.
      exists users, windows, sent.
      split; [reflexivity|]. split; [exact Hsent|].
      cbn [List.map snd]. rewrite NoDup_cons. intros [Hk Hnd].
      change (omap (leaving (userManager s)) ((now, k) :: closing))
        with (match leaving (userManager s) (now, k) with
              | Some y => y :: omap (leaving (userManager s)) closing
              | None => omap (leaving (userManager s)) closing
              end).
      assert (El : leaving (userManager s) (now, k) = None)
        by (unfold leaving; cbn [snd fst]; rewrite Hg; reflexivity).
      rewrite El. exact (Hleft Hnd).
Qed.

(** X26: [close] never throws and leaves no user, no message and no
    window, whatever connections [io.close()] ends and in whatever state
    it is called.  It sends [server-shutdown] to all before anything else;
    what follows is sent by the disconnect listeners, [user-left] and
    [update-users] only; and when the connections that end are different
    ones, [user-left] is sent once for each of them that had a user, in
    the order in which they end, with the nickname the user had. *)
Theorem close_clears (closing : list (Z * list N)) (s : t) :
  exists sent,
    close closing s
    = (inr tt, mk [] [] ∅ (emitted s ++ IoEmit ServerShutdown :: sent))
    /\ forallb sentOnLeave sent = true
    /\ (NoDup (List.map snd closing) ->
        omap departure sent = omap (leaving (userManager s)) closing).
Proof.
  destruct (ioClose_eq closing
              (mk (userManager s) (messageStore s) (rateLimitMap s)
                  (emitted s ++ [IoEmit ServerShutdown])))
    as (users & windows & sent & E & Hsent & Hleft).
  exists sent. split; [|split; [exact Hsent|exact Hleft]].
  unfold close, bind at 1. unfold emit at 1, bind at 1, get, put.
  unfold bind at 1. rewrite E. cbn [emitted].
  rewrite <- app_assoc. reflexivity.
Qed.

End Closing.

Lemma close_clears_witness :
  let s := SocketManager.run
             [SocketManager.Handle (SocketManager.Connection (str "s7"));
              SocketManager.Handle (SocketManager.JoinRoom 1 (str "s1") (str "Alice"));
              SocketManager.Handle (SocketManager.JoinRoom 2 (str "s2") (str "Bob"));
              SocketManager.Handle
                (SocketManager.SendMessage 3 (str "id-1") 3 (str "s1") (str "hi"))]
             SocketManager.init in
  let closing := [(9, str "s2"); (9, str "s7"); (10, str "s1")] in
  NoDup (List.map snd closing)
  /\ exists sent,
      SocketManager.close closing s
      = (inr tt,
         SocketManager.mk [] [] ∅
           (SocketManager.emitted s
            ++ SocketManager.IoEmit SocketManager.ServerShutdown :: sent))
      /\ omap departure sent
         = [(str "s2", str "Bob", 9); (str "s1", str "Alice", 10)].
Proof.
  intros s closing.
  assert (Hnd : NoDup (List.map snd closing))
    by (refine (bool_decide_unpack _ _); vm_compute; exact I).
  split; [exact Hnd|].
  destruct (close_clears closing s) as (sent & E & _ & Hleft).
  exists sent. split; [exact E|]. rewrite (Hleft Hnd). vm_compute. reflexivity.
Defined.

(** ** The client and the server *)

Section ClientAndServer.

Lemma client_nickname_tests (n : list N) :
  fst (ChatApp.validateNickname n) = true
  <-> 1 <= len n <= 20 /\ UserManager.validPattern n = true.
Proof.
  unfold ChatApp.validateNickname.
  pose proof (len_nonneg n) as Hn.
  destruct (Z.eqb_spec (len n) 0) as [E|E]; simpl.
  { split; [discriminate|]. intros [Hl _]. lia. }
  destruct (Z.gtb_spec (len n) 20) as [Hmax|Hmax]; simpl.
  { split; [discriminate|]. intros [Hl _]. lia. }
  destruct (Z.ltb_spec (len n) 1) as [Hmin|Hmin]; simpl.
  { split; [discriminate|]. intros [Hl _]. lia. }
  destruct (UserManager.validPattern n); simpl.
  - split; [intros _; split; [lia|reflexivity]|reflexivity].
  - split; [discriminate|]. intros [_ Hp]. discriminate Hp.
Qed.

(** X27: the client trims the nickname before its own check and sends it
    trimmed.  Every nickname the server accepts passes, trimmed, the check
    of the client; and of the trimmed nicknames the client lets through,
    the server refuses exactly those that hold a white space other than
    single spaces. *)
Theorem client_server_nickname :
  (forall n,
      validNickname n -> fst (ChatApp.validateNickname (trim n)) = true)
  /\ (forall value,
         fst (ChatApp.validateNickname (trim value)) = true ->
         (validNickname (trim value) <-> singleSpaces (trim value) = true)).
Proof.
  split.
  - intros n (_ & Hl & Hp & _)%validNickname_tests.
    apply client_nickname_tests. split; assumption.
  - intros value [Hl Hp]%client_nickname_tests. split.
    + intros Hv. pose proof (validNickname_normal _ Hv) as (_ & _ & Hs & _).
      rewrite trim_idempotent in Hs. exact Hs.
    + intros Hs. apply normalNickname_valid.
      destruct (trim_ends value) as [Hh Ht].
      apply validPattern_forallb in Hp as [_ Hp].
      repeat split; try assumption; lia.
Qed.

End ClientAndServer.

Section ClientMessages.

Lemma client_message_tests (m : list N) :
  fst (ChatApp.validateMessage m) = true <-> 1 <= len m <= 500.
Proof.
  unfold ChatApp.validateMessage. pose proof (len_nonneg m) as Hn.
  destruct (Z.eqb_spec (len m) 0) as [E|E]; simpl.
  { split; [discriminate|]. lia. }
  destruct (Z.gtb_spec (len m) 500) as [Hmax|Hmax]; simpl.
  { split; [discriminate|]. lia. }
  split; [lia|reflexivity].
Qed.

(** X28: the client trims the message before its own check and sends it
    trimmed.  Of the messages the client lets through, [validateMessage]
    of the store refuses exactly those that hold a forbidden control
    character: the lengths the two sides accept are the same. *)
Theorem client_server_message (value : list N) (st : MessageStore.t) :
  fst (ChatApp.validateMessage (trim value)) = true ->
  (result (MessageStore.validateMessage (trim value) st)
   = inl ErrorCodes.INVALID_MESSAGE
   <-> existsb MessageStore.isInvalidChar (trim value) = true)
  /\ (result (MessageStore.validateMessage (trim value) st) = inr tt
      <-> existsb MessageStore.isInvalidChar (trim value) = false).
Proof.
  intros Hl%client_message_tests.
  rewrite validateMessage_rejects. unfold rejects.
  rewrite trim_idempotent.
  destruct (Z.ltb_spec (len (trim value)) 1); [lia|].
  destruct (Z.gtb_spec (len (trim value)) 500); [lia|].
  rewrite !orb_false_r.
  destruct (existsb MessageStore.isInvalidChar (trim value)); simpl;
    split; split; (reflexivity || discriminate).
Qed.

End ClientMessages.

Lemma client_server_nickname_witness :
  fst (ChatApp.validateNickname (trim (str " a  b "))) = true
  /\ (validNickname (trim (str " a  b "))
      <-> singleSpaces (trim (str " a  b ")) = true).
Proof.
  assert (Hc : fst (ChatApp.validateNickname (trim (str " a  b "))) = true)
    by (vm_compute; reflexivity).
  split; [exact Hc|]. exact (proj2 client_server_nickname (str " a  b ") Hc).
Defined.

Lemma client_server_message_witness :
  fst (ChatApp.validateMessage (trim (str " hi " ++ [7%N]))) = true
  /\ (result (MessageStore.validateMessage (trim (str " hi " ++ [7%N])) [])
      = inl ErrorCodes.INVALID_MESSAGE
      <-> existsb MessageStore.isInvalidChar (trim (str " hi " ++ [7%N])) = true).
Proof.
  assert (Hc : fst (ChatApp.validateMessage (trim (str " hi " ++ [7%N]))) = true)
    by (vm_compute; reflexivity).
  split; [exact Hc|].
  exact (proj1 (client_server_message (str " hi " ++ [7%N]) [] Hc)).
Defined.
